(** * get_rid_of_dup: duplicate detection and the deletion driver

    A shallow embedding of [get_rid_of_dup.py].  The embedding follows the
    source function by function:

    - text primitives used on persisted records and operator commands
      ([str.strip], [str.split], [str.lower], [str.isdigit], [int]);
    - Python dictionaries as insertion-ordered association lists;
    - the Digest Store ([load_existing_checksums], [load_checksums],
      [save_checksums] and their single-directory siblings);
    - the Tree Digester ([calculate_checksums],
      [calculate_checksums_single_dir]);
    - the Duplicate Resolver ([summarize_duplicates], [display_summary],
      [summarize_duplicates_single_dir]);
    - the Deletion Driver ([delete_duplicates],
      [delete_duplicates_single_dir]) over an explicit file system, an
      explicit list of operator answers and an explicit console log.

    Text is modelled over code points below 256, one [ascii] per code point.
    A text file is modelled as the list of its lines. *)

From Stdlib Require Import List String Ascii Bool Arith ZArith QArith Lia.
Import ListNotations.
Open Scope string_scope.
Open Scope nat_scope.
Open Scope list_scope.

(* ------------------------------------------------------------------ *)
(** ** Exceptions and the error monad *)

(** The exceptions the embedded functions can raise. *)
Inductive exn : Type :=
| ValueError          (* tuple unpacking of the wrong arity, int() of a non-decimal digit *)
| KeyError            (* existing_checksums[category] with an unknown category *)
| EOFError            (* input() with no answer left *)
| FileNotFoundError.  (* open() of a missing checksum file *)

Inductive result (A : Type) : Type :=
| Ok (a : A)
| Raise (e : exn).
Arguments Ok {A} a.
Arguments Raise {A} e.

Definition bind {A B : Type} (r : result A) (k : A -> result B) : result B :=
  match r with
  | Ok a => k a
  | Raise e => Raise e
  end.

Notation "x <- r ;; k" := (bind r (fun x => k))
  (at level 61, r at next level, right associativity).
Notation "' p <- r ;; k" := (bind r (fun x => let p := x in k))
  (at level 61, p pattern, r at next level, right associativity).

(* ------------------------------------------------------------------ *)
(** ** Text primitives *)

Definition tab : ascii := "009"%char.

(** [str.isspace] on one code point below 256: U+0009..U+000D,
    U+001C..U+0020, U+0085 and U+00A0. *)
Definition isspace (c : ascii) : bool :=
  let n := nat_of_ascii c in
  ((9 <=? n) && (n <=? 13)) || ((28 <=? n) && (n <=? 32))
  || (n =? 133) || (n =? 160).

(** The code points below 256 on which [str.isdigit] holds: the decimal
    digits and the superscripts U+00B2, U+00B3, U+00B9. *)
Definition is_decimal (c : ascii) : bool :=
  let n := nat_of_ascii c in (48 <=? n) && (n <=? 57).

Definition isdigit_char (c : ascii) : bool :=
  let n := nat_of_ascii c in
  is_decimal c || (n =? 178) || (n =? 179) || (n =? 185).

Fixpoint forallb_string (p : ascii -> bool) (s : string) : bool :=
  match s with
  | EmptyString => true
  | String c s' => p c && forallb_string p s'
  end.

(** [s.isdigit()]: at least one character, all of them digits. *)
Definition isdigit (s : string) : bool :=
  match s with
  | EmptyString => false
  | _ => forallb_string isdigit_char s
  end.

(** [str.lower] on one code point below 256. *)
Definition lower_char (c : ascii) : ascii :=
  let n := nat_of_ascii c in
  if ((65 <=? n) && (n <=? 90))
     || ((192 <=? n) && (n <=? 222) && negb (n =? 215))
  then ascii_of_nat (n + 32) else c.

Fixpoint lower (s : string) : string :=
  match s with
  | EmptyString => EmptyString
  | String c s' => String (lower_char c) (lower s')
  end.

Fixpoint lstrip (s : string) : string :=
  match s with
  | EmptyString => EmptyString
  | String c s' => if isspace c then lstrip s' else s
  end.

Fixpoint rstrip (s : string) : string :=
  match s with
  | EmptyString => EmptyString
  | String c s' =>
      match rstrip s' with
      | EmptyString => if isspace c then EmptyString else String c EmptyString
      | r => String c r
      end
  end.

(** [s.strip()]. *)
Definition strip (s : string) : string := rstrip (lstrip s).

(** [s.split(sep)] for a one-character separator: never the empty list. *)
Fixpoint split (sep : ascii) (s : string) : list string :=
  match s with
  | EmptyString => [EmptyString]
  | String c s' =>
      if Ascii.eqb c sep then EmptyString :: split sep s'
      else match split sep s' with
           | h :: t => String c h :: t
           | [] => [String c EmptyString]
           end
  end.

(** [s.startswith(c)] for a one-character prefix. *)
Definition startswith (c : ascii) (s : string) : bool :=
  match s with
  | String c' _ => Ascii.eqb c' c
  | EmptyString => false
  end.

(** [s[1:]]. *)
Definition tail (s : string) : string :=
  match s with
  | String _ s' => s'
  | EmptyString => EmptyString
  end.

Fixpoint int_acc (acc : nat) (s : string) : result nat :=
  match s with
  | EmptyString => Ok acc
  | String c s' =>
      if is_decimal c then int_acc (10 * acc + (nat_of_ascii c - 48)) s'
      else Raise ValueError
  end.

(** [int(s)] on a string for which [isdigit] holds: the superscript digits
    pass [isdigit] and make [int] raise [ValueError].  The interpreter's
    bound on the number of digits [int] converts is not modelled. *)
Definition int (s : string) : result nat := int_acc 0 s.

(** [a, b, c = fields]. *)
Definition unpack3 (fields : list string) : result (string * string * string) :=
  match fields with
  | [a; b; c] => Ok (a, b, c)
  | _ => Raise ValueError
  end.

(** [a, b = fields]. *)
Definition unpack2 (fields : list string) : result (string * string) :=
  match fields with
  | [a; b] => Ok (a, b)
  | _ => Raise ValueError
  end.

(* ------------------------------------------------------------------ *)
(** ** Python dictionaries

    A [dict] keeps its keys in insertion order, and the order is observable
    here: [save_checksums] writes the records in it and the deletion queue
    is built in it.  Assigning to a key that is present keeps its place. *)

Definition dict (V : Type) : Type := list (string * V).

Fixpoint dict_get {V : Type} (d : dict V) (k : string) : option V :=
  match d with
  | [] => None
  | (k', v) :: d' => if String.eqb k' k then Some v else dict_get d' k
  end.

(** [k in d]. *)
Definition dict_mem {V : Type} (d : dict V) (k : string) : bool :=
  match dict_get d k with
  | Some _ => true
  | None => false
  end.

(** [d[k] = v]. *)
Fixpoint dict_set {V : Type} (d : dict V) (k : string) (v : V) : dict V :=
  match d with
  | [] => [(k, v)]
  | (k', v') :: d' =>
      if String.eqb k' k then (k', v) :: d' else (k', v') :: dict_set d' k v
  end.

(** [d.values()]. *)
Definition dict_values {V : Type} (d : dict V) : list V := map snd d.

(** [d[k].append(v)] on a [defaultdict(list)]. *)
Definition dict_append {V : Type} (d : dict (list V)) (k : string) (v : V)
  : dict (list V) :=
  match dict_get d k with
  | Some l => dict_set d k (l ++ [v])
  | None => dict_set d k [v]
  end.

(** [len(v)], which the source applies both to lists and to info
    dictionaries. *)
Class PyLen (V : Type) : Type := py_len : V -> nat.

#[export] Instance PyLen_list {A : Type} : PyLen (list A) := @List.length A.

Definition sum_list (l : list nat) : nat := fold_right Nat.add 0 l.

(* ------------------------------------------------------------------ *)
(** ** Data model *)

(** The info dictionary of one file: [{"path": ..., "abs_path": ...}] as the
    digester builds it, [{"path": ...}] as [load_checksums] builds it. *)
Record FileRecord : Type := mkFile {
  path : string;
  abs_path : option string
}.

(** [len] of an info dictionary is its number of keys. *)
#[export] Instance PyLen_FileRecord : PyLen FileRecord :=
  fun r => match abs_path r with Some _ => 2 | None => 1 end.

(** One file met by [get_all_files]: its path relative to the walked root
    ([os.path.relpath]), its absolute path ([os.path.abspath]) and the digest
    [compute_xxhash64] returns on its content. *)
Record walked : Type := mkWalked {
  w_rel : string;
  w_abs : string;
  w_hash : string
}.

Definition record_of (w : walked) : FileRecord :=
  mkFile (w_rel w) (Some (w_abs w)).

(** [{"BASE": {...}, "OTHER": {...}}], relative path to digest. *)
Record existing_tables : Type := mkExisting {
  ex_base : dict string;
  ex_other : dict string
}.

(** A checksum file: [None] when it does not exist, else its lines. *)
Definition checksum_file : Type := option (list string).

(** One entry of the two-tree resolver's result:
    [{"base": ..., "duplicates": ...}]. *)
Record dup_group (V : Type) : Type := mkGroup {
  base : FileRecord;
  duplicates : V
}.
Arguments mkGroup {V} base duplicates.
Arguments base {V} d.
Arguments duplicates {V} d.

(* ------------------------------------------------------------------ *)
(** ** Digest Store, two-tree mode *)

(** The loop body of [load_existing_checksums]. *)
Definition load_existing_line (ex : existing_tables) (line : string)
  : result existing_tables :=
  '(category, checksum, path) <- unpack3 (split tab (strip line)) ;;
  if String.eqb category "BASE"
  then Ok (mkExisting (dict_set (ex_base ex) path checksum) (ex_other ex))
  else if String.eqb category "OTHER"
  then Ok (mkExisting (ex_base ex) (dict_set (ex_other ex) path checksum))
  else Raise KeyError.

Fixpoint load_existing_lines (ex : existing_tables) (lines : list string)
  : result existing_tables :=
  match lines with
  | [] => Ok ex
  | line :: rest =>
      ex' <- load_existing_line ex line ;;
      load_existing_lines ex' rest
  end.

Definition load_existing_checksums (lines : list string)
  : result existing_tables :=
  load_existing_lines (mkExisting [] []) lines.

(** What [load_checksums] returns, and the error its handler printed. *)
Record loaded_tables : Type := mkLoaded {
  ld_base : dict FileRecord;
  ld_other : dict (list FileRecord);
  ld_error : option exn
}.

(** The loop of [load_checksums]: an exception leaves the loop, the tables
    keep what the earlier lines put into them. *)
Fixpoint load_checksums_lines (base_checksums : dict FileRecord)
    (other_checksums : dict (list FileRecord)) (lines : list string)
  : loaded_tables :=
  match lines with
  | [] => mkLoaded base_checksums other_checksums None
  | line :: rest =>
      match unpack3 (split tab (strip line)) with
      | Raise e => mkLoaded base_checksums other_checksums (Some e)
      | Ok (category, checksum, path) =>
          if String.eqb category "BASE"
          then load_checksums_lines
                 (dict_set base_checksums checksum (mkFile path None))
                 other_checksums rest
          else if String.eqb category "OTHER"
          then load_checksums_lines base_checksums
                 (dict_append other_checksums checksum (mkFile path None)) rest
          else load_checksums_lines base_checksums other_checksums rest
      end
  end.

Definition load_checksums (f : checksum_file) : loaded_tables :=
  match f with
  | None => mkLoaded [] [] (Some FileNotFoundError)
  | Some lines => load_checksums_lines [] [] lines
  end.

Definition record_line (category checksum path : string) : string :=
  category ++ String tab (checksum ++ String tab path).

(** The lines [save_checksums] writes. *)
Definition save_checksums (base_checksums other_checksums : dict FileRecord)
  : list string :=
  map (fun '(checksum, info) => record_line "BASE" checksum (path info))
      base_checksums
  ++ map (fun '(checksum, info) => record_line "OTHER" checksum (path info))
      other_checksums.

(* ------------------------------------------------------------------ *)
(** ** Tree Digester, two-tree mode *)

(** The digest the walk assigns to one file, and the number of calls of
    [compute_xxhash64] it costs: [existing[rel_path]] when reuse is on and
    the relative path is known, the hash of the content otherwise. *)
Definition checksum_of (skip_existing : bool) (existing : dict string)
    (w : walked) : string * nat :=
  match (if skip_existing then dict_get existing (w_rel w) else None) with
  | Some checksum => (checksum, 0)
  | None => (w_hash w, 1)
  end.

(** One turn of the loops of [calculate_checksums]:
    [checksums[checksum] = {"path": rel_path, "abs_path": abs_path}]. *)
Definition digest_step (skip_existing : bool) (existing : dict string)
    (acc : dict FileRecord * nat) (w : walked) : dict FileRecord * nat :=
  let '(checksum, cost) := checksum_of skip_existing existing w in
  (dict_set (fst acc) checksum (record_of w), snd acc + cost).

Definition digest_tree (skip_existing : bool) (existing : dict string)
    (files : list walked) : dict FileRecord * nat :=
  fold_left (digest_step skip_existing existing) files ([], 0).

(** The value of [calculate_checksums], with the number of hash
    computations the pass made. *)
Record digest_run : Type := mkRun {
  base_checksums : dict FileRecord;
  other_checksums : dict FileRecord;
  total_base_files : nat;
  total_other_files : nat;
  hash_calls : nat
}.

(** [existing_checksums] after the block
    [if skip_existing and os.path.exists(checksum_file)]; the [{}] it starts
    from answers [.get("BASE", {})] and [.get("OTHER", {})] with [{}]. *)
Definition reuse_tables (f : checksum_file) (skip_existing : bool)
  : result existing_tables :=
  match f with
  | Some lines =>
      if skip_existing then load_existing_checksums lines
      else Ok (mkExisting [] [])
  | None => Ok (mkExisting [] [])
  end.

Definition calculate_checksums (base_files other_files : list walked)
    (f : checksum_file) (skip_existing : bool) : result digest_run :=
  existing <- reuse_tables f skip_existing ;;
  let b := digest_tree skip_existing (ex_base existing) base_files in
  let o := digest_tree skip_existing (ex_other existing) other_files in
  Ok (mkRun (fst b) (fst o) (List.length base_files)
            (List.length other_files) (snd b + snd o)).

(* ------------------------------------------------------------------ *)
(** ** Duplicate Resolver, two-tree mode *)

(** [summarize_duplicates].  The values of [other_checksums] are lists of
    info dictionaries when the table comes from [load_checksums] and single
    info dictionaries when it comes from [calculate_checksums]; the function
    only stores them and takes their [len]. *)
Definition summarize_duplicates {V : Type} `{PyLen V}
    (base_checksums : dict FileRecord) (other_checksums : dict V)
  : dict (dup_group V) * nat * nat :=
  let duplicates :=
    fold_left
      (fun dups '(checksum, info_list) =>
         match dict_get base_checksums checksum with
         | Some b => dict_set dups checksum (mkGroup b info_list)
         | None => dups
         end)
      other_checksums [] in
  (duplicates,
   List.length base_checksums,
   sum_list (map py_len (dict_values other_checksums))).

(** The four counts [display_summary] prints before it renders the table. *)
Record summary : Type := mkSummary {
  shown_base_files : nat;
  shown_other_files : nat;
  total_duplicates : nat;
  total_unique_files_in_other_dir : Z
}.

Definition display_summary {V : Type} `{PyLen V}
    (dups : dict (dup_group V)) (total_base total_other : nat) : summary :=
  let total_duplicates :=
    sum_list (map (fun info => py_len (duplicates info)) (dict_values dups)) in
  mkSummary total_base total_other total_duplicates
            (Z.of_nat total_other - Z.of_nat total_duplicates).

(* ------------------------------------------------------------------ *)
(** ** Single-directory mode: store, digester, resolver *)

Module SingleDir.

(** [{"original": ..., "duplicates": [...]}]. *)
Record info : Type := mkInfo {
  original : FileRecord;
  duplicates : list FileRecord
}.

Fixpoint load_existing_lines (existing : dict string) (lines : list string)
  : result (dict string) :=
  match lines with
  | [] => Ok existing
  | line :: rest =>
      '(checksum, path) <- unpack2 (split tab (strip line)) ;;
      load_existing_lines (dict_set existing path checksum) rest
  end.

Definition load_existing_checksums_single_dir (lines : list string)
  : result (dict string) :=
  load_existing_lines [] lines.

(** One turn of the loop of [calculate_checksums_single_dir]. *)
Definition digest_step (skip_existing : bool) (existing : dict string)
    (acc : dict info * nat) (w : walked) : dict info * nat :=
  let '(checksum, cost) := checksum_of skip_existing existing w in
  (match dict_get (fst acc) checksum with
   | Some i =>
       dict_set (fst acc) checksum
                (mkInfo (original i) (duplicates i ++ [record_of w]))
   | None => dict_set (fst acc) checksum (mkInfo (record_of w) [])
   end,
   snd acc + cost).

Definition digest_tree (skip_existing : bool) (existing : dict string)
    (files : list walked) : dict info * nat :=
  fold_left (digest_step skip_existing existing) files ([], 0).

(** [calculate_checksums_single_dir]: the table, the number of files and
    the number of hash computations. *)
(** [existing_checksums] after the block
    [if skip_existing and os.path.exists(checksum_file)]. *)
Definition reuse_table (f : checksum_file) (skip_existing : bool)
  : result (dict string) :=
  match f with
  | Some lines =>
      if skip_existing then load_existing_checksums_single_dir lines
      else Ok []
  | None => Ok []
  end.

Definition calculate_checksums_single_dir (files : list walked)
    (f : checksum_file) (skip_existing : bool)
  : result (dict info * nat * nat) :=
  existing <- reuse_table f skip_existing ;;
  let r := digest_tree skip_existing existing files in
  Ok (fst r, List.length files, snd r).

Definition save_checksums_single_dir (checksums : dict info) : list string :=
  flat_map
    (fun '(checksum, i) =>
       (checksum ++ String tab (path (original i)))%string
       :: map (fun dup => (checksum ++ String tab (path dup))%string)
              (duplicates i))
    checksums.

Definition summarize_duplicates_single_dir (checksums : dict info)
  : dict info * nat :=
  (fold_left
     (fun dups '(checksum, i) =>
        match duplicates i with
        | [] => dups
        | _ :: _ => dict_set dups checksum i
        end)
     checksums [],
   sum_list (map (fun i => 1 + List.length (duplicates i))
                 (dict_values checksums))).

End SingleDir.

(* ------------------------------------------------------------------ *)
(** ** The file system and the console *)

(** The paths that exist, each with whether [os.remove] succeeds on it
    (it raises, for instance, on a directory or without permission). *)
Definition filesystem : Type := list (string * bool).

Definition os_path_exists (fs : filesystem) (p : string) : bool :=
  existsb (fun e => String.eqb (fst e) p) fs.

(** [os.remove(p)] on a path that exists: the new file system, or [None]
    when it raises. *)
Definition os_remove (fs : filesystem) (p : string) : option filesystem :=
  match find (fun e => String.eqb (fst e) p) fs with
  | Some (_, true) => Some (filter (fun e => negb (String.eqb (fst e) p)) fs)
  | _ => None
  end.

(** What the driver prints, asks and waits for, in the order of the
    source's [print], [input] and [time.sleep] calls. *)
Inductive event : Type :=
| EvTotalToDelete (total_files : nat)
| EvConfirmEnabled
| EvNextHeader
| EvNextDuplicate (number : nat) (duplicate_path : string)
| EvNextBase (base_path : string)
| EvPrompt
| EvSkipping (duplicate_path : string)
| EvCancelled
| EvInvalid
| EvDeleted (duplicate_path : string)
| EvDeleteError (duplicate_path : string)
| EvNotFound (duplicate_path : string)
| EvSleepWarning
| EvAskContinue
| EvDeleting (idx total_files : nat) (duplicate_path : string)
| EvBaseFile (base_path : string)
| EvFilesLeft (files_left : nat)
| EvSleep (sleep_time : Q)
| EvTotalDeleted (total_deleted : nat)
| EvReminder.

Record state : Type := mkState {
  fs : filesystem;
  total_deleted : nat;
  console : list event
}.

Definition emit (evs : list event) (st : state) : state :=
  mkState (fs st) (total_deleted st) (console st ++ evs).

(** The exists-check-then-remove block, which the source repeats at each
    of its three deletion sites. *)
Definition remove_if_exists (duplicate_path : string) (st : state) : state :=
  if os_path_exists (fs st) duplicate_path then
    match os_remove (fs st) duplicate_path with
    | Some fs' =>
        mkState fs' (total_deleted st + 1)
                (console st ++ [EvDeleted duplicate_path])
    | None => emit [EvDeleteError duplicate_path] st
    end
  else emit [EvNotFound duplicate_path] st.

Inductive outcome : Type :=
| Returned (st : state)
| Raised (e : exn) (st : state).

Definition final_state (o : outcome) : state :=
  match o with
  | Returned st => st
  | Raised _ st => st
  end.

(** How one turn of the interactive loop ends: at the next turn
    ([continue], or the end of the body), at [break], or in an exception. *)
Inductive control : Type :=
| Next (idx : nat) (st : state)
| Break (st : state)
| Throw (e : exn) (st : state).

(** One entry of [files_to_delete]. *)
Record item : Type := mkItem {
  it_base : FileRecord;
  it_duplicate : FileRecord
}.

(* ------------------------------------------------------------------ *)
(** ** Deletion Driver

    [delete_duplicates] and [delete_duplicates_single_dir] have the same
    body: they differ in where the queue comes from and in the roots the
    paths are resolved under.  The body is embedded once, over the queue and
    the two roots. *)

Section Driver.

(** [os.path.abspath(os.path.join(root, rel))]. *)
Variable abspath_join : string -> string -> string.

Variables base_dir other_dir : string.
Variable files_to_delete : list item.

Let total_files : nat := List.length files_to_delete.

(** [os.path.abspath(os.path.join(other_dir, files_to_delete[idx]["duplicate"]["path"]))];
    every use in the source is guarded by [idx < total_files]. *)
Definition duplicate_path_of (it : item) : string :=
  abspath_join other_dir (path (it_duplicate it)).

Definition base_path_of (it : item) : string :=
  abspath_join base_dir (path (it_base it)).

Definition duplicate_path_at (idx : nat) : string :=
  match nth_error files_to_delete idx with
  | Some it => duplicate_path_of it
  | None => EmptyString
  end.

(** The preview: [for j in range(idx, min(idx + list_next, total_files))]. *)
Definition preview (idx : nat) (list_next : Z) : list event :=
  let stop := Z.min (Z.of_nat idx + list_next) (Z.of_nat total_files) in
  EvNextHeader
  :: flat_map
       (fun j =>
          match nth_error files_to_delete j with
          | Some next_item =>
              [EvNextDuplicate (j + 1) (duplicate_path_of next_item);
               EvNextBase (base_path_of next_item)]
          | None => []
          end)
       (seq idx (Z.to_nat (stop - Z.of_nat idx))).

(** The [n<number>] loop: [for _ in range(num_to_skip)]. *)
Fixpoint skip_many (num_to_skip idx : nat) (st : state) : nat * state :=
  match num_to_skip with
  | 0 => (idx, st)
  | S n =>
      if total_files <=? idx then (idx, st)
      else skip_many n (idx + 1) (emit [EvSkipping (duplicate_path_at idx)] st)
  end.

(** The loop after a deletion: [for _ in range(skip_count)]. *)
Fixpoint auto_delete (skip_count idx : nat) (st : state) : nat * state :=
  match skip_count with
  | 0 => (idx, st)
  | S n =>
      let idx := idx + 1 in
      if total_files <=? idx then (idx, st)
      else auto_delete n idx (remove_if_exists (duplicate_path_at idx) st)
  end.

(** From "Delete the current file" to the end of the loop body.  Every
    branch that reaches it assigns [skip_count] first, so the value an
    earlier turn left is never read: it is taken as an argument. *)
Definition delete_current (skip_count : Z) (idx : nat) (st : state)
  : nat * state :=
  let st := remove_if_exists (duplicate_path_at idx) st in
  let idx := idx + 1 in
  if (0 <? skip_count)%Z then auto_delete (Z.to_nat skip_count) idx st
  else (idx, st).

(** The body of the [while] loop from the answer on: what the operator's
    answer does at cursor [idx], and how the turn ends. *)
Definition turn (idx : nat) (st : state) (answer : string) : control :=
  let user_input := lower (strip answer) in
  if String.eqb user_input "y" then
    let '(idx, st) := delete_current 0 idx st in Next idx st
  else if String.eqb user_input "n" then
    Next (idx + 1) (emit [EvSkipping (duplicate_path_at idx)] st)
  else if startswith "y" user_input && isdigit (tail user_input) then
    match int (tail user_input) with
    | Raise e => Throw e st
    | Ok n =>
        let '(idx, st) := delete_current (Z.of_nat n - 1) idx st in
        Next idx st
    end
  else if startswith "n" user_input && isdigit (tail user_input) then
    match int (tail user_input) with
    | Raise e => Throw e st
    | Ok num_to_skip =>
        let '(idx, st) := skip_many num_to_skip idx st in Next idx st
    end
  else if String.eqb user_input "yall" then
    let '(idx, st) :=
      delete_current (Z.of_nat total_files - Z.of_nat idx - 1) idx st in
    Next idx st
  else if String.eqb user_input "nall" then
    Break (emit (EvCancelled
                 :: map (fun it => EvSkipping (duplicate_path_of it))
                        (skipn idx files_to_delete)) st)
  else Next idx (emit [EvInvalid] st).

(** The [while idx < total_files] loop of the interactive mode; each turn
    takes one answer from the operator. *)
Fixpoint interactive_loop (list_next : Z) (inputs : list string)
    (idx : nat) (st : state) : outcome :=
  if total_files <=? idx then Returned st
  else
    let st := emit (preview idx list_next ++ [EvPrompt]) st in
    match inputs with
    | [] => Raised EOFError st
    | answer :: inputs =>
        match turn idx st answer with
        | Next idx st => interactive_loop list_next inputs idx st
        | Break st => Returned st
        | Throw e st => Raised e st
        end
    end.

(** The [for idx, item in enumerate(files_to_delete, start=1)] loop of the
    batch mode. *)
Fixpoint batch_loop (sleep_time : Q) (idx : nat) (items : list item)
    (st : state) : state :=
  match items with
  | [] => st
  | it :: items =>
      let files_left := total_files - idx in
      let st := emit [EvDeleting idx total_files (duplicate_path_of it);
                      EvBaseFile (base_path_of it);
                      EvFilesLeft files_left] st in
      let st := remove_if_exists (duplicate_path_of it) st in
      let st := if (0 <? files_left) && negb (Qle_bool sleep_time 0)
                then emit [EvSleep sleep_time] st else st in
      batch_loop sleep_time (idx + 1) items st
  end.

(** The two prints every path but the cancelled batch run ends with. *)
Definition report (st : state) : state :=
  emit [EvTotalDeleted (total_deleted st); EvReminder] st.

(** The body both routines share.  [sleep_time] is the float of the command
    line, taken as a rational: the body only compares it with zero and
    hands it to [time.sleep], which is taken to return. *)
Definition drive (sleep_time : Q) (confirm : bool) (list_next : Z)
    (inputs : list string) (disk : filesystem) : outcome :=
  let st := mkState disk 0 [EvTotalToDelete total_files] in
  if confirm then
    match interactive_loop list_next inputs 0 (emit [EvConfirmEnabled] st) with
    | Returned st => Returned (report st)
    | Raised e st => Raised e st
    end
  else if Qeq_bool sleep_time 0 then
    let st := emit [EvSleepWarning; EvAskContinue] st in
    match inputs with
    | [] => Raised EOFError st
    | confirm_input :: _ =>
        if negb (String.eqb (lower confirm_input) "yes")
        then Returned (emit [EvCancelled] st)
        else Returned (report (batch_loop sleep_time 1 files_to_delete st))
    end
  else Returned (report (batch_loop sleep_time 1 files_to_delete st)).

End Driver.

Arguments delete_current : simpl never.
Arguments preview : simpl never.
Arguments report : simpl never.

(** "Collect files to delete" in [delete_duplicates]: every entry of every
    group's [duplicates], groups in table order. *)
Definition files_to_delete_of (dups : dict (dup_group (list FileRecord)))
  : list item :=
  flat_map (fun info => map (mkItem (base info)) (duplicates info))
           (dict_values dups).

Definition delete_duplicates (abspath_join : string -> string -> string)
    (dups : dict (dup_group (list FileRecord))) (base_dir other_dir : string)
    (sleep_time : Q) (confirm : bool) (list_next : Z)
    (inputs : list string) (disk : filesystem) : outcome :=
  drive abspath_join base_dir other_dir (files_to_delete_of dups)
        sleep_time confirm list_next inputs disk.

(** "Collect files to delete" in [delete_duplicates_single_dir]. *)
Definition files_to_delete_single_dir (dups : dict SingleDir.info)
  : list item :=
  flat_map (fun i => map (mkItem (SingleDir.original i))
                         (SingleDir.duplicates i))
           (dict_values dups).

(** [delete_duplicates_single_dir]: both paths are resolved under
    [directory]. *)
Definition delete_duplicates_single_dir
    (abspath_join : string -> string -> string)
    (dups : dict SingleDir.info) (directory : string)
    (sleep_time : Q) (confirm : bool) (list_next : Z)
    (inputs : list string) (disk : filesystem) : outcome :=
  drive abspath_join directory directory (files_to_delete_single_dir dups)
        sleep_time confirm list_next inputs disk.

(** A concrete [os.path] for the examples: POSIX, absolute roots, relative
    entries without dots. *)
Definition posix_join (root rel : string) : string := root ++ "/" ++ rel.

(* ------------------------------------------------------------------ *)
(** ** Reporting, single-directory mode *)

(** The three counts [display_summary_single_dir] prints before it renders
    the table. *)
Record single_summary : Type := mkSingleSummary {
  shown_total_files : nat;
  shown_total_duplicates : nat;
  shown_total_unique_files : Z
}.

Definition display_summary_single_dir (dups : dict SingleDir.info)
    (total_files : nat) : single_summary :=
  let total_duplicates :=
    sum_list (map (fun i => List.length (SingleDir.duplicates i))
                  (dict_values dups)) in
  mkSingleSummary total_files total_duplicates
                  (Z.of_nat total_files - Z.of_nat total_duplicates).

(* ------------------------------------------------------------------ *)
(** ** File listing *)

Section Walk.

(** [fnmatch.fnmatch(name, pattern)]. *)
Variable fnmatch : string -> string -> bool.

(** [os.path.join(root, file)]. *)
Variable os_path_join : string -> string -> string.

(** The loop over the patterns in [get_all_files], with its [break]. *)
Fixpoint excluded (file : string) (exclude_patterns : list string) : bool :=
  match exclude_patterns with
  | [] => false
  | pattern :: rest =>
      if fnmatch file pattern then true else excluded file rest
  end.

(** [get_all_files], over what [os.walk(path)] yields: each directory with
    the names of its files. *)
Definition get_all_files (walk : list (string * list string))
    (exclude_patterns : list string) : list string :=
  flat_map
    (fun d =>
       flat_map
         (fun file =>
            if excluded file exclude_patterns then []
            else [os_path_join (fst d) file])
         (snd d))
    walk.

End Walk.

(* ------------------------------------------------------------------ *)
(** ** Reporting, two-tree mode: the rows of the table *)

(** [[dup["path"] for dup in v]]: [None] when it raises [TypeError]. *)
Class PyRecords (V : Type) : Type := dup_paths : V -> option (list string).

(** Over a list of info dictionaries: their paths. *)
#[export] Instance PyRecords_list : PyRecords (list FileRecord) :=
  fun l => Some (map path l).

(** Over one info dictionary the loop runs over its keys, the first of
    which is the string ["path"]; indexing a string with ["path"] raises
    [TypeError]. *)
#[export] Instance PyRecords_FileRecord : PyRecords FileRecord :=
  fun _ => None.

Definition newline : string := String "010"%char EmptyString.

(** The loop that fills [table_data] in [display_summary]. *)
Fixpoint table_data {V : Type} `{PyRecords V} (infos : list (dup_group V))
  : option (list (string * string)) :=
  match infos with
  | [] => Some []
  | info :: rest =>
      match dup_paths (duplicates info) with
      | None => None
      | Some paths =>
          match table_data rest with
          | None => None
          | Some rows =>
              Some ((path (base info), String.concat newline paths) :: rows)
          end
      end
  end.

(** What [display_summary] does after the counts. *)
Inductive rendering : Type :=
| NoDuplicatesIdentified
| Rendered (rows : list (string * string))
| RaisedTypeError.

Definition render_table {V : Type} `{PyRecords V} (dups : dict (dup_group V))
  : rendering :=
  match table_data (dict_values dups) with
  | None => RaisedTypeError
  | Some [] => NoDuplicatesIdentified
  | Some rows => Rendered rows
  end.

(* ------------------------------------------------------------------ *)
(** ** The commands of [main] *)

(** The [search] and [checksum] commands: the lines written to the checksum
    file, if any, the counts printed, and how the table went. *)
Record search_result : Type := mkSearch {
  sr_saved : option (list string);
  sr_summary : summary;
  sr_table : rendering
}.

Definition search_or_checksum_command (is_checksum update_checksum_file : bool)
    (base_files other_files : list walked) (f : checksum_file)
    (skip_existing : bool) : result search_result :=
  r <- calculate_checksums base_files other_files f skip_existing ;;
  let dups :=
    fst (fst (summarize_duplicates (base_checksums r) (other_checksums r))) in
  Ok (mkSearch
        (if is_checksum && update_checksum_file
         then Some (save_checksums (base_checksums r) (other_checksums r))
         else None)
        (display_summary dups (total_base_files r) (total_other_files r))
        (render_table dups)).

(** The [delete] command. *)
Definition delete_command (abspath_join : string -> string -> string)
    (base_dir target_dir : string) (f : checksum_file)
    (sleep_time : Q) (confirm : bool) (list_next : Z)
    (inputs : list string) (disk : filesystem) : outcome :=
  let t := load_checksums f in
  let dups := fst (fst (summarize_duplicates (ld_base t) (ld_other t))) in
  delete_duplicates abspath_join dups base_dir target_dir
    sleep_time confirm list_next inputs disk.

(** The [dedup] command: the lines written to the checksum file, if any,
    the counts printed, and the run of the deletion routine, which is only
    started when there is a group ([if duplicates:]). *)
Record dedup_result : Type := mkDedup {
  dd_saved : option (list string);
  dd_summary : single_summary;
  dd_run : option outcome
}.

Definition dedup_command (abspath_join : string -> string -> string)
    (base_dir : string) (files : list walked) (f : checksum_file)
    (skip_existing update_checksum_file : bool)
    (sleep_time : Q) (confirm : bool) (list_next : Z)
    (inputs : list string) (disk : filesystem) : result dedup_result :=
  pass <- SingleDir.calculate_checksums_single_dir files f skip_existing ;;
  let checksums := fst (fst pass) in
  let total_files := snd (fst pass) in
  let dups := fst (SingleDir.summarize_duplicates_single_dir checksums) in
  Ok (mkDedup
        (if update_checksum_file
         then Some (SingleDir.save_checksums_single_dir checksums)
         else None)
        (display_summary_single_dir dups total_files)
        (match dups with
         | [] => None
         | _ :: _ =>
             Some (delete_duplicates_single_dir abspath_join dups base_dir
                     sleep_time confirm list_next inputs disk)
         end)).

(* ------------------------------------------------------------------ *)
(** ** Predicates and data the statements use *)

Definition no_tab (s : string) : bool :=
  forallb_string (fun c => negb (Ascii.eqb c tab)) s.

(** No line terminator: a file is modelled as its lines, so a token that
    held one would not stay on its line. *)
Definition one_line (s : string) : bool :=
  forallb_string
    (fun c => negb (Ascii.eqb c "010"%char) && negb (Ascii.eqb c "013"%char)) s.

(** Not empty and not ending in white space: [strip] keeps it when it ends
    a line. *)
Definition ends_clean (s : string) : bool :=
  negb (String.eqb s "") && String.eqb (rstrip s) s.

(** A walked file whose record survives [save_checksums] followed by
    [load_existing_checksums]. *)
Definition persistable (w : walked) : bool :=
  no_tab (w_hash w) && one_line (w_hash w)
  && no_tab (w_rel w) && one_line (w_rel w) && ends_clean (w_rel w).

(** A line that splits into the three fields of a two-tree record. *)
Definition well_formed (line : string) : bool :=
  match unpack3 (split tab (strip line)) with
  | Ok _ => true
  | Raise _ => false
  end.

(** The console ends with the total and the reminder. *)
Definition reported (st : state) : Prop :=
  exists before,
    console st = before ++ [EvTotalDeleted (total_deleted st); EvReminder].

(** [os.remove] was called on [p]: it printed either its success or its
    failure. *)
Definition removal_attempted (st : state) (p : string) : Prop :=
  In (EvDeleted p) (console st) \/ In (EvDeleteError p) (console st).

(** An answer that moves the interactive cursor forward or ends the loop:
    [y], [n], [yall], [nall], [y<number>], and [n<number>] with a positive
    number. *)
Definition advancing (answer : string) : bool :=
  let user_input := lower (strip answer) in
  String.eqb user_input "y" || String.eqb user_input "n"
  || String.eqb user_input "yall" || String.eqb user_input "nall"
  || (startswith "y" user_input && isdigit (tail user_input)
      && match int (tail user_input) with Ok _ => true | Raise _ => false end)
  || (startswith "n" user_input && isdigit (tail user_input)
      && match int (tail user_input) with Ok n => 0 <? n | Raise _ => false end).

(** The batch run with zero delay whose confirmation is not [yes]. *)
Definition declined (sleep_time : Q) (confirm : bool) (inputs : list string)
  : bool :=
  negb confirm && Qeq_bool sleep_time 0
  && match inputs with
     | confirm_input :: _ => negb (String.eqb (lower confirm_input) "yes")
     | [] => false
     end.

(** How a run of the driver over a queue of [total_files] pairs may end. *)
Definition exits_as_designed (total_files : nat) (sleep_time : Q)
    (confirm : bool) (inputs : list string) (disk : filesystem)
    (run : outcome) : Prop :=
  (forall st, run = Returned st ->
     if declined sleep_time confirm inputs
     then fs st = disk /\ total_deleted st = 0
          /\ console st = [EvTotalToDelete total_files; EvSleepWarning;
                           EvAskContinue; EvCancelled]
     else reported st)
  /\ (forall e st, run = Raised e st ->
        (e = EOFError \/ e = ValueError) /\ (confirm = false -> inputs = []))
  /\ (confirm = false -> Qeq_bool sleep_time 0 = false \/ inputs <> [] ->
      exists st, run = Returned st)
  /\ (confirm = true ->
      Forall (fun answer => advancing answer = true) inputs ->
      total_files <= List.length inputs ->
      exists st, run = Returned st).

(** The files of a walk the pass assigns digest [d] to, in walk order. *)
Definition sharing (skip_existing : bool) (existing : dict string)
    (files : list walked) (d : string) : list FileRecord :=
  map record_of
      (filter (fun w => String.eqb (fst (checksum_of skip_existing existing w)) d)
              files).

(** The entries of a dictionary under key [k] (at most one in a
    dictionary a program built). *)
Definition entries_at {V : Type} (d : dict V) (k : string) : dict V :=
  filter (fun e => String.eqb (fst e) k) d.

(** Events that are not the outcome of a call of [os.remove]. *)
Definition quiet (evs : list event) : bool :=
  forallb (fun e => match e with
                    | EvDeleted _ | EvDeleteError _ => false
                    | _ => true
                    end) evs.

(** The state a turn, or a run, ends in. *)
Definition control_state (c : control) : state :=
  match c with
  | Next _ st => st
  | Break st => st
  | Throw _ st => st
  end.



(** The entry of a single-directory table after the files [rs] with its
    digest have been walked, from the entry [o] before them: the first file
    met becomes the original, every later one is appended to the
    duplicates. *)
Definition extend (o : option SingleDir.info) (rs : list FileRecord)
  : option SingleDir.info :=
  match rs with
  | [] => o
  | r :: rs' =>
      match o with
      | Some i =>
          Some (SingleDir.mkInfo (SingleDir.original i)
                                 (SingleDir.duplicates i ++ rs))
      | None => Some (SingleDir.mkInfo r rs')
      end
  end.

(** [if info["duplicates"]] on an entry of the single-directory table. *)
Definition has_duplicates (e : string * SingleDir.info) : bool :=
  match SingleDir.duplicates (snd e) with
  | [] => false
  | _ :: _ => true
  end.

(** The reuse dictionary [load_existing_checksums] builds from the records
    [save_checksums] wrote for one table: relative path to digest. *)
Definition paths_to_digests (table : dict FileRecord) (existing : dict string)
  : dict string :=
  fold_left (fun d e => dict_set d (path (snd e)) (fst e)) table existing.

(** An entry of a digest table whose record [save_checksums] writes on one
    line that reads back: no tab and no line break in the digest or the
    path, the path not empty and not ending in white space. *)
Definition record_safe (e : string * FileRecord) : bool :=
  no_tab (fst e) && one_line (fst e)
  && no_tab (path (snd e)) && one_line (path (snd e))
  && ends_clean (path (snd e)).

(** A line [load_existing_checksums] accepts: three fields, the first of
    them [BASE] or [OTHER]. *)
Definition known_record (line : string) : bool :=
  match unpack3 (split tab (strip line)) with
  | Ok (category, _, _) =>
      String.eqb category "BASE" || String.eqb category "OTHER"
  | Raise _ => false
  end.

(** The canonical table as [load_checksums] reads it back: the absolute
    paths are not persisted. *)
Definition reloaded_base (table : dict FileRecord) : dict FileRecord :=
  map (fun e => (fst e, mkFile (path (snd e)) None)) table.

(** The comparison table as [load_checksums] reads it back: one list per
    digest. *)
Definition reloaded_other (table : dict FileRecord) : dict (list FileRecord) :=
  map (fun e => (fst e, [mkFile (path (snd e)) None])) table.

(** The last file of a walk the pass assigns digest [d] to. *)
Definition last_assigned (skip_existing : bool) (existing : dict string)
    (files : list walked) (d : string) : option walked :=
  find (fun w => String.eqb (fst (checksum_of skip_existing existing w)) d)
       (rev files).


(** Not empty and not starting with white space: [strip] keeps it when it
    starts a line. *)
Definition starts_clean (s : string) : bool :=
  match s with
  | String c _ => negb (isspace c)
  | EmptyString => false
  end.

(** A walked file whose record survives [save_checksums_single_dir]
    followed by [load_existing_checksums_single_dir]: the line starts with
    the digest, so the digest must not start with white space either. *)
Definition persistable_single (w : walked) : bool :=
  persistable w && starts_clean (w_hash w).

(** The digest and path of every record of a single-directory table, in the
    order [save_checksums_single_dir] writes them. *)
Definition saved_pairs (checksums : dict SingleDir.info)
  : list (string * string) :=
  flat_map
    (fun e => (fst e, path (SingleDir.original (snd e)))
              :: map (fun dup => (fst e, path dup))
                     (SingleDir.duplicates (snd e)))
    checksums.

(** The reuse dictionary built from a list of digest and path pairs. *)
Definition pairs_to_dict (pairs : list (string * string))
    (existing : dict string) : dict string :=
  fold_left (fun d e => dict_set d (snd e) (fst e)) pairs existing.

(** A path that is on disk and on which [os.remove] succeeds. *)
Definition removable (disk : filesystem) (p : string) : bool :=
  match os_remove disk p with
  | Some _ => true
  | None => false
  end.

(** An answer that, stripped and lowered, does not start with [y]. *)
Definition not_a_yes (answer : string) : bool :=
  negb (startswith "y" (lower (strip answer))).

(** A batch run that goes ahead: the delay is not zero, or the operator
    answered [yes]. *)
Definition proceeds (sleep_time : Q) (inputs : list string) : bool :=
  negb (Qeq_bool sleep_time 0)
  || match inputs with
     | confirm_input :: _ => String.eqb (lower confirm_input) "yes"
     | [] => false
     end.

(** A digest and path pair whose line [save_checksums_single_dir] writes
    splits back into the two fields. *)
Definition pair_safe (e : string * string) : bool :=
  starts_clean (fst e) && no_tab (fst e)
  && no_tab (snd e) && ends_clean (snd e).

(** The digests a pass assigns are those of the contents: every walked
    file the reuse dictionary lists is listed with the hash of its content
    (always so when reuse is off or nothing was loaded). *)
Definition up_to_date (skip_existing : bool) (existing : dict string)
    (files : list walked) : bool :=
  forallb (fun w => String.eqb (fst (checksum_of skip_existing existing w))
                               (w_hash w))
          files.



(* ------------------------------------------------------------------ *)
(** ** Concrete tables, queues and disks for the examples *)

Definition plain (p : string) : FileRecord := mkFile p None.

(** Five pairs in two groups. *)
Definition five_pairs : dict (dup_group (list FileRecord)) :=
  [("d1", mkGroup (plain "keep1") [plain "a"; plain "b"; plain "c"]);
   ("d2", mkGroup (plain "keep2") [plain "d"; plain "e"])].

Definition five_on_disk : filesystem :=
  [("/base/keep1", true); ("/base/keep2", true);
   ("/other/a", true); ("/other/b", true); ("/other/c", true);
   ("/other/d", true); ("/other/e", true)].

(** Three pairs in one group. *)
Definition three_pairs : dict (dup_group (list FileRecord)) :=
  [("d1", mkGroup (plain "keep1") [plain "a"; plain "b"; plain "c"])].

Definition three_on_disk : filesystem :=
  [("/base/keep1", true);
   ("/other/a", true); ("/other/b", true); ("/other/c", true)].


(** Canonical = {d1: fileA}, Comparison = {d1: [fileB, fileC], d2: [fileD]}. *)
Definition canonical_table : dict FileRecord := [("d1", plain "fileA")].

Definition comparison_table : dict (list FileRecord) :=
  [("d1", [plain "fileB"; plain "fileC"]); ("d2", [plain "fileD"])].

(** A canonical tree with one file and a comparison tree with two files,
    all three with the same content. *)
Definition base_tree : list walked := [mkWalked "fileA" "/base/fileA" "d1"].

Definition other_tree : list walked :=
  [mkWalked "fileB" "/other/fileB" "d1"; mkWalked "fileC" "/other/fileC" "d1"].

(** One tree in which [p1], [p2], [p3] have content d1 and [p4] has d2. *)
Definition single_tree : list walked :=
  [mkWalked "p1" "/dir/p1" "d1"; mkWalked "p2" "/dir/p2" "d1";
   mkWalked "p3" "/dir/p3" "d1"; mkWalked "p4" "/dir/p4" "d2"].

(** A canonical tree with two files of the same content. *)
Definition twin_tree : list walked :=
  [mkWalked "a" "/base/a" "d1"; mkWalked "b" "/base/b" "d1"].

(** A canonical tree with one file, whose name holds a tab. *)
Definition tabbed_tree : list walked :=
  [mkWalked (String "a" (String tab "b"))
            ("/base/" ++ String "a" (String tab "b")) "d1"].

(** A canonical tree of two files with different contents, and a checksum
    file written when [a] still had the content [b] has now. *)
Definition edited_tree : list walked :=
  [mkWalked "a" "/base/a" "d0"; mkWalked "b" "/base/b" "d1"].

Definition stale_file : list string := [record_line "BASE" "d1" "a"].

(* ------------------------------------------------------------------ *)
(** ** Text lemmas *)

Lemma split_no_sep (sep : ascii) (s : string) :
  forallb_string (fun c => negb (Ascii.eqb c sep)) s = true ->
  split sep s = [s].
Proof.
  induction s as [|c s IH]; simpl; intros H; [reflexivity|].
  apply andb_prop in H. destruct H as [Hc Hs].
  destruct (Ascii.eqb c sep); [discriminate|].
  now rewrite (IH Hs).
Qed.

Lemma split_append (sep : ascii) (a b : string) :
  forallb_string (fun c => negb (Ascii.eqb c sep)) a = true ->
  split sep (a ++ String sep b) = a :: split sep b.
Proof.
  induction a as [|c a IH]; simpl; intros H.
  - now rewrite Ascii.eqb_refl.
  - apply andb_prop in H. destruct H as [Hc Ha].
    destruct (Ascii.eqb c sep); [discriminate|].
    now rewrite (IH Ha).
Qed.

Lemma append_assoc (a b c : string) :
  ((a ++ b) ++ c = a ++ (b ++ c))%string.
Proof. induction a as [|x a IH]; simpl; [reflexivity | now rewrite IH]. Qed.

Lemma append_empty_inv (a b : string) : (a ++ b = "" -> b = "")%string.
Proof. destruct a; simpl; [auto | discriminate]. Qed.

Lemma rstrip_append (a b : string) :
  b <> "" -> rstrip b = b -> rstrip (a ++ b) = (a ++ b)%string.
Proof.
  intros Hne Hb. induction a as [|c a IH]; simpl; [exact Hb|].
  rewrite IH. destruct (a ++ b)%string eqn:E; [|reflexivity].
  apply append_empty_inv in E. contradiction.
Qed.

Lemma ends_clean_spec (s : string) :
  ends_clean s = true -> s <> "" /\ rstrip s = s.
Proof.
  unfold ends_clean. intros H. apply andb_prop in H. destruct H as [H1 H2].
  split.
  - intros ->. discriminate.
  - now apply String.eqb_eq.
Qed.

(** A record line whose tokens are clean parses back into its tokens. *)
Lemma parse_record_line (category checksum p : string) :
  category = "BASE" \/ category = "OTHER" ->
  no_tab checksum = true -> no_tab p = true -> ends_clean p = true ->
  unpack3 (split tab (strip (record_line category checksum p)))
  = Ok (category, checksum, p).
Proof.
  intros Hcat Hc Hp Hclean.
  apply ends_clean_spec in Hclean. destruct Hclean as [Hne Hr].
  assert (Hstrip : strip (record_line category checksum p)
                   = record_line category checksum p).
  { unfold strip, record_line.
    assert (Hl : forall rest, lstrip (category ++ rest) = (category ++ rest)%string)
      by (intros rest; destruct Hcat as [-> | ->]; reflexivity).
    rewrite Hl.
    replace (category ++ String tab (checksum ++ String tab p))%string
      with ((category ++ String tab (checksum ++ String tab "")) ++ p)%string.
    - now apply rstrip_append.
    - rewrite append_assoc. simpl. now rewrite append_assoc. }
  rewrite Hstrip. unfold record_line.
  assert (Hcat' : no_tab category = true)
    by (destruct Hcat as [-> | ->]; reflexivity).
  unfold no_tab in *.
  rewrite (split_append tab category _ Hcat').
  rewrite (split_append tab checksum _ Hc).
  now rewrite (split_no_sep tab p Hp).
Qed.

(* ------------------------------------------------------------------ *)
(** ** Dictionary lemmas *)

Section DictFacts.

Context {V : Type}.
Implicit Types (d : dict V) (k : string) (v : V).

Lemma dict_get_set_same d k v : dict_get (dict_set d k v) k = Some v.
Proof.
  induction d as [|[k' v'] d IH]; simpl.
  - now rewrite String.eqb_refl.
  - destruct (String.eqb k' k) eqn:E; simpl; rewrite E; auto.
Qed.

Lemma dict_get_set_other d k k' v :
  k <> k' -> dict_get (dict_set d k v) k' = dict_get d k'.
Proof.
  intros Hne. induction d as [|[k0 v0] d IH]; simpl.
  - destruct (String.eqb_spec k k'); [contradiction | reflexivity].
  - destruct (String.eqb_spec k0 k) as [-> | Hk]; simpl.
    + destruct (String.eqb_spec k k'); [contradiction | reflexivity].
    + now rewrite IH.
Qed.

Lemma dict_get_In d k v : dict_get d k = Some v -> In (k, v) d.
Proof.
  induction d as [|[k' v'] d IH]; simpl; [discriminate|].
  destruct (String.eqb_spec k' k) as [-> | Hk]; intros H.
  - injection H as ->. now left.
  - right. auto.
Qed.

Lemma dict_get_None d k : dict_get d k = None <-> ~ In k (map fst d).
Proof.
  induction d as [|[k' v'] d IH]; simpl.
  - tauto.
  - destruct (String.eqb_spec k' k) as [-> | Hk].
    + split; [discriminate | tauto].
    + rewrite IH. tauto.
Qed.

Lemma dict_set_fresh d k v :
  dict_get d k = None -> dict_set d k v = d ++ [(k, v)].
Proof.
  induction d as [|[k' v'] d IH]; simpl; [reflexivity|].
  destruct (String.eqb k' k); [discriminate|].
  intros H. now rewrite IH.
Qed.

Lemma dict_set_In d k v k' v' :
  In (k', v') (dict_set d k v) -> (k' = k /\ v' = v) \/ In (k', v') d.
Proof.
  induction d as [|[k0 v0] d IH]; simpl.
  - intros [H | []]. injection H as <- <-. auto.
  - destruct (String.eqb_spec k0 k) as [-> | Hk]; simpl.
    + intros [H | H]; [injection H as <- <-; auto | auto].
    + intros [H | H]; [auto|]. destruct (IH H); auto.
Qed.

Lemma dict_set_keys d k v :
  map fst (dict_set d k v)
  = if dict_mem d k then map fst d else map fst d ++ [k].
Proof.
  unfold dict_mem. induction d as [|[k0 v0] d IH]; simpl; [reflexivity|].
  destruct (String.eqb_spec k0 k) as [-> | Hk]; simpl; [reflexivity|].
  rewrite IH. now destruct (dict_get d k).
Qed.

Lemma dict_set_NoDup d k v :
  NoDup (map fst d) -> NoDup (map fst (dict_set d k v)).
Proof.
  intros Hd. rewrite dict_set_keys. unfold dict_mem.
  destruct (dict_get d k) eqn:E; [exact Hd|].
  apply dict_get_None in E.
  apply NoDup_app; [exact Hd | repeat constructor; intros [] | ].
  intros x Hx [<- | []]. contradiction.
Qed.

Lemma dict_get_NoDup_In d k v :
  NoDup (map fst d) -> In (k, v) d -> dict_get d k = Some v.
Proof.
  induction d as [|[k0 v0] d IH]; simpl; [intros _ []|].
  intros Hnd [H | H].
  - injection H as -> ->. now rewrite String.eqb_refl.
  - inversion Hnd as [|? ? Hnot Hnd']; subst.
    destruct (String.eqb_spec k0 k) as [-> | Hk]; [|auto].
    exfalso. apply Hnot. apply (in_map fst) in H. exact H.
Qed.

End DictFacts.

(* ------------------------------------------------------------------ *)
(** ** Digest Store: malformed records *)

Lemma unpack3_raises (fields : list string) (e : exn) :
  unpack3 fields = Raise e -> e = ValueError.
Proof.
  destruct fields as [|a [|b [|c [|x fields]]]]; simpl; congruence.
Qed.

Lemma malformed_raises_ValueError (line : string) :
  well_formed line = false ->
  unpack3 (split tab (strip line)) = Raise ValueError.
Proof.
  unfold well_formed. destruct (unpack3 _) as [t | e] eqn:E; [discriminate|].
  intros _. now rewrite (unpack3_raises _ _ E).
Qed.

(** [load_existing_checksums] has no handler: a malformed line anywhere
    makes it raise. *)
Lemma load_existing_lines_malformed (pre post : list string) (bad : string) :
  well_formed bad = false ->
  forall ex, exists e, load_existing_lines ex (pre ++ bad :: post) = Raise e.
Proof.
  intros Hbad. apply malformed_raises_ValueError in Hbad.
  induction pre as [|line pre IH]; intros ex; simpl.
  - unfold load_existing_line. rewrite Hbad. simpl. now exists ValueError.
  - destruct (load_existing_line ex line) as [ex' | e]; simpl.
    + apply IH.
    + now exists e.
Qed.

(** [load_checksums] goes through well-formed lines without an error. *)
Lemma load_checksums_lines_app (pre rest : list string) :
  Forall (fun l => well_formed l = true) pre ->
  forall b o,
    ld_error (load_checksums_lines b o pre) = None /\
    load_checksums_lines b o (pre ++ rest)
    = load_checksums_lines (ld_base (load_checksums_lines b o pre))
                           (ld_other (load_checksums_lines b o pre)) rest.
Proof.
  induction 1 as [|line pre Hline Hpre IH]; intros b o; simpl; [auto|].
  unfold well_formed in Hline.
  destruct (unpack3 (split tab (strip line))) as [[[category checksum] p] | e];
    [|discriminate].
  destruct (String.eqb category "BASE"); [apply IH|].
  destruct (String.eqb category "OTHER"); apply IH.
Qed.

(** C5 (counterexample): [load_checksums] on a file whose second line is
    malformed returns normally, with the record of the first line in the
    table and the record of the third line missing. *)
Lemma C5_load_checksums_returns_partial_table :
  well_formed "garbage" = false /\
  load_checksums
    (Some [record_line "BASE" "d1" "a.txt"; "garbage";
           record_line "OTHER" "d1" "b.txt"])
  = mkLoaded [("d1", mkFile "a.txt" None)] [] (Some ValueError).
Proof. split; reflexivity. Qed.

(** C5 (amended): on a checksum file with a malformed line,
    [load_existing_checksums] raises and returns no table, and so does the
    digesting pass that reuses the file; [load_checksums] catches the error,
    reports it and returns the tables built from the lines before the first
    malformed one. *)
Theorem C5_malformed_record (pre post : list string) (bad : string)
    (base_files other_files : list walked) :
  Forall (fun l => well_formed l = true) pre ->
  well_formed bad = false ->
  (exists e, load_existing_checksums (pre ++ bad :: post) = Raise e) /\
  (exists e, calculate_checksums base_files other_files
               (Some (pre ++ bad :: post)) true = Raise e) /\
  ld_error (load_checksums (Some pre)) = None /\
  load_checksums (Some (pre ++ bad :: post))
  = mkLoaded (ld_base (load_checksums (Some pre)))
             (ld_other (load_checksums (Some pre))) (Some ValueError).
Proof.
  intros Hpre Hbad.
  destruct (load_existing_lines_malformed pre post bad Hbad (mkExisting [] []))
    as [e He].
  split; [now exists e|].
  split.
  { exists e. unfold calculate_checksums, reuse_tables.
    unfold load_existing_checksums in *. now rewrite He. }
  destruct (load_checksums_lines_app pre (bad :: post) Hpre [] []) as [Hnone Happ].
  split; [exact Hnone|].
  simpl. rewrite Happ. simpl.
  now rewrite (malformed_raises_ValueError bad Hbad).
Qed.

(** C5 (witness): a record, a malformed line, a record. *)
Lemma C5_malformed_record_witness :
  ld_base (load_checksums
             (Some ([record_line "BASE" "d1" "a.txt"]
                    ++ "garbage" :: [record_line "OTHER" "d1" "b.txt"])))
  = [("d1", mkFile "a.txt" None)].
Proof.
  destruct (C5_malformed_record [record_line "BASE" "d1" "a.txt"]
              [record_line "OTHER" "d1" "b.txt"] "garbage" [] [])
    as [_ [_ [_ H]]].
  - repeat constructor.
  - reflexivity.
  - rewrite H. reflexivity.
Defined.

(* ------------------------------------------------------------------ *)
(** ** Deletion Driver: unfolding and an invariant principle *)

Lemma remove_if_exists_missing (p : string) (st : state) :
  os_path_exists (fs st) p = false ->
  remove_if_exists p st = emit [EvNotFound p] st.
Proof. unfold remove_if_exists. now intros ->. Qed.

Lemma interactive_loop_unfold
    (abspath_join : string -> string -> string) (base_dir other_dir : string)
    (files_to_delete : list item) (list_next : Z) (inputs : list string)
    (idx : nat) (st : state) :
  interactive_loop abspath_join base_dir other_dir files_to_delete
    list_next inputs idx st
  = if List.length files_to_delete <=? idx then Returned st
    else
      let st := emit (preview abspath_join base_dir other_dir files_to_delete
                        idx list_next ++ [EvPrompt]) st in
      match inputs with
      | [] => Raised EOFError st
      | answer :: inputs =>
          match turn abspath_join other_dir files_to_delete idx st answer with
          | Next idx st =>
              interactive_loop abspath_join base_dir other_dir files_to_delete
                list_next inputs idx st
          | Break st => Returned st
          | Throw e st => Raised e st
          end
      end.
Proof. destruct inputs; reflexivity. Qed.

(** A property of the driver's state that printing keeps and that the
    exists-check-then-remove block keeps on every queue entry holds at the
    end of every run, whatever the mode and the answers. *)
Section DriverInvariant.

Variable abspath_join : string -> string -> string.
Variables base_dir other_dir : string.
Variable files_to_delete : list item.

Variable P : state -> Prop.

Hypothesis P_emit :
  forall evs st, quiet evs = true -> P st -> P (emit evs st).

Hypothesis P_remove :
  forall it st,
    In it files_to_delete ->
    P st -> P (remove_if_exists (duplicate_path_of abspath_join other_dir it) st).

Lemma P_remove_at (idx : nat) (st : state) :
  idx < List.length files_to_delete ->
  P st ->
  P (remove_if_exists
       (duplicate_path_at abspath_join other_dir files_to_delete idx) st).
Proof.
  intros Hidx HP. unfold duplicate_path_at.
  destruct (nth_error files_to_delete idx) as [it|] eqn:E.
  - apply P_remove; [eapply nth_error_In; eauto | exact HP].
  - apply nth_error_None in E. lia.
Qed.

Lemma skip_many_invariant (n idx : nat) (st : state) :
  P st -> P (snd (skip_many abspath_join other_dir files_to_delete n idx st)).
Proof.
  revert idx st. induction n as [|n IH]; intros idx st HP; simpl; [exact HP|].
  destruct (List.length files_to_delete <=? idx); [exact HP|].
  apply IH. now apply P_emit.
Qed.

Lemma auto_delete_invariant (n idx : nat) (st : state) :
  P st -> P (snd (auto_delete abspath_join other_dir files_to_delete n idx st)).
Proof.
  revert idx st. induction n as [|n IH]; intros idx st HP; simpl; [exact HP|].
  destruct (Nat.leb_spec (List.length files_to_delete) (idx + 1));
    [exact HP|].
  apply IH. now apply P_remove_at.
Qed.

Lemma delete_current_invariant (skip_count : Z) (idx : nat) (st : state) :
  idx < List.length files_to_delete ->
  P st ->
  P (snd (delete_current abspath_join other_dir files_to_delete
            skip_count idx st)).
Proof.
  intros Hidx HP. unfold delete_current.
  destruct (0 <? skip_count)%Z.
  - apply auto_delete_invariant. now apply P_remove_at.
  - simpl. now apply P_remove_at.
Qed.

Lemma turn_invariant (idx : nat) (st : state) (answer : string) :
  idx < List.length files_to_delete ->
  P st ->
  P (control_state
       (turn abspath_join other_dir files_to_delete idx st answer)).
Proof.
  intros Hlt HP. unfold turn.
  set (u := lower (strip answer)).
  destruct (String.eqb u "y").
  { pose proof (delete_current_invariant 0 idx st Hlt HP) as H.
    now destruct (delete_current _ _ _ _ _ _). }
  destruct (String.eqb u "n"); [simpl; now apply P_emit|].
  destruct (startswith "y" u && isdigit (tail u)).
  { destruct (int (tail u)) as [n | e]; [|exact HP].
    pose proof (delete_current_invariant (Z.of_nat n - 1) idx st Hlt HP) as H.
    now destruct (delete_current _ _ _ _ _ _). }
  destruct (startswith "n" u && isdigit (tail u)).
  { destruct (int (tail u)) as [n | e]; [|exact HP].
    pose proof (skip_many_invariant n idx st HP) as H.
    now destruct (skip_many _ _ _ _ _ _). }
  destruct (String.eqb u "yall").
  { pose proof (delete_current_invariant
                  (Z.of_nat (List.length files_to_delete) - Z.of_nat idx - 1)
                  idx st Hlt HP) as H.
    now destruct (delete_current _ _ _ _ _ _). }
  destruct (String.eqb u "nall").
  { simpl. apply P_emit; [|exact HP]. unfold quiet. simpl.
    apply forallb_forall. intros e He. apply in_map_iff in He.
    now destruct He as [it [<- _]]. }
  simpl. now apply P_emit.
Qed.

Lemma preview_quiet (idx : nat) (list_next : Z) :
  quiet (preview abspath_join base_dir other_dir files_to_delete
           idx list_next ++ [EvPrompt]) = true.
Proof.
  unfold quiet, preview. rewrite forallb_app. simpl. rewrite andb_true_r.
  apply forallb_forall. intros e He. apply in_flat_map in He.
  destruct He as [j [_ He]].
  destruct (nth_error files_to_delete j); simpl in He;
    [destruct He as [<- | [<- | []]]; reflexivity | contradiction].
Qed.

Lemma interactive_loop_invariant (list_next : Z) (inputs : list string) :
  forall idx st,
    P st ->
    P (final_state
         (interactive_loop abspath_join base_dir other_dir files_to_delete
            list_next inputs idx st)).
Proof.
  induction inputs as [|answer inputs IH]; intros idx st HP;
    rewrite interactive_loop_unfold;
    destruct (Nat.leb_spec (List.length files_to_delete) idx) as [Hge | Hlt];
    try exact HP;
    pose proof (P_emit _ st (preview_quiet idx list_next) HP) as HP';
    cbv zeta.
  - exact HP'.
  - pose proof (turn_invariant idx _ answer Hlt HP') as H.
    destruct (turn _ _ _ _ _ _) as [i s | s | e s]; simpl in H |- *;
      [now apply IH | exact H | exact H].
Qed.

Lemma batch_loop_invariant (sleep_time : Q) (items : list item) :
  incl items files_to_delete ->
  forall idx st,
    P st ->
    P (batch_loop abspath_join base_dir other_dir files_to_delete
         sleep_time idx items st).
Proof.
  induction items as [|it items IH]; intros Hincl idx st HP; simpl;
    [exact HP|].
  apply IH; [intros x Hx; apply Hincl; now right|].
  match goal with |- P (if ?c then _ else _) => destruct c end.
  - apply P_emit; [reflexivity|].
    apply P_remove; [apply Hincl; now left|]. now apply P_emit.
  - apply P_remove; [apply Hincl; now left|]. now apply P_emit.
Qed.

(** The principle: [P] at the start of a run is [P] at its end. *)
Lemma drive_invariant (sleep_time : Q) (confirm : bool) (list_next : Z)
    (inputs : list string) (disk : filesystem) :
  P (mkState disk 0 [EvTotalToDelete (List.length files_to_delete)]) ->
  P (final_state
       (drive abspath_join base_dir other_dir files_to_delete
          sleep_time confirm list_next inputs disk)).
Proof.
  intros HP. unfold drive.
  set (st0 := mkState disk 0 _) in *.
  destruct confirm.
  - pose proof (interactive_loop_invariant list_next inputs 0
                  (emit [EvConfirmEnabled] st0)
                  (P_emit [EvConfirmEnabled] st0 eq_refl HP)) as H.
    destruct (interactive_loop _ _ _ _ _ _ _ _) as [st | e st]; simpl in *;
      [now apply P_emit | exact H].
  - assert (Hb : forall st, P st ->
              P (report (batch_loop abspath_join base_dir other_dir
                           files_to_delete sleep_time 1 files_to_delete st))).
    { intros st Hst. apply P_emit; [reflexivity|].
      apply batch_loop_invariant; [apply incl_refl | exact Hst]. }
    destruct (Qeq_bool sleep_time 0).
    + pose proof (P_emit [EvSleepWarning; EvAskContinue] st0 eq_refl HP) as H.
      destruct inputs as [|confirm_input inputs]; simpl; [exact H|].
      destruct (negb (String.eqb (lower confirm_input) "yes")); simpl.
      * now apply P_emit.
      * now apply Hb.
    + simpl. now apply Hb.
Qed.

End DriverInvariant.

(* ------------------------------------------------------------------ *)
(** ** Deletion Driver: the [y<number>] and [yall] batches *)

Section AutoDelete.

Variable abspath_join : string -> string -> string.
Variable other_dir : string.
Variable files_to_delete : list item.

(** The positions the loop after a deletion removes, from the cursor [idx]
    it is entered with: [idx + 1] onwards, at most [skip_count] of them. *)
Lemma auto_delete_removes (skip_count : nat) :
  forall idx st,
    snd (auto_delete abspath_join other_dir files_to_delete skip_count idx st)
    = fold_left
        (fun s j =>
           remove_if_exists
             (duplicate_path_at abspath_join other_dir files_to_delete j) s)
        (seq (idx + 1)
             (Nat.min skip_count (List.length files_to_delete - 1 - idx)))
        st.
Proof.
  induction skip_count as [|n IH]; intros idx st; simpl; [reflexivity|].
  destruct (Nat.leb_spec (List.length files_to_delete) (idx + 1)) as [Hge | Hlt].
  - replace (List.length files_to_delete - 1 - idx) with 0 by lia.
    reflexivity.
  - rewrite IH.
    replace (List.length files_to_delete - 1 - idx)
      with (S (List.length files_to_delete - 1 - (idx + 1))) by lia.
    simpl. now replace (idx + 1 + 1) with (S (idx + 1)) by lia.
Qed.

(** What a confirmed deletion with a positive [skip_count] removes: the
    item at the cursor, then the items from two past the cursor on.  The
    item right after the cursor is not among them: the cursor is advanced
    after the confirmed deletion and again at the head of each turn of the
    loop. *)
Lemma delete_current_removes (skip_count : Z) (idx : nat) (st : state) :
  (0 < skip_count)%Z ->
  snd (delete_current abspath_join other_dir files_to_delete skip_count idx st)
  = fold_left
      (fun s j =>
         remove_if_exists
           (duplicate_path_at abspath_join other_dir files_to_delete j) s)
      (seq (idx + 2)
           (Nat.min (Z.to_nat skip_count)
                    (List.length files_to_delete - 2 - idx)))
      (remove_if_exists
         (duplicate_path_at abspath_join other_dir files_to_delete idx) st).
Proof.
  intros Hpos. unfold delete_current.
  apply Z.ltb_lt in Hpos. rewrite Hpos. rewrite auto_delete_removes.
  replace (idx + 1 + 1) with (idx + 2) by lia.
  now replace (List.length files_to_delete - 1 - (idx + 1))
    with (List.length files_to_delete - 2 - idx) by lia.
Qed.

End AutoDelete.

(** C2: on a queue of five pairs, all on disk, the answers [y3], [n], [y]
    delete items 1, 3 and 4, never touch item 2, ask again about item 4
    (already deleted) and skip it, and delete item 5; the reported total is
    4.  The auto-delete loop starts one item too far: the cursor is advanced
    once after the confirmed deletion and once more at the head of every
    turn of the loop. *)
Theorem C2_y3_leaves_the_second_item :
  delete_duplicates posix_join five_pairs "/base" "/other" 1 true 0
    ["y3"; "n"; "y"] five_on_disk
  = Returned
      (mkState
         [("/base/keep1", true); ("/base/keep2", true); ("/other/b", true)]
         4
         [EvTotalToDelete 5; EvConfirmEnabled;
          EvNextHeader; EvPrompt;
          EvDeleted "/other/a"; EvDeleted "/other/c"; EvDeleted "/other/d";
          EvNextHeader; EvPrompt; EvSkipping "/other/d";
          EvNextHeader; EvPrompt; EvDeleted "/other/e";
          EvTotalDeleted 4; EvReminder]).
Proof. vm_compute. reflexivity. Qed.

(** C3: on a queue of three pairs, all on disk, the answer [yall] deletes
    items 1 and 3 and the loop ends; item 2 is neither deleted nor skipped
    nor asked about, and is still on disk. *)
Theorem C3_yall_leaves_the_second_item :
  delete_duplicates posix_join three_pairs "/base" "/other" 1 true 0
    ["yall"] three_on_disk
  = Returned
      (mkState
         [("/base/keep1", true); ("/other/b", true)]
         2
         [EvTotalToDelete 3; EvConfirmEnabled;
          EvNextHeader; EvPrompt;
          EvDeleted "/other/a"; EvDeleted "/other/c";
          EvTotalDeleted 2; EvReminder]).
Proof. vm_compute. reflexivity. Qed.

(* ------------------------------------------------------------------ *)
(** ** Deletion Driver: how a run ends *)

Section DriverExit.

Variable abspath_join : string -> string -> string.
Variables base_dir other_dir : string.
Variable files_to_delete : list item.

Lemma skip_many_idx (n idx : nat) (st : state) :
  idx <= fst (skip_many abspath_join other_dir files_to_delete n idx st).
Proof.
  revert idx st. induction n as [|n IH]; intros idx st; simpl; [lia|].
  destruct (List.length files_to_delete <=? idx); simpl; [lia|].
  specialize (IH (idx + 1) (emit [EvSkipping
    (duplicate_path_at abspath_join other_dir files_to_delete idx)] st)). lia.
Qed.

Lemma skip_many_advances (n idx : nat) (st : state) :
  0 < n -> idx < List.length files_to_delete ->
  idx < fst (skip_many abspath_join other_dir files_to_delete n idx st).
Proof.
  intros Hn Hidx. destruct n as [|n]; [lia|]. simpl.
  destruct (Nat.leb_spec (List.length files_to_delete) idx); [lia|].
  pose proof (skip_many_idx n (idx + 1) (emit [EvSkipping
    (duplicate_path_at abspath_join other_dir files_to_delete idx)] st)). lia.
Qed.

Lemma auto_delete_idx (n idx : nat) (st : state) :
  idx <= fst (auto_delete abspath_join other_dir files_to_delete n idx st).
Proof.
  revert idx st. induction n as [|n IH]; intros idx st; simpl; [lia|].
  destruct (List.length files_to_delete <=? idx + 1); simpl; [lia|].
  specialize (IH (idx + 1) (remove_if_exists
    (duplicate_path_at abspath_join other_dir files_to_delete (idx + 1)) st)).
  lia.
Qed.

Lemma delete_current_advances (skip_count : Z) (idx : nat) (st : state) :
  idx < fst (delete_current abspath_join other_dir files_to_delete
               skip_count idx st).
Proof.
  unfold delete_current. destruct (0 <? skip_count)%Z; simpl; [|lia].
  match goal with |- _ < fst (auto_delete _ _ _ ?n ?i ?s) =>
    pose proof (auto_delete_idx n i s) end. lia.
Qed.

(** An advancing answer moves the cursor forward or leaves the loop. *)
Lemma turn_advances (idx : nat) (st : state) (answer : string) :
  advancing answer = true ->
  idx < List.length files_to_delete ->
  match turn abspath_join other_dir files_to_delete idx st answer with
  | Next idx' _ => idx < idx'
  | Break _ => True
  | Throw _ _ => False
  end.
Proof.
  unfold advancing, turn. cbv zeta.
  set (u := lower (strip answer)). intros Hadv Hlt.
  destruct (String.eqb_spec u "y") as [Hy | Hy].
  { pose proof (delete_current_advances 0 idx st).
    now destruct (delete_current _ _ _ _ _ _). }
  destruct (String.eqb_spec u "n") as [Hn | Hn]; [lia|].
  simpl in Hadv.
  destruct (startswith "y" u && isdigit (tail u)) eqn:Hyd.
  { destruct (String.eqb_spec u "yall") as [Hyall | Hyall];
      [rewrite Hyall in Hyd; discriminate|].
    destruct (String.eqb_spec u "nall") as [Hnall | Hnall];
      [rewrite Hnall in Hyd; discriminate|].
    simpl in Hadv.
    destruct (int (tail u)) as [n | e].
    - pose proof (delete_current_advances (Z.of_nat n - 1) idx st).
      now destruct (delete_current _ _ _ _ _ _).
    - simpl in Hadv. apply andb_prop in Hadv. destruct Hadv as [_ Hadv].
      destruct (startswith "n" u && isdigit (tail u)); discriminate. }
  destruct (startswith "n" u && isdigit (tail u)) eqn:Hnd.
  { destruct (String.eqb_spec u "yall") as [Hyall | Hyall];
      [rewrite Hyall in Hnd; discriminate|].
    destruct (String.eqb_spec u "nall") as [Hnall | Hnall];
      [rewrite Hnall in Hnd; discriminate|].
    simpl in Hadv.
    destruct (int (tail u)) as [n | e]; [|discriminate].
    apply Nat.ltb_lt in Hadv.
    pose proof (skip_many_advances n idx st Hadv Hlt).
    now destruct (skip_many _ _ _ _ _ _). }
  destruct (String.eqb_spec u "yall") as [Hyall | Hyall].
  { pose proof (delete_current_advances
                  (Z.of_nat (List.length files_to_delete) - Z.of_nat idx - 1)
                  idx st).
    now destruct (delete_current _ _ _ _ _ _). }
  destruct (String.eqb_spec u "nall"); [exact I | discriminate].
Qed.

(** The only exceptions a turn raises are those of [int]. *)
Lemma int_acc_raises (s : string) :
  forall acc e, int_acc acc s = Raise e -> e = ValueError.
Proof.
  induction s as [|c s IH]; simpl; intros acc e; [discriminate|].
  destruct (is_decimal c); [apply IH | congruence].
Qed.

Lemma turn_throws (idx : nat) (st st' : state) (answer : string) (e : exn) :
  turn abspath_join other_dir files_to_delete idx st answer = Throw e st' ->
  e = ValueError.
Proof.
  unfold turn. cbv zeta. set (u := lower (strip answer)).
  destruct (String.eqb u "y");
    [now destruct (delete_current _ _ _ _ _ _)|].
  destruct (String.eqb u "n"); [discriminate|].
  destruct (startswith "y" u && isdigit (tail u)).
  { destruct (int (tail u)) as [n | e'] eqn:E.
    - now destruct (delete_current _ _ _ _ _ _).
    - intros H. injection H as -> _. eapply int_acc_raises, E. }
  destruct (startswith "n" u && isdigit (tail u)).
  { destruct (int (tail u)) as [n | e'] eqn:E.
    - now destruct (skip_many _ _ _ _ _ _).
    - intros H. injection H as -> _. eapply int_acc_raises, E. }
  destruct (String.eqb u "yall");
    [now destruct (delete_current _ _ _ _ _ _)|].
  destruct (String.eqb u "nall"); discriminate.
Qed.

Lemma interactive_loop_raises (list_next : Z) (inputs : list string) :
  forall idx st e st',
    interactive_loop abspath_join base_dir other_dir files_to_delete
      list_next inputs idx st = Raised e st' ->
    e = EOFError \/ e = ValueError.
Proof.
  induction inputs as [|answer inputs IH]; intros idx st e st';
    rewrite interactive_loop_unfold;
    destruct (List.length files_to_delete <=? idx); try discriminate;
    cbv zeta.
  - intros H. injection H as <- _. now left.
  - destruct (turn _ _ _ _ _ _) as [i s | s | e' s] eqn:E.
    + apply IH.
    + discriminate.
    + intros H. injection H as <- _. right. eapply turn_throws, E.
Qed.

Lemma interactive_loop_returns (list_next : Z) (inputs : list string) :
  Forall (fun answer => advancing answer = true) inputs ->
  forall idx st,
    List.length files_to_delete - idx <= List.length inputs ->
    exists st',
      interactive_loop abspath_join base_dir other_dir files_to_delete
        list_next inputs idx st = Returned st'.
Proof.
  induction 1 as [|answer inputs Hadv Hrest IH]; intros idx st Hlen;
    rewrite interactive_loop_unfold;
    destruct (Nat.leb_spec (List.length files_to_delete) idx) as [Hge | Hlt];
    try (eexists; reflexivity); cbv zeta.
  - simpl in Hlen. lia.
  - set (st1 := emit _ st).
    pose proof (turn_advances idx st1 answer Hadv Hlt) as Hturn.
    destruct (turn _ _ _ _ _ _) as [i s | s | e s].
    + apply IH. simpl in Hlen. lia.
    + eexists; reflexivity.
    + contradiction.
Qed.

Lemma reported_report (st : state) : reported (report st).
Proof. exists (console st). reflexivity. Qed.

(** Every run of the driver body ends as designed. *)
Lemma drive_exits_as_designed (sleep_time : Q) (confirm : bool)
    (list_next : Z) (inputs : list string) (disk : filesystem) :
  exits_as_designed (List.length files_to_delete) sleep_time confirm inputs disk
    (drive abspath_join base_dir other_dir files_to_delete
       sleep_time confirm list_next inputs disk).
Proof.
  unfold exits_as_designed, declined, drive.
  set (st0 := mkState disk 0 _).
  destruct confirm; simpl negb; cbv iota; simpl andb.
  - (* interactive *)
    destruct (interactive_loop _ _ _ _ _ _ _ _) as [st | e st] eqn:E;
      (split; [|split; [|split]]); try discriminate.
    + intros st' H. injection H as <-. apply reported_report.
    + intros _ _ _. eexists; reflexivity.
    + intros e' st' H. injection H as <- <-.
      split; [eapply interactive_loop_raises, E | discriminate].
    + intros _ Hadv Hlen.
      destruct (interactive_loop_returns list_next inputs Hadv 0
                  (emit [EvConfirmEnabled] st0)) as [st' Hst']; [lia|].
      rewrite Hst' in E. discriminate.
  - (* batch *)
    destruct (Qeq_bool sleep_time 0).
    + destruct inputs as [|confirm_input inputs].
      * split; [|split; [|split]]; try discriminate.
        -- intros e st H. injection H as <- _. split; [now left | reflexivity].
        -- intros _ [H | H]; [discriminate | contradiction].
      * destruct (negb (String.eqb (lower confirm_input) "yes"));
          (split; [|split; [|split]]); try discriminate.
        -- intros st H. injection H as <-. repeat split.
        -- intros _ _. eexists; reflexivity.
        -- intros st H. injection H as <-. apply reported_report.
        -- intros _ _. eexists; reflexivity.
    + split; [|split; [|split]]; try discriminate.
      * intros st H. injection H as <-. apply reported_report.
      * intros _ _. eexists; reflexivity.
Qed.

End DriverExit.

(** C6 (counterexample): the batch run with zero delay whose confirmation
    is declined returns with zero deletions and prints neither the total nor
    the reminder. *)
Lemma C6_declined_run_prints_no_total :
  exists st,
    delete_duplicates posix_join three_pairs "/base" "/other" 0 false 5
      ["no"] three_on_disk = Returned st
    /\ total_deleted st = 0 /\ fs st = three_on_disk /\ ~ reported st.
Proof.
  eexists. split; [reflexivity|]. split; [reflexivity|].
  split; [reflexivity|].
  intros [before H]. simpl in H.
  destruct before as [|a [|b [|c [|d [|e before]]]]]; discriminate.
Qed.

(** C6 (amended): every run of either deletion routine ends in one of these
    ways.  It returns after printing the total and the reminder; or, in batch
    mode with zero delay and a confirmation other than [yes], it returns
    after the cancellation message with the disk untouched and neither total
    nor reminder; or the operator's answers run out ([EOFError]) or one of
    them is [y] or [n] followed by a digit [int] rejects ([ValueError]).  A
    batch run that gets its confirmation, or needs none, returns; an
    interactive run returns when it is given at least as many advancing
    answers as there are pairs. *)
Theorem C6_driver_exit (abspath_join : string -> string -> string)
    (dups : dict (dup_group (list FileRecord))) (sdups : dict SingleDir.info)
    (base_dir other_dir directory : string)
    (sleep_time : Q) (confirm : bool) (list_next : Z)
    (inputs : list string) (disk : filesystem) :
  exits_as_designed (List.length (files_to_delete_of dups))
    sleep_time confirm inputs disk
    (delete_duplicates abspath_join dups base_dir other_dir
       sleep_time confirm list_next inputs disk)
  /\ exits_as_designed (List.length (files_to_delete_single_dir sdups))
       sleep_time confirm inputs disk
       (delete_duplicates_single_dir abspath_join sdups directory
          sleep_time confirm list_next inputs disk).
Proof.
  split; apply drive_exits_as_designed.
Qed.

(** C6 (witness): a confirmed batch run and an answered interactive run. *)
Lemma C6_driver_exit_witness :
  (exists st,
     delete_duplicates posix_join three_pairs "/base" "/other" 0 false 5
       ["yes"] three_on_disk = Returned st /\ reported st)
  /\ (exists st,
        delete_duplicates posix_join three_pairs "/base" "/other" 1 true 5
          ["y"; "n"; "y2"] three_on_disk = Returned st /\ reported st).
Proof.
  split.
  - destruct (C6_driver_exit posix_join three_pairs [] "/base" "/other" ""
                0 false 5 ["yes"] three_on_disk)
      as [[Hret [_ [Hbatch _]]] _].
    destruct Hbatch as [st Hst]; [reflexivity | right; discriminate |].
    exists st. split; [exact Hst|]. exact (Hret st Hst).
  - destruct (C6_driver_exit posix_join three_pairs [] "/base" "/other" ""
                1 true 5 ["y"; "n"; "y2"] three_on_disk)
      as [[Hret [_ [_ Hinter]]] _].
    destruct Hinter as [st Hst];
      [reflexivity | repeat constructor | simpl; lia |].
    exists st. split; [exact Hst|]. exact (Hret st Hst).
Defined.

(* ------------------------------------------------------------------ *)
(** ** Deletion Driver: what one removal changes *)

Lemma emit_emit (a b : list event) (st : state) :
  emit b (emit a st) = emit (a ++ b) st.
Proof. unfold emit. simpl. now rewrite app_assoc. Qed.

Lemma os_path_exists_filter (disk : filesystem) (p q : string) :
  os_path_exists (filter (fun e => negb (String.eqb (fst e) q)) disk) p
  = if String.eqb p q then false else os_path_exists disk p.
Proof.
  unfold os_path_exists. induction disk as [|[x r] disk IH]; simpl.
  - now destruct (String.eqb p q).
  - destruct (String.eqb_spec x q) as [-> | Hx]; simpl.
    + rewrite IH. destruct (String.eqb_spec p q) as [-> | Hp].
      * reflexivity.
      * destruct (String.eqb_spec q p); [congruence | reflexivity].
    + rewrite IH. destruct (String.eqb_spec p q) as [-> | Hp].
      * destruct (String.eqb_spec x q); [contradiction | reflexivity].
      * reflexivity.
Qed.

(** The file system after the exists-check-then-remove block: the target
    may be gone, every other path is as before. *)
Lemma remove_if_exists_fs (q p : string) (st : state) :
  os_path_exists (fs (remove_if_exists q st)) p
  = if String.eqb p q
    then os_path_exists (fs st) p
         && negb (match os_remove (fs st) q with Some _ => true | None => false end)
    else os_path_exists (fs st) p.
Proof.
  unfold remove_if_exists.
  destruct (os_path_exists (fs st) q) eqn:Eq.
  - unfold os_remove.
    destruct (find _ (fs st)) as [[x [|]]|]; simpl.
    + rewrite os_path_exists_filter.
      destruct (String.eqb p q); [now rewrite andb_false_r | reflexivity].
    + destruct (String.eqb p q); [now rewrite andb_true_r | reflexivity].
    + destruct (String.eqb p q); [now rewrite andb_true_r | reflexivity].
  - simpl. destruct (String.eqb_spec p q) as [-> | Hp]; [|reflexivity].
    now rewrite Eq.
Qed.

Lemma remove_if_exists_other (q p : string) (st : state) :
  p <> q ->
  os_path_exists (fs (remove_if_exists q st)) p = os_path_exists (fs st) p.
Proof.
  intros Hne. rewrite remove_if_exists_fs.
  destruct (String.eqb_spec p q); [contradiction | reflexivity].
Qed.

Lemma remove_if_exists_stays_missing (q p : string) (st : state) :
  os_path_exists (fs st) p = false ->
  os_path_exists (fs (remove_if_exists q st)) p = false.
Proof.
  intros H. rewrite remove_if_exists_fs, H. now destruct (String.eqb p q).
Qed.

(** What the block prints: exactly one event, about its target. *)
Lemma remove_if_exists_console (q : string) (st : state) :
  exists ev,
    console (remove_if_exists q st) = console st ++ [ev]
    /\ (ev = EvDeleted q /\ os_path_exists (fs st) q = true
        /\ total_deleted (remove_if_exists q st) = total_deleted st + 1
        \/ ev = EvDeleteError q /\ os_path_exists (fs st) q = true
           /\ total_deleted (remove_if_exists q st) = total_deleted st
        \/ ev = EvNotFound q /\ os_path_exists (fs st) q = false
           /\ total_deleted (remove_if_exists q st) = total_deleted st).
Proof.
  unfold remove_if_exists.
  destruct (os_path_exists (fs st) q) eqn:Eq.
  - destruct (os_remove (fs st) q) as [fs'|]; simpl.
    + exists (EvDeleted q). auto.
    + exists (EvDeleteError q). auto 6.
  - exists (EvNotFound q). simpl. auto 6.
Qed.



Lemma quiet_not_removal (evs : list event) (p : string) :
  quiet evs = true -> ~ In (EvDeleted p) evs /\ ~ In (EvDeleteError p) evs.
Proof.
  unfold quiet. intros H.
  split; intros Hin; apply (proj1 (forallb_forall _ _) H) in Hin;
    discriminate.
Qed.

(* ------------------------------------------------------------------ *)
(** ** Deletion Driver: run-level facts about removals *)

Section DriverRemovals.

Variable abspath_join : string -> string -> string.
Variables base_dir other_dir : string.
Variable queue : list item.

Local Abbreviation target := (duplicate_path_of abspath_join other_dir).
Local Abbreviation run := (drive abspath_join base_dir other_dir queue).



(** When no target is on disk, the disk and the counter never change. *)
Lemma drive_all_missing (sleep_time : Q) (confirm : bool) (list_next : Z)
    (inputs : list string) (disk : filesystem) :
  (forall it, In it queue -> os_path_exists disk (target it) = false) ->
  let st := final_state (run sleep_time confirm list_next inputs disk) in
  fs st = disk /\ total_deleted st = 0.
Proof.
  intros Hall.
  apply (drive_invariant abspath_join base_dir other_dir queue
           (fun st => fs st = disk /\ total_deleted st = 0)).
  - intros evs st _ H. exact H.
  - intros it st Hin [Hfs Ht]. fold target.
    rewrite remove_if_exists_missing; [now split|].
    rewrite Hfs. now apply Hall.
  - now split.
Qed.



(** [os.remove] is only called on targets of the queue, and a path that is
    no target is on disk at the end exactly when it was at the start. *)
Lemma drive_removes_targets_only (sleep_time : Q) (confirm : bool)
    (list_next : Z) (inputs : list string) (disk : filesystem) :
  let st := final_state (run sleep_time confirm list_next inputs disk) in
  (forall p, removal_attempted st p -> exists it, In it queue /\ p = target it)
  /\ (forall q, (forall it, In it queue -> target it <> q) ->
        os_path_exists (fs st) q = os_path_exists disk q).
Proof.
  apply (drive_invariant abspath_join base_dir other_dir queue
           (fun st =>
              (forall p, removal_attempted st p ->
                 exists it, In it queue /\ p = target it)
              /\ (forall q, (forall it, In it queue -> target it <> q) ->
                    os_path_exists (fs st) q = os_path_exists disk q))).
  - intros evs st Hq [Hr Hfs]. split; [|exact Hfs].
    intros p [Hin | Hin]; simpl in Hin; apply in_app_or in Hin;
      destruct (quiet_not_removal evs p Hq) as [Hd He];
      destruct Hin as [Hin | Hin]; try contradiction;
      apply Hr; [now left | now right].
  - intros it st Hit [Hr Hfs]. split.
    + intros p Hp.
      destruct (remove_if_exists_console (target it) st) as [ev [Hc Hev]].
      unfold removal_attempted in Hp. fold target in Hp. rewrite Hc in Hp.
      assert (Hcases : removal_attempted st p \/ p = target it).
      { destruct Hp as [Hp | Hp]; apply in_app_or in Hp;
          destruct Hp as [Hp | [Hp | []]];
          try (left; unfold removal_attempted; tauto);
          destruct Hev as [[-> _] | [[-> _] | [-> _]]];
          try discriminate; injection Hp as <-; now right. }
      destruct Hcases as [H | ->]; [now apply Hr | now exists it].
    + intros q Hq. rewrite remove_if_exists_other; [now apply Hfs|].
      intros ->. now apply (Hq it Hit).
  - split.
    + intros p [[H | []] | [H | []]]; discriminate.
    + reflexivity.
Qed.

End DriverRemovals.

(* ------------------------------------------------------------------ *)
(** ** Deletion Driver: missing targets, and what is removed *)

Lemma in_files_to_delete_of (dups : dict (dup_group (list FileRecord)))
    (it : item) :
  In it (files_to_delete_of dups) <->
  exists checksum info dup,
    In (checksum, info) dups /\ In dup (duplicates info)
    /\ it = mkItem (base info) dup.
Proof.
  unfold files_to_delete_of, dict_values. rewrite in_flat_map. split.
  - intros [info [Hinfo Hit]]. apply in_map_iff in Hinfo.
    destruct Hinfo as [[checksum info'] [<- Hin]].
    apply in_map_iff in Hit. destruct Hit as [dup [<- Hdup]].
    now exists checksum, info', dup.
  - intros [checksum [info [dup [Hin [Hdup ->]]]]].
    exists info. split.
    + apply in_map_iff. now exists (checksum, info).
    + apply in_map_iff. now exists dup.
Qed.

Lemma in_files_to_delete_single_dir (dups : dict SingleDir.info) (it : item) :
  In it (files_to_delete_single_dir dups) <->
  exists checksum info dup,
    In (checksum, info) dups /\ In dup (SingleDir.duplicates info)
    /\ it = mkItem (SingleDir.original info) dup.
Proof.
  unfold files_to_delete_single_dir, dict_values. rewrite in_flat_map. split.
  - intros [info [Hinfo Hit]]. apply in_map_iff in Hinfo.
    destruct Hinfo as [[checksum info'] [<- Hin]].
    apply in_map_iff in Hit. destruct Hit as [dup [<- Hdup]].
    now exists checksum, info', dup.
  - intros [checksum [info [dup [Hin [Hdup ->]]]]].
    exists info. split.
    + apply in_map_iff. now exists (checksum, info).
    + apply in_map_iff. now exists dup.
Qed.

(** C10: in every run of either deletion routine, every path [os.remove] is
    called on is the resolved path of an entry of some group's [duplicates];
    and the canonical file of a group, when its resolved path differs from
    the resolved path of every duplicate, is on disk at the end exactly when
    it was at the start. *)
Theorem C10_only_duplicates_removed
    (abspath_join : string -> string -> string)
    (dups : dict (dup_group (list FileRecord))) (sdups : dict SingleDir.info)
    (base_dir other_dir directory : string)
    (sleep_time : Q) (confirm : bool) (list_next : Z)
    (inputs : list string) (disk : filesystem) :
  (let st := final_state (delete_duplicates abspath_join dups base_dir other_dir
                            sleep_time confirm list_next inputs disk) in
   (forall p, removal_attempted st p ->
      exists checksum info dup,
        In (checksum, info) dups /\ In dup (duplicates info)
        /\ p = abspath_join other_dir (path dup))
   /\ (forall checksum info,
         In (checksum, info) dups ->
         (forall checksum' info' dup,
            In (checksum', info') dups -> In dup (duplicates info') ->
            abspath_join other_dir (path dup)
            <> abspath_join base_dir (path (base info))) ->
         os_path_exists (fs st) (abspath_join base_dir (path (base info)))
         = os_path_exists disk (abspath_join base_dir (path (base info)))))
  /\ (let st := final_state (delete_duplicates_single_dir abspath_join sdups
                               directory sleep_time confirm list_next
                               inputs disk) in
      (forall p, removal_attempted st p ->
         exists checksum info dup,
           In (checksum, info) sdups /\ In dup (SingleDir.duplicates info)
           /\ p = abspath_join directory (path dup))
      /\ (forall checksum info,
            In (checksum, info) sdups ->
            (forall checksum' info' dup,
               In (checksum', info') sdups ->
               In dup (SingleDir.duplicates info') ->
               abspath_join directory (path dup)
               <> abspath_join directory (path (SingleDir.original info))) ->
            os_path_exists (fs st)
              (abspath_join directory (path (SingleDir.original info)))
            = os_path_exists disk
                (abspath_join directory (path (SingleDir.original info))))).
Proof.
  split; cbv zeta.
  - destruct (drive_removes_targets_only abspath_join base_dir other_dir
                (files_to_delete_of dups) sleep_time confirm list_next
                inputs disk) as [Hr Hfs].
    split.
    + intros p Hp. destruct (Hr p Hp) as [it [Hit ->]].
      apply in_files_to_delete_of in Hit.
      destruct Hit as [checksum [info [dup [Hin [Hdup ->]]]]].
      now exists checksum, info, dup.
    + intros checksum info _ Hdiff. apply Hfs.
      intros it Hit. apply in_files_to_delete_of in Hit.
      destruct Hit as [checksum' [info' [dup [Hin [Hdup ->]]]]].
      exact (Hdiff checksum' info' dup Hin Hdup).
  - destruct (drive_removes_targets_only abspath_join directory directory
                (files_to_delete_single_dir sdups) sleep_time confirm
                list_next inputs disk) as [Hr Hfs].
    split.
    + intros p Hp. destruct (Hr p Hp) as [it [Hit ->]].
      apply in_files_to_delete_single_dir in Hit.
      destruct Hit as [checksum [info [dup [Hin [Hdup ->]]]]].
      now exists checksum, info, dup.
    + intros checksum info _ Hdiff. apply Hfs.
      intros it Hit. apply in_files_to_delete_single_dir in Hit.
      destruct Hit as [checksum' [info' [dup [Hin [Hdup ->]]]]].
      exact (Hdiff checksum' info' dup Hin Hdup).
Qed.

(** C10 (witness): the canonical file of the first group after [yall]. *)
Lemma C10_only_duplicates_removed_witness :
  os_path_exists
    (fs (final_state
           (delete_duplicates posix_join five_pairs "/base" "/other" 1 true 0
              ["yall"] five_on_disk)))
    "/base/keep1" = true.
Proof.
  destruct (C10_only_duplicates_removed posix_join five_pairs [] "/base"
              "/other" "" 1 true 0 ["yall"] five_on_disk) as [[_ H] _].
  cbv zeta in H.
  refine (eq_trans
            (H "d1" (mkGroup (plain "keep1") [plain "a"; plain "b"; plain "c"])
               (or_introl eq_refl) _)
            eq_refl).
  intros checksum' info' dup Hin Hdup.
  simpl in Hin. destruct Hin as [Hin | [Hin | []]];
    injection Hin as <- <-; simpl in Hdup;
    repeat (destruct Hdup as [<- | Hdup]; [discriminate|]);
    destruct Hdup.
Defined.

(* ------------------------------------------------------------------ *)
(** ** Duplicate Resolver, two-tree mode *)

Lemma fold_left_ext {A B : Type} (f g : A -> B -> A) (l : list B) (a : A) :
  (forall x y, f x y = g x y) -> fold_left f l a = fold_left g l a.
Proof.
  intros Hfg. revert a. induction l as [|y l IH]; intros a; simpl;
    [reflexivity|].
  now rewrite Hfg, IH.
Qed.

(** Building a dictionary from entries with distinct, fresh keys, some of
    them dropped, is filtering them. *)
Lemma fold_left_dict_set_fresh {A V : Type} (f : string -> A -> option V)
    (l : list (string * A)) :
  NoDup (map fst l) ->
  forall acc : dict V,
    (forall k, In k (map fst l) -> ~ In k (map fst acc)) ->
    fold_left (fun d e => match f (fst e) (snd e) with
                          | Some x => dict_set d (fst e) x
                          | None => d
                          end) l acc
    = acc ++ flat_map (fun e => match f (fst e) (snd e) with
                                | Some x => [(fst e, x)]
                                | None => []
                                end) l.
Proof.
  induction l as [|[k a] l IH]; intros Hnd acc Hfresh; simpl.
  - now rewrite app_nil_r.
  - inversion Hnd as [|? ? Hk Hnd']; subst.
    destruct (f k a) as [x|].
    + rewrite dict_set_fresh
        by (apply dict_get_None; apply Hfresh; now left).
      rewrite IH; [now rewrite <- app_assoc | exact Hnd' |].
      intros k' Hk' Hin. rewrite map_app in Hin. apply in_app_or in Hin.
      destruct Hin as [Hin | [<- | []]].
      * apply (Hfresh k'); [now right | exact Hin].
      * contradiction.
    + apply IH; [exact Hnd'|].
      intros k' Hk'. apply Hfresh. now right.
Qed.

(** The groups [summarize_duplicates] emits: one for every digest of the
    comparison table that the canonical table has, with the canonical
    table's record and the comparison table's value. *)
Lemma summarize_duplicates_groups {V : Type} `{PyLen V}
    (base_checksums : dict FileRecord) (other_checksums : dict V) :
  NoDup (map fst other_checksums) ->
  fst (fst (summarize_duplicates base_checksums other_checksums))
  = flat_map (fun e => match dict_get base_checksums (fst e) with
                       | Some b => [(fst e, mkGroup b (snd e))]
                       | None => []
                       end) other_checksums.
Proof.
  intros Hnd. unfold summarize_duplicates. simpl.
  pose (f := fun (k : string) (v : V) =>
               option_map (fun b => mkGroup b v) (dict_get base_checksums k)).
  pose proof (fold_left_dict_set_fresh f other_checksums Hnd []
                (fun k _ (F : In k (map fst (@nil (string * dup_group V)))) => F))
    as Hfold.
  simpl in Hfold.
  etransitivity; [|etransitivity; [exact Hfold|]].
  - apply fold_left_ext. intros d [k v]. unfold f. simpl.
    now destruct (dict_get base_checksums k).
  - apply flat_map_ext. intros [k v]. unfold f. simpl.
    now destruct (dict_get base_checksums k).
Qed.

(** C4 (the code at the failing input): the [search] and [checksum]
    commands hand [display_summary] the groups built from the tables of
    [calculate_checksums], in which a group's [duplicates] is the one record
    the comparison table kept for the digest, and the file counts of the
    walk.  With one file in each tree and the same content in both, the
    summary shows 2 duplicates among 1 comparison file and -1 unique files:
    2 is [len] of the record, its number of keys.  On the trees fileA and
    fileB, fileC, fileD (fileD alone with its content) it shows 2 and 1, the
    2 again being the number of keys of the record of fileC. *)
Theorem C4_summary_counts_keys_not_files
    (is_checksum update_checksum_file skip_existing : bool) :
  (exists res,
     search_or_checksum_command is_checksum update_checksum_file
       base_tree [mkWalked "fileB" "/other/fileB" "d1"] None skip_existing
     = Ok res
     /\ sr_summary res = mkSummary 1 1 2 (-1))
  /\ (exists res,
        search_or_checksum_command is_checksum update_checksum_file
          base_tree (other_tree ++ [mkWalked "fileD" "/other/fileD" "d2"])
          None skip_existing
        = Ok res
        /\ sr_summary res = mkSummary 1 3 2 1
        /\ sr_table res = RaisedTypeError).
Proof.
  split.
  - eexists. split; [reflexivity|]. now destruct skip_existing.
  - eexists. split; [reflexivity|]. now destruct skip_existing.
Qed.

(** X9: with the counts [summarize_duplicates] returns, the number of unique
    files [display_summary] prints is the number of comparison records whose
    digest the canonical table does not have. *)
Lemma unique_files_are_the_unmatched
    (base_checksums : dict FileRecord)
    (other_checksums : dict (list FileRecord)) :
  NoDup (map fst other_checksums) ->
  let r := summarize_duplicates base_checksums other_checksums in
  total_unique_files_in_other_dir
    (display_summary (fst (fst r)) (snd (fst r)) (snd r))
  = Z.of_nat
      (sum_list (map (fun e => if dict_mem base_checksums (fst e)
                               then 0 else List.length (snd e))
                     other_checksums)).
Proof.
  intros Hnd. cbv zeta.
  unfold display_summary. simpl total_unique_files_in_other_dir.
  rewrite (summarize_duplicates_groups base_checksums other_checksums Hnd).
  unfold summarize_duplicates. simpl snd.
  clear Hnd. unfold dict_values, dict_mem, py_len, PyLen_list.
  induction other_checksums as [|[k l] other IH]; simpl; [reflexivity|].
  destruct (dict_get base_checksums k); simpl; lia.
Qed.

(** In the [search] and [checksum] commands the comparison table comes from
    [calculate_checksums], each group's [duplicates] is one info dictionary,
    and its [len] is its number of keys. *)
Lemma summary_after_calculate_counts_keys :
  exists r,
    calculate_checksums base_tree [mkWalked "fileB" "/other/fileB" "d1"]
      None false = Ok r
    /\ (let groups := fst (fst (summarize_duplicates (base_checksums r)
                                                     (other_checksums r))) in
        total_duplicates
          (display_summary groups (total_base_files r) (total_other_files r))
        = 2).
Proof. eexists. split; reflexivity. Qed.

(** C1: with one canonical file and two comparison files of the same
    content, the comparison table [calculate_checksums] builds holds one
    info dictionary under the digest, that of the file walked last, not the
    list of both files; [save_checksums] persists that one record, and the
    group the resolver emits from the persisted tables has one duplicate,
    not two. *)
Theorem C1_comparison_table_keeps_last_file_only :
  exists r,
    calculate_checksums base_tree other_tree None false = Ok r
    /\ other_checksums r = [("d1", mkFile "fileC" (Some "/other/fileC"))]
    /\ save_checksums (base_checksums r) (other_checksums r)
       = [record_line "BASE" "d1" "fileA"; record_line "OTHER" "d1" "fileC"]
    /\ (let t := load_checksums
                   (Some (save_checksums (base_checksums r) (other_checksums r))) in
        fst (fst (summarize_duplicates (ld_base t) (ld_other t)))
        = [("d1", mkGroup (plain "fileA") [plain "fileC"])]).
Proof.
  eexists. split; [reflexivity|]. repeat split.
Qed.

(* ------------------------------------------------------------------ *)
(** ** Single-directory mode: the table and its groups *)

Lemma extend_extend (o : option SingleDir.info) (r : FileRecord)
    (rs : list FileRecord) :
  extend (extend o [r]) rs = extend o (r :: rs).
Proof.
  destruct o as [i|]; destruct rs as [|r' rs]; simpl; try reflexivity.
  now rewrite <- app_assoc.
Qed.

Lemma single_step_get (skip_existing : bool) (existing : dict string)
    (acc : dict SingleDir.info * nat) (w : walked) (d : string) :
  dict_get (fst (SingleDir.digest_step skip_existing existing acc w)) d
  = if String.eqb (fst (checksum_of skip_existing existing w)) d
    then extend (dict_get (fst acc) d) [record_of w]
    else dict_get (fst acc) d.
Proof.
  unfold SingleDir.digest_step.
  destruct (checksum_of skip_existing existing w) as [c cost]. simpl.
  destruct (String.eqb_spec c d) as [-> | Hne].
  - destruct (dict_get (fst acc) d) as [i|]; simpl;
      now rewrite dict_get_set_same.
  - destruct (dict_get (fst acc) c) as [i|]; simpl;
      now rewrite dict_get_set_other.
Qed.

Lemma single_step_NoDup (skip_existing : bool) (existing : dict string)
    (acc : dict SingleDir.info * nat) (w : walked) :
  NoDup (map fst (fst acc)) ->
  NoDup (map fst (fst (SingleDir.digest_step skip_existing existing acc w))).
Proof.
  intros H. unfold SingleDir.digest_step.
  destruct (checksum_of skip_existing existing w) as [c cost]. simpl.
  destruct (dict_get (fst acc) c); now apply dict_set_NoDup.
Qed.

(** The table after a walk, digest by digest. *)
Lemma single_fold_get (skip_existing : bool) (existing : dict string)
    (files : list walked) (d : string) :
  forall acc,
    dict_get (fst (fold_left (SingleDir.digest_step skip_existing existing)
                             files acc)) d
    = extend (dict_get (fst acc) d) (sharing skip_existing existing files d).
Proof.
  unfold sharing. induction files as [|w files IH]; intros acc; simpl;
    [reflexivity|].
  rewrite IH, single_step_get.
  destruct (String.eqb (fst (checksum_of skip_existing existing w)) d); simpl;
    [apply extend_extend | reflexivity].
Qed.

Lemma single_fold_NoDup (skip_existing : bool) (existing : dict string)
    (files : list walked) :
  forall acc,
    NoDup (map fst (fst acc)) ->
    NoDup (map fst (fst (fold_left (SingleDir.digest_step skip_existing existing)
                                   files acc))).
Proof.
  induction files as [|w files IH]; intros acc H; simpl; [exact H|].
  apply IH. now apply single_step_NoDup.
Qed.

(** In a dictionary with distinct keys, the entries under a key are what
    [dict_get] finds. *)
Lemma entries_at_NoDup {V : Type} (d : dict V) (k : string) :
  NoDup (map fst d) ->
  entries_at d k = match dict_get d k with
                   | Some v => [(k, v)]
                   | None => []
                   end.
Proof.
  unfold entries_at. induction d as [|[k' v] d IH]; simpl; intros Hnd;
    [reflexivity|].
  inversion Hnd as [|? ? Hk Hnd']; subst.
  destruct (String.eqb_spec k' k) as [-> | Hne].
  - f_equal. rewrite (IH Hnd').
    destruct (dict_get d k) eqn:E; [|reflexivity].
    exfalso. apply Hk. apply dict_get_In in E.
    apply (in_map fst) in E. exact E.
  - now apply IH.
Qed.

Lemma filter_filter_comm {A : Type} (f g : A -> bool) (l : list A) :
  filter f (filter g l) = filter g (filter f l).
Proof.
  induction l as [|x l IH]; simpl; [reflexivity|].
  destruct (f x) eqn:Ef, (g x) eqn:Eg; simpl; rewrite ?Ef, ?Eg, IH;
    reflexivity.
Qed.

(** The groups of the single-directory resolver are the entries of the
    table that have duplicates. *)
Lemma summarize_single_groups (checksums : dict SingleDir.info) :
  NoDup (map fst checksums) ->
  fst (SingleDir.summarize_duplicates_single_dir checksums)
  = filter has_duplicates checksums.
Proof.
  intros Hnd. unfold SingleDir.summarize_duplicates_single_dir. simpl.
  pose (f := fun (k : string) (i : SingleDir.info) =>
               if has_duplicates (k, i) then Some i else None).
  pose proof (fold_left_dict_set_fresh f checksums Hnd []
                (fun k _ (F : In k (map fst (@nil (string * SingleDir.info)))) => F))
    as Hfold.
  simpl in Hfold.
  etransitivity; [|etransitivity; [exact Hfold|]].
  - apply fold_left_ext. intros d [k i]. unfold f, has_duplicates. simpl.
    now destruct (SingleDir.duplicates i).
  - clear Hfold Hnd. induction checksums as [|[k i] l IH]; simpl;
      [reflexivity|].
    rewrite IH. unfold f. simpl. now destruct (has_duplicates (k, i)).
Qed.

(** C9: in the table a single-directory pass builds, the entry of a digest
    has as original the first file the walk assigned the digest to and as
    duplicates all later ones, in walk order.  A digest with more than one
    file yields exactly one group, that entry; a digest with one file, or
    none, yields no group; every group has a non-empty list of
    duplicates. *)
Theorem C9_single_tree_groups (files : list walked) (f : checksum_file)
    (skip_existing : bool) (existing : dict string)
    (checksums : dict SingleDir.info) (total hashed : nat) :
  SingleDir.reuse_table f skip_existing = Ok existing ->
  SingleDir.calculate_checksums_single_dir files f skip_existing
  = Ok (checksums, total, hashed) ->
  let groups := fst (SingleDir.summarize_duplicates_single_dir checksums) in
  (forall d,
     match sharing skip_existing existing files d with
     | first :: later =>
         entries_at checksums d = [(d, SingleDir.mkInfo first later)]
         /\ entries_at groups d
            = match later with
              | _ :: _ => [(d, SingleDir.mkInfo first later)]
              | [] => []
              end
     | [] => entries_at checksums d = [] /\ entries_at groups d = []
     end)
  /\ (forall d i, In (d, i) groups -> SingleDir.duplicates i <> []).
Proof.
  intros Hex Hcalc. unfold SingleDir.calculate_checksums_single_dir in Hcalc.
  rewrite Hex in Hcalc. unfold bind in Hcalc. injection Hcalc as <- _ _.
  set (table := fst (SingleDir.digest_tree skip_existing existing files)).
  assert (Hnd : NoDup (map fst table))
    by (apply single_fold_NoDup; constructor).
  cbv zeta. rewrite (summarize_single_groups table Hnd).
  split.
  - intros d.
    assert (Hget : dict_get table d
                   = extend None (sharing skip_existing existing files d))
      by (unfold table, SingleDir.digest_tree; now rewrite single_fold_get).
    unfold entries_at at 2 4. rewrite filter_filter_comm.
    fold (entries_at table d). rewrite (entries_at_NoDup table d Hnd), Hget.
    destruct (sharing skip_existing existing files d) as [|first later];
      simpl; [now split|].
    split; [reflexivity|].
    unfold has_duplicates. simpl. now destruct later.
  - intros d i Hin. apply filter_In in Hin. destruct Hin as [_ Hdup].
    unfold has_duplicates in Hdup. simpl in Hdup.
    destruct (SingleDir.duplicates i); [discriminate | discriminate].
Qed.

(** C9 (witness): d1 maps to [p1, p2, p3] and d2 to [p4]. *)
Lemma C9_single_tree_groups_witness :
  entries_at
    (fst (SingleDir.summarize_duplicates_single_dir
            (fst (SingleDir.digest_tree false [] single_tree)))) "d1"
  = [("d1", SingleDir.mkInfo (mkFile "p1" (Some "/dir/p1"))
              [mkFile "p2" (Some "/dir/p2"); mkFile "p3" (Some "/dir/p3")])]
  /\ entries_at
       (fst (SingleDir.summarize_duplicates_single_dir
               (fst (SingleDir.digest_tree false [] single_tree)))) "d2"
     = [].
Proof.
  destruct (C9_single_tree_groups single_tree None false []
              (fst (SingleDir.digest_tree false [] single_tree)) 4 4
              eq_refl eq_refl) as [H _].
  split.
  - exact (proj2 (H "d1")).
  - exact (proj2 (H "d2")).
Defined.

(* ------------------------------------------------------------------ *)
(** ** Tree Digester and Digest Store: a second pass with reuse *)

Lemma NoDup_map_injective {A B : Type} (f : A -> B) (l : list A) (x y : A) :
  NoDup (map f l) -> In x l -> In y l -> f x = f y -> x = y.
Proof.
  induction l as [|a l IH]; simpl; intros Hnd Hx Hy Hxy; [destruct Hx|].
  inversion Hnd as [|? ? Ha Hnd']; subst.
  destruct Hx as [-> | Hx], Hy as [-> | Hy]; auto.
  - exfalso. apply Ha. rewrite Hxy. now apply in_map.
  - exfalso. apply Ha. rewrite <- Hxy. now apply in_map.
Qed.

Lemma checksum_of_fresh (skip_existing : bool) (w : walked) :
  checksum_of skip_existing [] w = (w_hash w, 1).
Proof. unfold checksum_of. now destruct skip_existing. Qed.

(** Two passes that assign the same digests build the same table. *)
Lemma digest_fold_same_table (skip skip' : bool) (ex ex' : dict string)
    (files : list walked) :
  (forall w, In w files ->
     fst (checksum_of skip ex w) = fst (checksum_of skip' ex' w)) ->
  forall acc acc',
    fst acc = fst acc' ->
    fst (fold_left (digest_step skip ex) files acc)
    = fst (fold_left (digest_step skip' ex') files acc').
Proof.
  induction files as [|w files IH]; intros Hsame acc acc' Hacc; simpl;
    [exact Hacc|].
  apply IH; [intros x Hx; apply Hsame; now right|].
  unfold digest_step. specialize (Hsame w (or_introl eq_refl)).
  destruct (checksum_of skip ex w), (checksum_of skip' ex' w). simpl in *.
  now rewrite Hacc, Hsame.
Qed.

(** A pass in which every digest is reused computes no hash. *)
Lemma digest_fold_no_hash (skip : bool) (ex : dict string)
    (files : list walked) :
  (forall w, In w files -> snd (checksum_of skip ex w) = 0) ->
  forall acc, snd (fold_left (digest_step skip ex) files acc) = snd acc.
Proof.
  induction files as [|w files IH]; intros Hzero acc; simpl; [reflexivity|].
  rewrite IH by (intros x Hx; apply Hzero; now right).
  unfold digest_step. specialize (Hzero w (or_introl eq_refl)).
  destruct (checksum_of skip ex w). simpl in *. lia.
Qed.

(** A pass without reuse hashes every file. *)
Lemma digest_fold_all_hashed (skip : bool) (files : list walked) :
  forall acc,
    snd (fold_left (digest_step skip []) files acc)
    = snd acc + List.length files.
Proof.
  induction files as [|w files IH]; intros acc; simpl; [lia|].
  rewrite IH. unfold digest_step. rewrite checksum_of_fresh. simpl. lia.
Qed.

(** Every entry of a table built without reuse is the digest and the record
    of a walked file. *)
Lemma digest_fold_entries (skip : bool) (files : list walked) (c : string)
    (r : FileRecord) :
  forall acc,
    In (c, r) (fst (fold_left (digest_step skip []) files acc)) ->
    In (c, r) (fst acc)
    \/ exists w, In w files /\ c = w_hash w /\ r = record_of w.
Proof.
  induction files as [|w files IH]; intros acc Hin; simpl in Hin; [now left|].
  apply IH in Hin. destruct Hin as [Hin | [w' [Hw' Heq]]].
  - unfold digest_step in Hin. rewrite checksum_of_fresh in Hin. simpl in Hin.
    apply dict_set_In in Hin. destruct Hin as [[-> ->] | Hin]; [|now left].
    right. exists w. simpl. auto.
  - right. exists w'. simpl. auto.
Qed.

Lemma digest_fold_get_other (skip : bool) (files : list walked) (d : string) :
  ~ In d (map w_hash files) ->
  forall acc,
    dict_get (fst (fold_left (digest_step skip []) files acc)) d
    = dict_get (fst acc) d.
Proof.
  induction files as [|w files IH]; intros Hd acc; simpl; [reflexivity|].
  simpl in Hd. rewrite IH by tauto.
  unfold digest_step. rewrite checksum_of_fresh. simpl.
  apply dict_get_set_other. tauto.
Qed.

(** When the digests of a tree are distinct, every file keeps its entry. *)
Lemma digest_fold_keeps (skip : bool) (files : list walked) (w : walked) :
  NoDup (map w_hash files) ->
  In w files ->
  forall acc,
    In (w_hash w, record_of w)
       (fst (fold_left (digest_step skip []) files acc)).
Proof.
  induction files as [|x files IH]; intros Hnd Hin acc; [destruct Hin|].
  simpl in Hnd. inversion Hnd as [|? ? Hx Hnd']; subst.
  destruct Hin as [-> | Hin]; simpl; [|now apply IH].
  apply dict_get_In. rewrite digest_fold_get_other by exact Hx.
  unfold digest_step. rewrite checksum_of_fresh. simpl.
  apply dict_get_set_same.
Qed.

(** Loading the records [save_checksums] wrote for a table fills the reuse
    dictionary of that role. *)
Lemma load_saved_records (category : string) (table : dict FileRecord) :
  category = "BASE" \/ category = "OTHER" ->
  (forall c info, In (c, info) table ->
     no_tab c = true /\ no_tab (path info) = true
     /\ ends_clean (path info) = true) ->
  forall ex rest,
    load_existing_lines ex
      (map (fun e => record_line category (fst e) (path (snd e))) table ++ rest)
    = load_existing_lines
        (if String.eqb category "BASE"
         then mkExisting (paths_to_digests table (ex_base ex)) (ex_other ex)
         else mkExisting (ex_base ex) (paths_to_digests table (ex_other ex)))
        rest.
Proof.
  intros Hcat.
  induction table as [|[c info] table IH]; intros Hclean ex rest.
  - simpl. destruct Hcat as [-> | ->]; simpl; now destruct ex.
  - destruct (Hclean c info (or_introl eq_refl)) as [Hc [Hp He]].
    assert (IH' := fun ex => IH (fun c' info' Hin =>
                                   Hclean c' info' (or_intror Hin)) ex rest).
    clear IH. simpl. unfold load_existing_line.
    rewrite (parse_record_line category c (path info) Hcat Hc Hp He).
    destruct Hcat as [-> | ->]; simpl; rewrite IH'; reflexivity.
Qed.

Lemma save_checksums_lines (b o : dict FileRecord) :
  save_checksums b o
  = map (fun e => record_line "BASE" (fst e) (path (snd e))) b
    ++ map (fun e => record_line "OTHER" (fst e) (path (snd e))) o.
Proof.
  unfold save_checksums. f_equal; apply map_ext; now intros [c info].
Qed.

Lemma load_saved_checksums (b o : dict FileRecord) :
  (forall c info, In (c, info) b \/ In (c, info) o ->
     no_tab c = true /\ no_tab (path info) = true
     /\ ends_clean (path info) = true) ->
  load_existing_checksums (save_checksums b o)
  = Ok (mkExisting (paths_to_digests b []) (paths_to_digests o [])).
Proof.
  intros Hclean. unfold load_existing_checksums.
  rewrite save_checksums_lines.
  rewrite (load_saved_records "BASE" b (or_introl eq_refl))
    by (intros c info Hin; apply Hclean; now left).
  simpl String.eqb. cbv iota. simpl ex_base. simpl ex_other.
  rewrite <- (app_nil_r (map _ o)).
  rewrite (load_saved_records "OTHER" o (or_intror eq_refl))
    by (intros c info Hin; apply Hclean; now right).
  reflexivity.
Qed.

(** A digest found in the reuse dictionary was there before or comes from
    an entry of the table. *)
Lemma paths_to_digests_get (table : dict FileRecord) (p c : string) :
  forall existing,
    dict_get (paths_to_digests table existing) p = Some c ->
    dict_get existing p = Some c
    \/ exists info, In (c, info) table /\ path info = p.
Proof.
  unfold paths_to_digests.
  induction table as [|[c' info'] table IH]; intros existing H; simpl in H;
    [now left|].
  apply IH in H. destruct H as [H | [info [Hin Hp]]].
  - destruct (String.eqb_spec (path info') p) as [Heq | Hne].
    + rewrite <- Heq, dict_get_set_same in H. injection H as ->.
      right. exists info'. split; [now left | exact Heq].
    + rewrite dict_get_set_other in H by exact Hne. now left.
  - right. exists info. split; [now right | exact Hp].
Qed.

Lemma paths_to_digests_mem (table : dict FileRecord) (p : string) :
  forall existing,
    dict_mem existing p = true ->
    dict_mem (paths_to_digests table existing) p = true.
Proof.
  unfold paths_to_digests, dict_mem.
  induction table as [|[c info] table IH]; intros existing H; simpl;
    [exact H|].
  apply IH. simpl.
  destruct (String.eqb_spec (path info) p) as [<- | Hne].
  - now rewrite dict_get_set_same.
  - now rewrite dict_get_set_other.
Qed.

(** The path of every entry of the table is in the reuse dictionary. *)
Lemma paths_to_digests_has (table : dict FileRecord) (c : string)
    (info : FileRecord) :
  In (c, info) table ->
  forall existing,
    dict_mem (paths_to_digests table existing) (path info) = true.
Proof.
  induction table as [|[c' info'] table IH]; intros Hin existing;
    [destruct Hin|].
  destruct Hin as [Heq | Hin].
  - injection Heq as -> ->. apply (paths_to_digests_mem table). simpl.
    unfold dict_mem. now rewrite dict_get_set_same.
  - apply (IH Hin).
Qed.

(** On the second pass every file gets the digest of the first pass. *)
Lemma second_pass_digest (skip : bool) (files : list walked) (w : walked) :
  NoDup (map w_rel files) ->
  In w files ->
  fst (checksum_of true
         (paths_to_digests (fst (digest_tree skip [] files)) []) w)
  = w_hash w.
Proof.
  intros Hnd Hw. unfold checksum_of.
  destruct (dict_get _ (w_rel w)) as [c|] eqn:E; [|reflexivity]. simpl.
  apply paths_to_digests_get in E.
  destruct E as [E | [info [Hin Hp]]]; [discriminate|].
  apply digest_fold_entries in Hin.
  destruct Hin as [[] | [w' [Hw' [-> ->]]]].
  simpl in Hp. f_equal.
  now apply (NoDup_map_injective w_rel files).
Qed.

(** When the digests of the tree are distinct, the second pass reuses the
    digest of every file. *)
Lemma second_pass_reuses (skip : bool) (files : list walked) (w : walked) :
  NoDup (map w_hash files) ->
  In w files ->
  snd (checksum_of true
         (paths_to_digests (fst (digest_tree skip [] files)) []) w)
  = 0.
Proof.
  intros Hnd Hw. unfold checksum_of.
  pose proof (paths_to_digests_has _ _ _
                (digest_fold_keeps skip files w Hnd Hw ([], 0)) []) as Hmem.
  unfold dict_mem in Hmem. simpl in Hmem. fold (digest_tree skip [] files) in Hmem.
  now destruct (dict_get _ (w_rel w)).
Qed.

(** The entries of a table built from persistable files are clean. *)
Lemma digest_tree_clean (skip : bool) (files : list walked) (c : string)
    (info : FileRecord) :
  Forall (fun w => persistable w = true) files ->
  In (c, info) (fst (digest_tree skip [] files)) ->
  no_tab c = true /\ no_tab (path info) = true
  /\ ends_clean (path info) = true.
Proof.
  intros Hall Hin. apply digest_fold_entries in Hin.
  destruct Hin as [[] | [w [Hw [-> ->]]]].
  pose proof (proj1 (Forall_forall _ _) Hall w Hw) as Hp.
  unfold persistable in Hp.
  repeat (apply andb_prop in Hp; destruct Hp as [Hp ?]).
  simpl. auto.
Qed.

(** A pass whose digests are those of the contents builds the table of a
    pass without reuse. *)
Lemma up_to_date_same_table (skip : bool) (ex : dict string)
    (files : list walked) :
  up_to_date skip ex files = true ->
  fst (digest_tree skip ex files) = fst (digest_tree true [] files).
Proof.
  intros Hup. unfold up_to_date in Hup. rewrite forallb_forall in Hup.
  unfold digest_tree. apply digest_fold_same_table; [|reflexivity].
  intros w Hw. rewrite checksum_of_fresh. simpl.
  now apply String.eqb_eq, Hup.
Qed.

(** C7 (counterexample): with two files of the same content in the
    canonical tree, the first pass persists one record and the second pass
    hashes the other file again; with a tab in a file name, the second pass
    fails on the record the first pass wrote; and when the first pass takes
    the digest of an edited file from an older checksum file, under which it
    is shadowed by a later file, the second pass hashes the edited file and
    builds another table. *)
Lemma C7_second_pass_hashes_shadowed_file :
  (exists first second,
     calculate_checksums twin_tree [] None true = Ok first
     /\ calculate_checksums twin_tree []
          (Some (save_checksums (base_checksums first) (other_checksums first)))
          true = Ok second
     /\ base_checksums second = base_checksums first
     /\ hash_calls second = 1)
  /\ (exists first,
        calculate_checksums tabbed_tree [] None true = Ok first
        /\ calculate_checksums tabbed_tree []
             (Some (save_checksums (base_checksums first) (other_checksums first)))
             true = Raise ValueError)
  /\ (exists first second,
        calculate_checksums edited_tree [] (Some stale_file) true = Ok first
        /\ calculate_checksums edited_tree []
             (Some (save_checksums (base_checksums first)
                                   (other_checksums first)))
             true = Ok second
        /\ base_checksums first = [("d1", mkFile "b" (Some "/base/b"))]
        /\ base_checksums second
           = [("d0", mkFile "a" (Some "/base/a"));
              ("d1", mkFile "b" (Some "/base/b"))]
        /\ hash_calls second = 1).
Proof.
  split; [|split].
  - eexists. eexists. split; [reflexivity|]. split; [reflexivity|].
    split; reflexivity.
  - eexists. split; reflexivity.
  - eexists. eexists. split; [reflexivity|]. split; [reflexivity|].
    split; [reflexivity|]. split; reflexivity.
Qed.

(** C7 (amended): for trees whose files are listed once each and whose
    relative paths and digests hold no tab and no line break, the paths not
    ending in white space.  The first pass runs with any setting of reuse
    and any checksum file, provided the digests it assigns are those of the
    contents: it found no checksum file, or one that lists every walked file
    it knows with the hash of its content.  The second pass, with reuse on
    and the file the first one saved, builds the same two tables and counts
    the same files; and when no two files of the same tree have the same
    digest it computes no hash.  A first pass that found no checksum file
    hashes every file. *)
Theorem C7_second_pass_with_reuse (base_files other_files : list walked)
    (f : checksum_file) (skip_existing : bool) (ex : existing_tables) :
  NoDup (map w_rel base_files) ->
  NoDup (map w_rel other_files) ->
  Forall (fun w => persistable w = true) base_files ->
  Forall (fun w => persistable w = true) other_files ->
  reuse_tables f skip_existing = Ok ex ->
  up_to_date skip_existing (ex_base ex) base_files = true ->
  up_to_date skip_existing (ex_other ex) other_files = true ->
  exists first second,
    calculate_checksums base_files other_files f skip_existing = Ok first
    /\ (f = None ->
        hash_calls first = List.length base_files + List.length other_files)
    /\ calculate_checksums base_files other_files
         (Some (save_checksums (base_checksums first) (other_checksums first)))
         true = Ok second
    /\ base_checksums second = base_checksums first
    /\ other_checksums second = other_checksums first
    /\ total_base_files second = total_base_files first
    /\ total_other_files second = total_other_files first
    /\ (NoDup (map w_hash base_files) -> NoDup (map w_hash other_files) ->
        hash_calls second = 0).
Proof.
  intros Hb Ho Hpb Hpo Hex Hub Huo.
  pose proof (up_to_date_same_table _ _ _ Hub) as HB.
  pose proof (up_to_date_same_table _ _ _ Huo) as HO.
  set (B := fst (digest_tree true [] base_files)) in *.
  set (O := fst (digest_tree true [] other_files)) in *.
  assert (Hload : load_existing_checksums (save_checksums B O)
                  = Ok (mkExisting (paths_to_digests B [])
                                   (paths_to_digests O []))).
  { apply load_saved_checksums. intros c info [Hin | Hin].
    - exact (digest_tree_clean true base_files c info Hpb Hin).
    - exact (digest_tree_clean true other_files c info Hpo Hin). }
  exists (mkRun B O (List.length base_files) (List.length other_files)
            (snd (digest_tree skip_existing (ex_base ex) base_files)
             + snd (digest_tree skip_existing (ex_other ex) other_files))).
  eexists.
  split.
  { unfold calculate_checksums. rewrite Hex. unfold bind.
    now rewrite HB, HO. }
  split.
  { intros ->. simpl in Hex. injection Hex as <-. simpl.
    unfold digest_tree. rewrite !digest_fold_all_hashed. simpl. lia. }
  cbv beta iota delta [base_checksums other_checksums total_base_files
                       total_other_files hash_calls].
  split.
  { unfold calculate_checksums, reuse_tables. rewrite Hload. reflexivity. }
  split.
  { unfold B, digest_tree. apply digest_fold_same_table; [|reflexivity].
    intros w Hw. rewrite checksum_of_fresh.
    exact (second_pass_digest true base_files w Hb Hw). }
  split.
  { unfold O, digest_tree. apply digest_fold_same_table; [|reflexivity].
    intros w Hw. rewrite checksum_of_fresh.
    exact (second_pass_digest true other_files w Ho Hw). }
  split; [reflexivity|]. split; [reflexivity|].
  intros Hhb Hho. unfold digest_tree.
  rewrite !digest_fold_no_hash; [reflexivity | |].
  - intros w Hw. exact (second_pass_reuses true other_files w Hho Hw).
  - intros w Hw. exact (second_pass_reuses true base_files w Hhb Hw).
Qed.

(** C7 (witness): a canonical tree of one file and a comparison tree of
    four, digested first with reuse on and a checksum file that lists the
    canonical file with the hash of its content. *)
Lemma C7_second_pass_with_reuse_witness :
  exists first second,
    calculate_checksums base_tree single_tree
      (Some [record_line "BASE" "d1" "fileA"]) true = Ok first
    /\ calculate_checksums base_tree single_tree
         (Some (save_checksums (base_checksums first) (other_checksums first)))
         true = Ok second
    /\ base_checksums second = base_checksums first
    /\ other_checksums second = other_checksums first.
Proof.
  destruct (C7_second_pass_with_reuse base_tree single_tree
              (Some [record_line "BASE" "d1" "fileA"]) true
              (mkExisting [("fileA", "d1")] []))
    as [first [second [H1 [_ [H2 [H3 [H4 _]]]]]]].
  - repeat constructor; simpl; intuition discriminate.
  - repeat constructor; simpl; intuition discriminate.
  - repeat constructor.
  - repeat constructor.
  - reflexivity.
  - reflexivity.
  - reflexivity.
  - exists first, second. auto.
Defined.

(* ------------------------------------------------------------------ *)
(** ** Digest Store: what a saved file reads back as *)

Lemma record_safe_spec (e : string * FileRecord) :
  record_safe e = true ->
  no_tab (fst e) = true /\ no_tab (path (snd e)) = true
  /\ ends_clean (path (snd e)) = true.
Proof.
  unfold record_safe. intros H.
  repeat (apply andb_prop in H; destruct H as [H ?]). auto.
Qed.

Lemma paths_to_digests_distinct (table : dict FileRecord) (c : string)
    (info : FileRecord) :
  NoDup (map (fun e => path (snd e)) table) ->
  In (c, info) table ->
  dict_get (paths_to_digests table []) (path info) = Some c.
Proof.
  intros Hnd Hin.
  pose proof (paths_to_digests_has table c info Hin []) as Hmem.
  unfold dict_mem in Hmem.
  destruct (dict_get (paths_to_digests table []) (path info)) as [c'|] eqn:E;
    [|discriminate].
  apply paths_to_digests_get in E.
  destruct E as [E | [info' [Hin' Hp]]]; [discriminate|].
  pose proof (NoDup_map_injective (fun e => path (snd e)) table
                (c', info') (c, info) Hnd Hin' Hin Hp) as Heq.
  now injection Heq as -> _.
Qed.

(** X1: the records [save_checksums] writes read back, through
    [load_existing_checksums], as two dictionaries from relative path to
    digest that hold exactly the paths of the saved tables, each with the
    digest it was saved under. *)
Theorem saved_tables_reload_for_reuse (b o : dict FileRecord) :
  Forall (fun e => record_safe e = true) b ->
  Forall (fun e => record_safe e = true) o ->
  NoDup (map (fun e => path (snd e)) b) ->
  NoDup (map (fun e => path (snd e)) o) ->
  exists ex,
    load_existing_checksums (save_checksums b o) = Ok ex
    /\ (forall p c, dict_get (ex_base ex) p = Some c <->
                    exists info, In (c, info) b /\ path info = p)
    /\ (forall p c, dict_get (ex_other ex) p = Some c <->
                    exists info, In (c, info) o /\ path info = p).
Proof.
  intros Hb Ho Hnb Hno.
  exists (mkExisting (paths_to_digests b []) (paths_to_digests o [])).
  split.
  { apply load_saved_checksums. intros c info [Hin | Hin];
      [apply (proj1 (Forall_forall _ _) Hb) in Hin
      |apply (proj1 (Forall_forall _ _) Ho) in Hin];
      exact (record_safe_spec _ Hin). }
  simpl. split; intros p c; split.
  - intros H. apply paths_to_digests_get in H.
    destruct H as [H | H]; [discriminate | exact H].
  - intros [info [Hin <-]]. now apply paths_to_digests_distinct.
  - intros H. apply paths_to_digests_get in H.
    destruct H as [H | H]; [discriminate | exact H].
  - intros [info [Hin <-]]. now apply paths_to_digests_distinct.
Qed.

(** X1 (witness): one canonical and one comparison record. *)
Lemma saved_tables_reload_for_reuse_witness :
  exists ex,
    load_existing_checksums
      (save_checksums [("d1", plain "fileA")] [("d2", plain "fileB")]) = Ok ex
    /\ dict_get (ex_base ex) "fileA" = Some "d1"
    /\ dict_get (ex_other ex) "fileB" = Some "d2".
Proof.
  destruct (saved_tables_reload_for_reuse
              [("d1", plain "fileA")] [("d2", plain "fileB")])
    as [ex [Hload [Hbase Hother]]].
  - repeat constructor.
  - repeat constructor.
  - repeat constructor. intros [].
  - repeat constructor. intros [].
  - exists ex. split; [exact Hload|]. split.
    + apply Hbase. exists (plain "fileA"). split; [now left | reflexivity].
    + apply Hother. exists (plain "fileB"). split; [now left | reflexivity].
Defined.

Lemma load_checksums_saved_base (b : dict FileRecord) :
  Forall (fun e => record_safe e = true) b ->
  NoDup (map fst b) ->
  forall accb acco rest,
    (forall k, In k (map fst b) -> ~ In k (map fst accb)) ->
    load_checksums_lines accb acco
      (map (fun e => record_line "BASE" (fst e) (path (snd e))) b ++ rest)
    = load_checksums_lines (accb ++ reloaded_base b) acco rest.
Proof.
  induction b as [|[c info] b IH]; intros Hsafe Hnd accb acco rest Hfresh.
  - simpl. now rewrite app_nil_r.
  - inversion Hsafe as [|? ? He Hsafe']; subst.
    inversion Hnd as [|? ? Hc Hnd']; subst.
    destruct (record_safe_spec _ He) as [H1 [H2 H3]]. simpl in H1, H2, H3.
    simpl. rewrite (parse_record_line "BASE" c (path info)
                      (or_introl eq_refl) H1 H2 H3).
    simpl. rewrite dict_set_fresh
      by (apply dict_get_None; apply Hfresh; now left).
    rewrite IH; [now rewrite <- app_assoc | exact Hsafe' | exact Hnd' |].
    intros k Hk Hin. rewrite map_app in Hin. apply in_app_or in Hin.
    destruct Hin as [Hin | [<- | []]].
    + apply (Hfresh k); [now right | exact Hin].
    + contradiction.
Qed.

Lemma load_checksums_saved_other (o : dict FileRecord) :
  Forall (fun e => record_safe e = true) o ->
  NoDup (map fst o) ->
  forall accb acco rest,
    (forall k, In k (map fst o) -> ~ In k (map fst acco)) ->
    load_checksums_lines accb acco
      (map (fun e => record_line "OTHER" (fst e) (path (snd e))) o ++ rest)
    = load_checksums_lines accb (acco ++ reloaded_other o) rest.
Proof.
  induction o as [|[c info] o IH]; intros Hsafe Hnd accb acco rest Hfresh.
  - simpl. now rewrite app_nil_r.
  - inversion Hsafe as [|? ? He Hsafe']; subst.
    inversion Hnd as [|? ? Hc Hnd']; subst.
    destruct (record_safe_spec _ He) as [H1 [H2 H3]]. simpl in H1, H2, H3.
    assert (Hnone : dict_get acco c = None)
      by (apply dict_get_None; apply Hfresh; now left).
    simpl. rewrite (parse_record_line "OTHER" c (path info)
                      (or_intror eq_refl) H1 H2 H3).
    simpl. unfold dict_append. rewrite Hnone.
    rewrite dict_set_fresh by exact Hnone.
    rewrite IH; [now rewrite <- app_assoc | exact Hsafe' | exact Hnd' |].
    intros k Hk Hin. rewrite map_app in Hin. apply in_app_or in Hin.
    destruct Hin as [Hin | [<- | []]].
    + apply (Hfresh k); [now right | exact Hin].
    + contradiction.
Qed.

Lemma load_checksums_of_saved (b o : dict FileRecord) :
  Forall (fun e => record_safe e = true) b ->
  Forall (fun e => record_safe e = true) o ->
  NoDup (map fst b) ->
  NoDup (map fst o) ->
  load_checksums (Some (save_checksums b o))
  = mkLoaded (reloaded_base b) (reloaded_other o) None.
Proof.
  intros Hb Ho Hnb Hno. unfold load_checksums.
  rewrite save_checksums_lines.
  rewrite (load_checksums_saved_base b Hb Hnb [] [] _ (fun k _ F => F)).
  rewrite <- (app_nil_r (map _ o)).
  rewrite (load_checksums_saved_other o Ho Hno _ [] [] (fun k _ F => F)).
  reflexivity.
Qed.

(** X2: the file [save_checksums] writes reads back, through
    [load_checksums], without an error, as the canonical table with the
    same digests and paths in the same order (the absolute paths are
    dropped) and as a comparison table in which every digest has a list
    of exactly one file. *)
Theorem saved_tables_reload_for_delete (b o : dict FileRecord) :
  Forall (fun e => record_safe e = true) b ->
  Forall (fun e => record_safe e = true) o ->
  NoDup (map fst b) ->
  NoDup (map fst o) ->
  load_checksums (Some (save_checksums b o))
  = mkLoaded (reloaded_base b) (reloaded_other o) None.
Proof. exact (load_checksums_of_saved b o). Qed.

(** X2 (witness): the tables of a pass over one canonical and two
    comparison files. *)
Lemma saved_tables_reload_for_delete_witness :
  load_checksums
    (Some (save_checksums [("d1", mkFile "fileA" (Some "/base/fileA"))]
                          [("d1", mkFile "fileC" (Some "/other/fileC"))]))
  = mkLoaded [("d1", plain "fileA")] [("d1", [plain "fileC"])] None.
Proof.
  apply (saved_tables_reload_for_delete
           [("d1", mkFile "fileA" (Some "/base/fileA"))]
           [("d1", mkFile "fileC" (Some "/other/fileC"))]).
  - repeat constructor.
  - repeat constructor.
  - repeat constructor. intros [].
  - repeat constructor. intros [].
Defined.

(* ------------------------------------------------------------------ *)
(** ** Digest Store: when the loaders fail *)



Lemma load_existing_line_outcome (ex : existing_tables) (line : string) :
  match load_existing_line ex line with
  | Ok _ => known_record line = true
  | Raise ValueError => well_formed line = false
  | Raise KeyError => well_formed line = true /\ known_record line = false
  | Raise _ => False
  end.
Proof.
  unfold load_existing_line, known_record, well_formed.
  destruct (unpack3 (split tab (strip line)))
    as [[[category checksum] p] | e] eqn:E; simpl.
  - destruct (String.eqb category "BASE"); [reflexivity|].
    destruct (String.eqb category "OTHER"); [reflexivity | now split].
  - now rewrite (unpack3_raises _ _ E).
Qed.

(** X4: [load_existing_checksums] returns tables exactly when every line
    splits into three fields the first of which is [BASE] or [OTHER].
    Otherwise it raises at the first line that does not: [ValueError] when
    the line does not split into three fields, [KeyError] when it does and
    its first field is neither [BASE] nor [OTHER]. *)
Theorem load_existing_checksums_errors (lines : list string) :
  match load_existing_checksums lines with
  | Ok _ => Forall (fun l => known_record l = true) lines
  | Raise e =>
      exists pre bad post,
        lines = pre ++ bad :: post
        /\ Forall (fun l => known_record l = true) pre
        /\ known_record bad = false
        /\ e = (if well_formed bad then KeyError else ValueError)
  end.
Proof.
  unfold load_existing_checksums. generalize (mkExisting [] []).
  induction lines as [|line lines IH]; intros ex; simpl; [constructor|].
  pose proof (load_existing_line_outcome ex line) as Hline.
  destruct (load_existing_line ex line) as [ex' | e]; simpl.
  - specialize (IH ex').
    destruct (load_existing_lines ex' lines) as [ex'' | e].
    + now constructor.
    + destruct IH as [pre [bad [post [-> [Hpre [Hbad He]]]]]].
      exists (line :: pre), bad, post. repeat split; auto.
  - exists [], line, lines. simpl.
    destruct e; try contradiction.
    + rewrite Hline. repeat split; auto.
      unfold known_record. unfold well_formed in Hline.
      now destruct (unpack3 (split tab (strip line))).
    + destruct Hline as [-> Hk]. repeat split; auto.
Qed.

(* ------------------------------------------------------------------ *)
(** ** Tree Digester: the tables of a pass *)

Lemma find_snoc {A : Type} (p : A -> bool) (l : list A) (x : A) :
  find p (l ++ [x])
  = match find p l with
    | Some y => Some y
    | None => if p x then Some x else None
    end.
Proof.
  induction l as [|y l IH]; simpl; [reflexivity|].
  now destruct (p y).
Qed.

Lemma digest_step_get (skip : bool) (ex : dict string)
    (acc : dict FileRecord * nat) (w : walked) (d : string) :
  dict_get (fst (digest_step skip ex acc w)) d
  = if String.eqb (fst (checksum_of skip ex w)) d
    then Some (record_of w) else dict_get (fst acc) d.
Proof.
  unfold digest_step. destruct (checksum_of skip ex w) as [c cost]. simpl.
  destruct (String.eqb_spec c d) as [-> | Hne].
  - apply dict_get_set_same.
  - now apply dict_get_set_other.
Qed.

Lemma digest_fold_get_last (skip : bool) (ex : dict string)
    (files : list walked) (d : string) :
  forall acc,
    dict_get (fst (fold_left (digest_step skip ex) files acc)) d
    = match last_assigned skip ex files d with
      | Some w => Some (record_of w)
      | None => dict_get (fst acc) d
      end.
Proof.
  unfold last_assigned.
  induction files as [|w files IH]; intros acc; simpl; [reflexivity|].
  rewrite IH, find_snoc, digest_step_get.
  destruct (find _ (rev files)); [reflexivity|].
  now destruct (String.eqb (fst (checksum_of skip ex w)) d).
Qed.

Lemma digest_fold_NoDup (skip : bool) (ex : dict string)
    (files : list walked) :
  forall acc,
    NoDup (map fst (fst acc)) ->
    NoDup (map fst (fst (fold_left (digest_step skip ex) files acc))).
Proof.
  induction files as [|w files IH]; intros acc H; simpl; [exact H|].
  apply IH. unfold digest_step.
  destruct (checksum_of skip ex w). simpl. now apply dict_set_NoDup.
Qed.

(** X5: in both tables [calculate_checksums] returns, every digest is a
    key once, and its value is the record of the last file of the walk the
    pass assigned that digest to (the stored digest when reuse applies, the
    hash of the content otherwise); a digest assigned to no file is no
    key. *)
Theorem digest_tables_keep_last_file (base_files other_files : list walked)
    (f : checksum_file) (skip_existing : bool) (ex : existing_tables)
    (r : digest_run) :
  reuse_tables f skip_existing = Ok ex ->
  calculate_checksums base_files other_files f skip_existing = Ok r ->
  NoDup (map fst (base_checksums r))
  /\ NoDup (map fst (other_checksums r))
  /\ (forall d,
        dict_get (base_checksums r) d
        = option_map record_of
            (last_assigned skip_existing (ex_base ex) base_files d))
  /\ (forall d,
        dict_get (other_checksums r) d
        = option_map record_of
            (last_assigned skip_existing (ex_other ex) other_files d)).
Proof.
  intros Hex Hr. unfold calculate_checksums in Hr. rewrite Hex in Hr.
  unfold bind in Hr. injection Hr as <-. simpl. unfold digest_tree.
  split; [apply digest_fold_NoDup; constructor|].
  split; [apply digest_fold_NoDup; constructor|].
  split; intros d; rewrite digest_fold_get_last;
    now destruct (last_assigned _ _ _ d).
Qed.

(** X5 (witness): of two comparison files with the same content the table
    keeps the second. *)
Lemma digest_tables_keep_last_file_witness :
  exists r,
    calculate_checksums base_tree other_tree None false = Ok r
    /\ dict_get (other_checksums r) "d1"
       = Some (mkFile "fileC" (Some "/other/fileC")).
Proof.
  eexists. split; [reflexivity|].
  destruct (digest_tables_keep_last_file base_tree other_tree None false
              (mkExisting [] []) _ eq_refl eq_refl) as [_ [_ [_ H]]].
  rewrite H. reflexivity.
Defined.




(* ------------------------------------------------------------------ *)
(** ** Duplicate Resolver, two-tree mode: which digests are flagged *)

Lemma summarize_duplicates_get {V : Type} `{PyLen V}
    (base_checksums : dict FileRecord) (other_checksums : dict V) :
  NoDup (map fst other_checksums) ->
  forall d,
    dict_get (fst (fst (summarize_duplicates base_checksums other_checksums))) d
    = match dict_get base_checksums d, dict_get other_checksums d with
      | Some b, Some v => Some (mkGroup b v)
      | _, _ => None
      end.
Proof.
  intros Hnd d. rewrite (summarize_duplicates_groups _ _ Hnd). clear Hnd.
  induction other_checksums as [|[k v] other IH]; simpl.
  - now destruct (dict_get base_checksums d).
  - destruct (String.eqb_spec k d) as [-> | Hne].
    + destruct (dict_get base_checksums d) as [b|] eqn:Eb; simpl.
      * now rewrite String.eqb_refl.
      * rewrite IH, ?Eb. reflexivity.
    + destruct (dict_get base_checksums k) as [b|]; simpl.
      * destruct (String.eqb_spec k d); [contradiction | exact IH].
      * exact IH.
Qed.

Lemma summarize_duplicates_keys {V : Type} `{PyLen V}
    (base_checksums : dict FileRecord) (other_checksums : dict V) :
  NoDup (map fst other_checksums) ->
  map fst (fst (fst (summarize_duplicates base_checksums other_checksums)))
  = filter (dict_mem base_checksums) (map fst other_checksums).
Proof.
  intros Hnd. rewrite (summarize_duplicates_groups _ _ Hnd). clear Hnd.
  unfold dict_mem.
  induction other_checksums as [|[k v] other IH]; simpl; [reflexivity|].
  destruct (dict_get base_checksums k); simpl; now rewrite IH.
Qed.

(** X7: [summarize_duplicates] emits a group for a digest exactly when both
    tables have it; the group holds the canonical table's record and the
    comparison table's value for that digest, and the groups come in the
    order of the comparison table.  A digest only one table has yields no
    group. *)
Theorem resolver_flags_shared_digests {V : Type} `{PyLen V}
    (base_checksums : dict FileRecord) (other_checksums : dict V) :
  NoDup (map fst other_checksums) ->
  let groups :=
    fst (fst (summarize_duplicates base_checksums other_checksums)) in
  (forall d,
     dict_get groups d
     = match dict_get base_checksums d, dict_get other_checksums d with
       | Some b, Some v => Some (mkGroup b v)
       | _, _ => None
       end)
  /\ map fst groups
     = filter (dict_mem base_checksums) (map fst other_checksums).
Proof.
  intros Hnd. split.
  - now apply summarize_duplicates_get.
  - now apply summarize_duplicates_keys.
Qed.

(** X7 (witness): Canonical = {d1: fileA}, Comparison = {d1: [fileB,
    fileC], d2: [fileD]}. *)
Lemma resolver_flags_shared_digests_witness :
  dict_get (fst (fst (summarize_duplicates canonical_table comparison_table)))
           "d2" = None
  /\ map fst (fst (fst (summarize_duplicates canonical_table comparison_table)))
     = ["d1"].
Proof.
  destruct (resolver_flags_shared_digests canonical_table comparison_table)
    as [Hget Hkeys].
  - repeat constructor; simpl; intuition discriminate.
  - split; [rewrite Hget | rewrite Hkeys]; reflexivity.
Defined.

(** X8: resolving A against B and B against A flags the same digests. *)
Theorem resolver_is_symmetric_on_digests (a b : dict FileRecord) :
  NoDup (map fst a) ->
  NoDup (map fst b) ->
  forall d,
    dict_mem (fst (fst (summarize_duplicates a b))) d
    = dict_mem (fst (fst (summarize_duplicates b a))) d.
Proof.
  intros Ha Hb d. unfold dict_mem.
  rewrite (summarize_duplicates_get a b Hb), (summarize_duplicates_get b a Ha).
  destruct (dict_get a d), (dict_get b d); reflexivity.
Qed.

(** X8 (witness): two one-file tables with the same digest. *)
Lemma resolver_is_symmetric_on_digests_witness :
  dict_mem (fst (fst (summarize_duplicates [("d1", plain "fileA")]
                                           [("d1", plain "fileB")]))) "d1"
  = dict_mem (fst (fst (summarize_duplicates [("d1", plain "fileB")]
                                             [("d1", plain "fileA")]))) "d1".
Proof.
  apply (resolver_is_symmetric_on_digests
           [("d1", plain "fileA")] [("d1", plain "fileB")]);
    repeat constructor; intros [].
Defined.

(** X9 (witness): of the three comparison files of the example table one
    has a digest the canonical table lacks. *)
Lemma unique_files_are_the_unmatched_witness :
  total_unique_files_in_other_dir
    (let r := summarize_duplicates canonical_table comparison_table in
     display_summary (fst (fst r)) (snd (fst r)) (snd r)) = 1%Z.
Proof.
  etransitivity.
  - apply (unique_files_are_the_unmatched canonical_table comparison_table).
    repeat constructor; simpl; intuition discriminate.
  - reflexivity.
Defined.

Lemma digest_fold_values (skip : bool) (ex : dict string)
    (files : list walked) (c : string) (r : FileRecord) :
  forall acc,
    In (c, r) (fst (fold_left (digest_step skip ex) files acc)) ->
    In (c, r) (fst acc) \/ exists w, In w files /\ r = record_of w.
Proof.
  induction files as [|w files IH]; intros acc Hin; simpl in Hin; [now left|].
  apply IH in Hin. destruct Hin as [Hin | [w' [Hw' Heq]]].
  - unfold digest_step in Hin. destruct (checksum_of skip ex w). simpl in Hin.
    apply dict_set_In in Hin. destruct Hin as [[-> ->] | Hin]; [|now left].
    right. exists w. simpl. auto.
  - right. exists w'. simpl. auto.
Qed.

(** X10: on the tables of [calculate_checksums], as the [search] and
    [checksum] commands pass them on, each group's [duplicates] is one info
    dictionary with its two keys, so the number of duplicates
    [display_summary] prints is twice the number of shared digests,
    whatever the number of files that share them. *)
Theorem summary_after_a_pass_counts_keys (base_files other_files : list walked)
    (f : checksum_file) (skip_existing : bool) (r : digest_run) :
  calculate_checksums base_files other_files f skip_existing = Ok r ->
  let groups :=
    fst (fst (summarize_duplicates (base_checksums r) (other_checksums r))) in
  total_duplicates
    (display_summary groups (total_base_files r) (total_other_files r))
  = 2 * List.length groups.
Proof.
  intros Hr. unfold calculate_checksums in Hr.
  destruct (reuse_tables f skip_existing) as [ex|]; [|discriminate].
  unfold bind in Hr. injection Hr as <-. simpl base_checksums.
  simpl other_checksums. cbv zeta.
  set (o := fst (digest_tree skip_existing (ex_other ex) other_files)).
  assert (Hnd : NoDup (map fst o))
    by (apply digest_fold_NoDup; constructor).
  assert (Hval : forall c v, In (c, v) o -> py_len v = 2).
  { intros c v Hin. apply digest_fold_values in Hin.
    destruct Hin as [[] | [w [_ ->]]]. reflexivity. }
  rewrite (summarize_duplicates_groups _ o Hnd).
  unfold display_summary. simpl total_duplicates. unfold dict_values.
  clear Hnd. induction o as [|[c v] o IH]; [reflexivity|].
  simpl. assert (IH' := IH (fun c' v' Hin => Hval c' v' (or_intror Hin))).
  destruct (dict_get _ c); simpl.
  - rewrite (Hval c v (or_introl eq_refl)).
    simpl in IH'. rewrite IH'. lia.
  - exact IH'.
Qed.

(** X10 (witness): one comparison file shares its digest with the canonical
    file, and the summary counts two duplicates. *)
Lemma summary_after_a_pass_counts_keys_witness :
  exists r,
    calculate_checksums base_tree [mkWalked "fileB" "/other/fileB" "d1"]
      None false = Ok r
    /\ total_duplicates
         (display_summary
            (fst (fst (summarize_duplicates (base_checksums r)
                                            (other_checksums r))))
            (total_base_files r) (total_other_files r)) = 2.
Proof.
  eexists. split; [reflexivity|].
  etransitivity.
  - apply (summary_after_a_pass_counts_keys base_tree
             [mkWalked "fileB" "/other/fileB" "d1"] None false).
    reflexivity.
  - reflexivity.
Defined.

(* ------------------------------------------------------------------ *)
(** ** Single-directory mode: the counts *)

Lemma sum_values_dict_set {V : Type} (g : V -> nat) (d : dict V)
    (k : string) (v : V) :
  sum_list (map g (dict_values (dict_set d k v)))
  + match dict_get d k with Some v0 => g v0 | None => 0 end
  = sum_list (map g (dict_values d)) + g v.
Proof.
  unfold dict_values. induction d as [|[k' v'] d IH]; simpl; [lia|].
  destruct (String.eqb k' k); simpl; lia.
Qed.

Lemma length_dict_set {V : Type} (d : dict V) (k : string) (v : V) :
  List.length (dict_set d k v)
  = List.length d + (if dict_mem d k then 0 else 1).
Proof.
  unfold dict_mem. induction d as [|[k' v'] d IH]; simpl; [reflexivity|].
  destruct (String.eqb k' k); simpl; [lia|].
  rewrite IH. destruct (dict_get d k); lia.
Qed.

(** Every walked file is in the table once, as an original or as a
    duplicate. *)
Lemma single_fold_counts (skip : bool) (ex : dict string)
    (files : list walked) :
  forall acc,
    sum_list (map (fun i => 1 + List.length (SingleDir.duplicates i))
                  (dict_values
                     (fst (fold_left (SingleDir.digest_step skip ex) files acc))))
    = sum_list (map (fun i => 1 + List.length (SingleDir.duplicates i))
                    (dict_values (fst acc)))
      + List.length files.
Proof.
  induction files as [|w files IH]; intros acc; simpl; [lia|].
  rewrite IH. unfold SingleDir.digest_step.
  destruct (checksum_of skip ex w) as [c cost]. simpl.
  destruct (dict_get (fst acc) c) as [i|] eqn:E.
  - pose proof (sum_values_dict_set
                  (fun i => 1 + List.length (SingleDir.duplicates i))
                  (fst acc) c
                  (SingleDir.mkInfo (SingleDir.original i)
                     (SingleDir.duplicates i ++ [record_of w]))) as H.
    rewrite E in H. simpl in H. rewrite length_app in H. simpl in H. lia.
  - pose proof (sum_values_dict_set
                  (fun i => 1 + List.length (SingleDir.duplicates i))
                  (fst acc) c (SingleDir.mkInfo (record_of w) [])) as H.
    rewrite E in H. simpl in H. lia.
Qed.

Lemma sum_one_plus {A : Type} (g : A -> nat) (l : list A) :
  sum_list (map (fun x => 1 + g x) l) = List.length l + sum_list (map g l).
Proof.
  induction l as [|x l IH]; [reflexivity|].
  change (sum_list (map (fun x => 1 + g x) (x :: l)))
    with (1 + g x + sum_list (map (fun x => 1 + g x) l)).
  rewrite IH. simpl. lia.
Qed.

Lemma sum_duplicates_filter (checksums : dict SingleDir.info) :
  sum_list (map (fun i => List.length (SingleDir.duplicates i))
                (dict_values (filter has_duplicates checksums)))
  = sum_list (map (fun i => List.length (SingleDir.duplicates i))
                  (dict_values checksums)).
Proof.
  unfold dict_values, has_duplicates.
  induction checksums as [|[k i] l IH]; simpl; [reflexivity|].
  destruct (SingleDir.duplicates i) eqn:E; simpl; rewrite IH, ?E; reflexivity.
Qed.

Lemma length_files_to_delete_single_dir (dups : dict SingleDir.info) :
  List.length (files_to_delete_single_dir dups)
  = sum_list (map (fun i => List.length (SingleDir.duplicates i))
                  (dict_values dups)).
Proof.
  unfold files_to_delete_single_dir.
  induction (dict_values dups) as [|i l IH]; simpl; [reflexivity|].
  now rewrite length_app, length_map, IH.
Qed.

(** X11: after a single-directory pass, the file count the pass returns
    and the one [summarize_duplicates_single_dir] recomputes from the table
    are both the number of walked files; the deletion queue holds every file
    but one per digest; and [display_summary_single_dir] prints the length of
    the queue as the number of duplicates and the number of distinct digests
    as the number of unique files. *)
Theorem single_dir_counts (files : list walked) (f : checksum_file)
    (skip_existing : bool) (checksums : dict SingleDir.info)
    (total hashed : nat) :
  SingleDir.calculate_checksums_single_dir files f skip_existing
  = Ok (checksums, total, hashed) ->
  let groups := fst (SingleDir.summarize_duplicates_single_dir checksums) in
  let s := display_summary_single_dir groups total in
  total = List.length files
  /\ snd (SingleDir.summarize_duplicates_single_dir checksums)
     = List.length files
  /\ List.length (files_to_delete_single_dir groups) + List.length checksums
     = List.length files
  /\ shown_total_duplicates s = List.length (files_to_delete_single_dir groups)
  /\ shown_total_unique_files s = Z.of_nat (List.length checksums).
Proof.
  intros Hcalc. unfold SingleDir.calculate_checksums_single_dir in Hcalc.
  destruct (SingleDir.reuse_table f skip_existing) as [ex|]; [|discriminate].
  unfold bind in Hcalc. injection Hcalc as <- <- _.
  set (table := fst (SingleDir.digest_tree skip_existing ex files)).
  assert (Hnd : NoDup (map fst table))
    by (apply single_fold_NoDup; constructor).
  assert (Hsum : sum_list (map (fun i => 1 + List.length (SingleDir.duplicates i))
                               (dict_values table)) = List.length files)
    by (unfold table, SingleDir.digest_tree; now rewrite single_fold_counts).
  cbv zeta. rewrite (summarize_single_groups table Hnd).
  rewrite length_files_to_delete_single_dir, sum_duplicates_filter.
  unfold display_summary_single_dir. simpl.
  rewrite sum_duplicates_filter.
  rewrite sum_one_plus in Hsum. unfold dict_values in *.
  rewrite length_map in Hsum.
  repeat split; try lia.
  rewrite sum_one_plus, length_map. lia.
Qed.

(** X11 (witness): four files, two digests, a queue of two. *)
Lemma single_dir_counts_witness :
  List.length
    (files_to_delete_single_dir
       (fst (SingleDir.summarize_duplicates_single_dir
               (fst (SingleDir.digest_tree false [] single_tree)))))
  + 2 = 4.
Proof.
  destruct (single_dir_counts single_tree None false
              (fst (SingleDir.digest_tree false [] single_tree)) 4 4 eq_refl)
    as [_ [_ [H _]]].
  exact H.
Defined.

(* ------------------------------------------------------------------ *)
(** ** Single-directory mode: a second pass with reuse *)

Lemma parse_single_line (checksum p : string) :
  starts_clean checksum = true -> no_tab checksum = true ->
  no_tab p = true -> ends_clean p = true ->
  unpack2 (split tab (strip (checksum ++ String tab p))) = Ok (checksum, p).
Proof.
  intros Hs Hc Hp Hclean.
  apply ends_clean_spec in Hclean. destruct Hclean as [Hne Hr].
  assert (Hstrip : strip (checksum ++ String tab p)
                   = (checksum ++ String tab p)%string).
  { unfold strip. destruct checksum as [|x checksum]; [discriminate|].
    simpl in Hs. apply negb_true_iff in Hs. simpl lstrip. rewrite Hs.
    assert (Hsplit : String x (checksum ++ String tab p)
                     = ((String x checksum ++ String tab "") ++ p)%string)
      by (rewrite append_assoc; reflexivity).
    rewrite Hsplit at 1. rewrite rstrip_append by assumption.
    now rewrite <- Hsplit. }
  rewrite Hstrip. unfold no_tab in *.
  rewrite (split_append tab checksum _ Hc).
  now rewrite (split_no_sep tab p Hp).
Qed.

Lemma load_saved_pairs (pairs : list (string * string)) :
  (forall c p, In (c, p) pairs ->
     starts_clean c = true /\ no_tab c = true
     /\ no_tab p = true /\ ends_clean p = true) ->
  forall existing,
    SingleDir.load_existing_lines existing
      (map (fun e => (fst e ++ String tab (snd e))%string) pairs)
    = Ok (pairs_to_dict pairs existing).
Proof.
  unfold pairs_to_dict.
  induction pairs as [|[c p] pairs IH]; intros Hclean existing;
    [reflexivity|].
  destruct (Hclean c p (or_introl eq_refl)) as [H1 [H2 [H3 H4]]].
  simpl. rewrite (parse_single_line c p H1 H2 H3 H4). simpl.
  apply IH. intros c' p' Hin. apply Hclean. now right.
Qed.

Lemma save_single_lines (checksums : dict SingleDir.info) :
  SingleDir.save_checksums_single_dir checksums
  = map (fun e => (fst e ++ String tab (snd e))%string) (saved_pairs checksums).
Proof.
  unfold SingleDir.save_checksums_single_dir, saved_pairs.
  induction checksums as [|[c i] l IH]; simpl; [reflexivity|].
  rewrite map_app, map_map, IH. reflexivity.
Qed.

Lemma pairs_to_dict_get (pairs : list (string * string)) (p c : string) :
  forall existing,
    dict_get (pairs_to_dict pairs existing) p = Some c ->
    dict_get existing p = Some c \/ In (c, p) pairs.
Proof.
  unfold pairs_to_dict.
  induction pairs as [|[c' p'] pairs IH]; intros existing H; simpl in H;
    [now left|].
  apply IH in H. destruct H as [H | H]; [|right; now right].
  destruct (String.eqb_spec p' p) as [-> | Hne].
  - rewrite dict_get_set_same in H. injection H as ->. right. now left.
  - rewrite dict_get_set_other in H by exact Hne. now left.
Qed.

Lemma pairs_to_dict_mem (pairs : list (string * string)) (p : string) :
  forall existing,
    dict_mem existing p = true \/ In p (map snd pairs) ->
    dict_mem (pairs_to_dict pairs existing) p = true.
Proof.
  unfold pairs_to_dict, dict_mem.
  induction pairs as [|[c' p'] pairs IH]; intros existing H; simpl.
  - destruct H as [H | []]. exact H.
  - apply IH. simpl in H.
    destruct (String.eqb_spec p' p) as [-> | Hne].
    + left. now rewrite dict_get_set_same.
    + rewrite dict_get_set_other by exact Hne.
      destruct H as [H | [H | H]]; [now left | contradiction | now right].
Qed.

Lemma saved_pairs_app (a b : dict SingleDir.info) :
  saved_pairs (a ++ b) = saved_pairs a ++ saved_pairs b.
Proof. unfold saved_pairs. apply flat_map_app. Qed.

Lemma saved_pairs_append (d : dict SingleDir.info) (k : string)
    (i : SingleDir.info) (r : FileRecord) (x : string * string) :
  dict_get d k = Some i ->
  In x (saved_pairs
          (dict_set d k (SingleDir.mkInfo (SingleDir.original i)
                           (SingleDir.duplicates i ++ [r]))))
  <-> In x (saved_pairs d) \/ x = (k, path r).
Proof.
  induction d as [|[k' i'] d IH]; simpl; [discriminate|].
  destruct (String.eqb_spec k' k) as [-> | Hne]; intros Hget.
  - injection Hget as ->. unfold saved_pairs. simpl.
    rewrite map_app, !in_app_iff. simpl. intuition congruence.
  - specialize (IH Hget). unfold saved_pairs in *. simpl.
    rewrite !in_app_iff. simpl. rewrite IH. tauto.
Qed.

(** The records of a table built without reuse are the digest and path of
    every walked file. *)
Lemma single_fold_pairs (skip : bool) (files : list walked)
    (x : string * string) :
  forall acc,
    In x (saved_pairs (fst (fold_left (SingleDir.digest_step skip []) files acc)))
    <-> In x (saved_pairs (fst acc))
        \/ exists w, In w files /\ x = (w_hash w, w_rel w).
Proof.
  induction files as [|w files IH]; intros acc; simpl.
  - split; [now left | intros [H | [w [[] _]]]; exact H].
  - rewrite IH. unfold SingleDir.digest_step. rewrite checksum_of_fresh. simpl.
    destruct (dict_get (fst acc) (w_hash w)) as [i|] eqn:E.
    + rewrite (saved_pairs_append _ _ _ (record_of w) x E). simpl.
      split.
      * intros [[H | ->] | [w' [Hw' ->]]]; eauto.
      * intros [H | [w' [[<- | Hw'] ->]]]; eauto.
    + rewrite dict_set_fresh by exact E. rewrite saved_pairs_app.
      rewrite in_app_iff. unfold saved_pairs at 2. simpl.
      split.
      * intros [[H | [<- | []]] | [w' [Hw' ->]]]; eauto.
      * intros [H | [w' [[<- | Hw'] ->]]]; eauto.
Qed.

Lemma single_fold_same_table (skip skip' : bool) (ex ex' : dict string)
    (files : list walked) :
  (forall w, In w files ->
     fst (checksum_of skip ex w) = fst (checksum_of skip' ex' w)) ->
  forall acc acc',
    fst acc = fst acc' ->
    fst (fold_left (SingleDir.digest_step skip ex) files acc)
    = fst (fold_left (SingleDir.digest_step skip' ex') files acc').
Proof.
  induction files as [|w files IH]; intros Hsame acc acc' Hacc; simpl;
    [exact Hacc|].
  apply IH; [intros x Hx; apply Hsame; now right|].
  unfold SingleDir.digest_step. specialize (Hsame w (or_introl eq_refl)).
  destruct (checksum_of skip ex w), (checksum_of skip' ex' w). simpl in *.
  now rewrite Hacc, Hsame.
Qed.

Lemma single_fold_cost (skip : bool) (ex : dict string) (files : list walked)
    (cost : nat) :
  (forall w, In w files -> snd (checksum_of skip ex w) = cost) ->
  forall acc,
    snd (fold_left (SingleDir.digest_step skip ex) files acc)
    = snd acc + cost * List.length files.
Proof.
  induction files as [|w files IH]; intros Hcost acc; simpl; [lia|].
  rewrite IH by (intros x Hx; apply Hcost; now right).
  unfold SingleDir.digest_step. specialize (Hcost w (or_introl eq_refl)).
  destruct (checksum_of skip ex w). simpl in *. lia.
Qed.

Lemma persistable_single_spec (w : walked) :
  persistable_single w = true ->
  starts_clean (w_hash w) = true /\ no_tab (w_hash w) = true
  /\ no_tab (w_rel w) = true /\ ends_clean (w_rel w) = true.
Proof.
  unfold persistable_single, persistable. intros H.
  repeat (apply andb_prop in H; destruct H as [H ?]). auto.
Qed.

(** On the second single-directory pass every file finds its own digest in
    the reuse dictionary. *)
Lemma single_second_pass_digest (files : list walked) (w : walked) :
  NoDup (map w_rel files) ->
  In w files ->
  checksum_of true
    (pairs_to_dict
       (saved_pairs (fst (SingleDir.digest_tree true [] files))) []) w
  = (w_hash w, 0).
Proof.
  intros Hnd Hw. unfold checksum_of, SingleDir.digest_tree.
  set (pairs := saved_pairs _).
  assert (Hin : In (w_hash w, w_rel w) pairs)
    by (apply single_fold_pairs; right; now exists w).
  pose proof (pairs_to_dict_mem pairs (w_rel w) []
                (or_intror (in_map snd _ _ Hin))) as Hmem.
  unfold dict_mem in Hmem.
  destruct (dict_get (pairs_to_dict pairs []) (w_rel w)) as [c|] eqn:E;
    [|discriminate].
  apply pairs_to_dict_get in E. destruct E as [E | E]; [discriminate|].
  apply single_fold_pairs in E. destruct E as [[] | [w' [Hw' Heq]]].
  injection Heq as -> Hrel.
  now rewrite (NoDup_map_injective w_rel files w w' Hnd Hw Hw' Hrel).
Qed.

(** X12: in single-directory mode the checksum file holds a record for
    every walked file, duplicates included.  A second pass with reuse over
    the same tree, after the first pass saved its table, builds the same
    table and computes no hash, for every tree, with or without files of
    equal content. *)
Theorem single_dir_second_pass_hashes_nothing (files : list walked) :
  NoDup (map w_rel files) ->
  Forall (fun w => persistable_single w = true) files ->
  exists table,
    SingleDir.calculate_checksums_single_dir files None true
    = Ok (table, List.length files, List.length files)
    /\ SingleDir.calculate_checksums_single_dir files
         (Some (SingleDir.save_checksums_single_dir table)) true
       = Ok (table, List.length files, 0).
Proof.
  intros Hnd Hsafe.
  exists (fst (SingleDir.digest_tree true [] files)).
  split.
  - unfold SingleDir.calculate_checksums_single_dir. simpl. f_equal. f_equal.
    unfold SingleDir.digest_tree.
    rewrite (single_fold_cost true [] files 1); [simpl; lia|].
    intros w _. now rewrite checksum_of_fresh.
  - unfold SingleDir.calculate_checksums_single_dir, SingleDir.reuse_table,
      SingleDir.load_existing_checksums_single_dir.
    rewrite save_single_lines, load_saved_pairs.
    + simpl. f_equal. f_equal; [f_equal|].
      * unfold SingleDir.digest_tree at 1 3.
        apply single_fold_same_table; [|reflexivity].
        intros w Hw. rewrite (single_second_pass_digest files w Hnd Hw).
        now rewrite checksum_of_fresh.
      * unfold SingleDir.digest_tree at 1.
        rewrite (single_fold_cost true _ files 0); [simpl; lia|].
        intros w Hw. now rewrite (single_second_pass_digest files w Hnd Hw).
    + intros c p Hin. unfold SingleDir.digest_tree in Hin.
      apply single_fold_pairs in Hin. destruct Hin as [[] | [w [Hw Heq]]].
      injection Heq as -> ->.
      apply persistable_single_spec.
      exact (proj1 (Forall_forall _ _) Hsafe w Hw).
Qed.

(** X12 (witness): a tree of four files, three of them with the same
    content. *)
Lemma single_dir_second_pass_hashes_nothing_witness :
  exists table,
    SingleDir.calculate_checksums_single_dir single_tree
      (Some (SingleDir.save_checksums_single_dir table)) true
    = Ok (table, 4, 0).
Proof.
  destruct (single_dir_second_pass_hashes_nothing single_tree)
    as [table [_ H]].
  - repeat constructor; simpl; intuition discriminate.
  - repeat constructor.
  - exists table. exact H.
Defined.

(* ------------------------------------------------------------------ *)
(** ** Single-directory mode: what the deletion leaves on disk *)

(** Filtering a list keeps the images of its elements distinct. *)
Lemma filter_keeps_distinct_images {V K : Type} (key : V -> K)
    (keep : V -> bool) :
  forall entries : list V,
    NoDup (map key entries) -> NoDup (map key (filter keep entries)).
Proof.
  intros entries Hnd.
  induction entries as [|e rest IH]; [constructor|].
  simpl in Hnd. apply NoDup_cons_iff in Hnd. destruct Hnd as [Hfresh Hrest].
  simpl. destruct (keep e); [|now apply IH].
  simpl. constructor; [|now apply IH].
  rewrite in_map_iff. intros [e' [Hkey Hin]].
  apply filter_In in Hin. apply Hfresh.
  rewrite in_map_iff. exists e'. tauto.
Qed.

Lemma sharing_In (skip : bool) (ex : dict string) (files : list walked)
    (d : string) (r : FileRecord) :
  In r (sharing skip ex files d) ->
  exists w, In w files /\ r = record_of w
            /\ fst (checksum_of skip ex w) = d.
Proof.
  unfold sharing. intros H. apply in_map_iff in H.
  destruct H as [w [<- Hw]]. apply filter_In in Hw. destruct Hw as [Hw Hd].
  exists w. repeat split; [exact Hw | now apply String.eqb_eq].
Qed.

Lemma sharing_paths_NoDup (skip : bool) (ex : dict string)
    (files : list walked) (d : string) :
  NoDup (map w_rel files) -> NoDup (map path (sharing skip ex files d)).
Proof.
  intros H. unfold sharing. rewrite map_map. simpl.
  now apply filter_keeps_distinct_images.
Qed.

Lemma single_table_entry (skip : bool) (ex : dict string)
    (files : list walked) (d : string) (i : SingleDir.info) :
  In (d, i) (fst (SingleDir.digest_tree skip ex files)) ->
  sharing skip ex files d
  = SingleDir.original i :: SingleDir.duplicates i.
Proof.
  intros Hin.
  assert (Hnd : NoDup (map fst (fst (SingleDir.digest_tree skip ex files))))
    by (apply single_fold_NoDup; constructor).
  apply (dict_get_NoDup_In _ _ _ Hnd) in Hin.
  unfold SingleDir.digest_tree in Hin. rewrite single_fold_get in Hin.
  simpl in Hin. destruct (sharing skip ex files d) as [|r rs]; simpl in Hin;
    [discriminate|].
  injection Hin as <-. reflexivity.
Qed.

(** X13: single-directory deduplication never removes the first file the
    walk met with a given content.  When the walked paths are distinct and
    resolve to distinct absolute paths, then after any run of
    [delete_duplicates_single_dir] on the groups of a pass, in either mode
    and whatever the operator answers, the first file of every digest is on
    disk exactly when it was before the run. *)
Theorem dedup_keeps_the_first_file_of_every_digest
    (abspath_join : string -> string -> string) (directory : string)
    (files : list walked) (f : checksum_file) (skip_existing : bool)
    (ex : dict string) (checksums : dict SingleDir.info) (total hashed : nat)
    (sleep_time : Q) (confirm : bool) (list_next : Z)
    (inputs : list string) (disk : filesystem) :
  NoDup (map w_rel files) ->
  (forall w w', In w files -> In w' files ->
     abspath_join directory (w_rel w) = abspath_join directory (w_rel w') ->
     w_rel w = w_rel w') ->
  SingleDir.reuse_table f skip_existing = Ok ex ->
  SingleDir.calculate_checksums_single_dir files f skip_existing
  = Ok (checksums, total, hashed) ->
  let groups := fst (SingleDir.summarize_duplicates_single_dir checksums) in
  let st := final_state
              (delete_duplicates_single_dir abspath_join groups directory
                 sleep_time confirm list_next inputs disk) in
  forall d first later,
    sharing skip_existing ex files d = first :: later ->
    os_path_exists (fs st) (abspath_join directory (path first))
    = os_path_exists disk (abspath_join directory (path first)).
Proof.
  intros Hnd Hinj Hex Hcalc groups st d first later Hshare.
  unfold SingleDir.calculate_checksums_single_dir in Hcalc.
  rewrite Hex in Hcalc. unfold bind in Hcalc. injection Hcalc as <- _ _.
  set (table := fst (SingleDir.digest_tree skip_existing ex files)) in *.
  assert (Hkeys : NoDup (map fst table))
    by (apply single_fold_NoDup; constructor).
  destruct (drive_removes_targets_only abspath_join directory directory
              (files_to_delete_single_dir groups) sleep_time confirm
              list_next inputs disk) as [_ Hfs].
  apply Hfs. clear Hfs. intros it Hit Heq.
  apply in_files_to_delete_single_dir in Hit.
  destruct Hit as [d' [i [dup [Hin [Hdup ->]]]]].
  unfold groups in Hin. rewrite (summarize_single_groups table Hkeys) in Hin.
  apply filter_In in Hin. destruct Hin as [Hin _].
  pose proof (single_table_entry _ _ _ _ _ Hin) as Hentry.
  unfold duplicate_path_of in Heq. simpl in Heq.
  assert (Hdup' : In dup (sharing skip_existing ex files d'))
    by (rewrite Hentry; now right).
  assert (Hfirst : In first (sharing skip_existing ex files d))
    by (rewrite Hshare; now left).
  apply sharing_In in Hdup'. destruct Hdup' as [wd [Hwd [-> Hd']]].
  apply sharing_In in Hfirst. destruct Hfirst as [wf [Hwf [-> Hd]]].
  simpl in Heq.
  pose proof (Hinj wd wf Hwd Hwf Heq) as Hrel.
  pose proof (NoDup_map_injective w_rel files wd wf Hnd Hwd Hwf Hrel) as Hsame.
  subst wf.
  assert (Hdd : d' = d) by (rewrite <- Hd', <- Hd; reflexivity).
  clear Hd Hd'. subst d'.
  rewrite Hshare in Hentry. injection Hentry as Ho Hl.
  pose proof (sharing_paths_NoDup skip_existing ex files d Hnd) as Hpaths.
  rewrite Hshare in Hpaths. simpl in Hpaths.
  apply NoDup_cons_iff in Hpaths. destruct Hpaths as [Hnot _].
  apply Hnot. rewrite Hl. apply in_map_iff. exists (record_of wd).
  split; [reflexivity | exact Hdup].
Qed.

(** X13 (witness): [p1] survives [yall] and a batch run over the tree in
    which [p1], [p2], [p3] have the same content. *)
Lemma dedup_keeps_the_first_file_of_every_digest_witness :
  os_path_exists
    (fs (final_state
           (delete_duplicates_single_dir posix_join
              (fst (SingleDir.summarize_duplicates_single_dir
                      (fst (SingleDir.digest_tree false [] single_tree))))
              "/dir" 1 false 5 []
              [("/dir/p1", true); ("/dir/p2", true); ("/dir/p3", true);
               ("/dir/p4", true)])))
    "/dir/p1" = true.
Proof.
  refine (eq_trans
            (dedup_keeps_the_first_file_of_every_digest posix_join "/dir"
               single_tree None false [] _ 4 4 1 false 5 [] _ _ _
               eq_refl eq_refl "d1" (mkFile "p1" (Some "/dir/p1"))
               [mkFile "p2" (Some "/dir/p2"); mkFile "p3" (Some "/dir/p3")]
               eq_refl)
            eq_refl).
  - repeat constructor; simpl; intuition discriminate.
  - intros w w' Hw Hw' H. unfold posix_join in H. simpl in H.
    now injection H.
Defined.

(* ------------------------------------------------------------------ *)
(** ** Deletion Driver: the skip commands *)

Lemma emit_nil (st : state) : emit [] st = st.
Proof. destruct st. unfold emit. simpl. now rewrite app_nil_r. Qed.

Lemma skipn_nth_error {A : Type} (l : list A) (i : nat) (x : A) :
  nth_error l i = Some x -> skipn i l = x :: skipn (S i) l.
Proof.
  revert i. induction l as [|y l IH]; intros [|i] H; simpl in *;
    try discriminate.
  - now injection H as ->.
  - now apply IH.
Qed.

Section SkipCommands.

Variable abspath_join : string -> string -> string.
Variables base_dir other_dir : string.
Variable files_to_delete : list item.

(** The [n<number>] loop skips the items from the cursor on, as many as
    asked for or as are left, and prints one message for each. *)
Lemma skip_many_spec (n : nat) :
  forall idx st,
    skip_many abspath_join other_dir files_to_delete n idx st
    = (idx + Nat.min n (List.length files_to_delete - idx),
       emit (map (fun it => EvSkipping (duplicate_path_of abspath_join other_dir it))
                 (firstn n (skipn idx files_to_delete))) st).
Proof.
  induction n as [|n IH]; intros idx st; simpl.
  - now rewrite emit_nil, Nat.add_0_r.
  - destruct (Nat.leb_spec (List.length files_to_delete) idx) as [Hge | Hlt].
    + rewrite skipn_all2 by exact Hge. simpl. rewrite emit_nil.
      replace (List.length files_to_delete - idx) with 0 by lia.
      now rewrite Nat.add_0_r.
    + rewrite IH, emit_emit.
      destruct (nth_error files_to_delete idx) as [it|] eqn:E;
        [|apply nth_error_None in E; lia].
      rewrite (skipn_nth_error _ _ _ E). simpl.
      unfold duplicate_path_at. rewrite E.
      replace (idx + 1) with (S idx) by lia.
      f_equal.
      replace (List.length files_to_delete - idx)
        with (S (List.length files_to_delete - S idx)) by lia.
      lia.
Qed.

(** X14: the answer [n<number>] at cursor [idx] removes nothing, prints a
    skip message for each of the next [number] items starting with the one
    at the cursor (for all that are left when fewer are), and moves the
    cursor past them; [n0] moves nothing and prints nothing. *)
Theorem n_number_skips_from_the_cursor (idx : nat) (st : state)
    (answer digits : string) (n : nat) :
  lower (strip answer) = String "n" digits ->
  isdigit digits = true ->
  int digits = Ok n ->
  turn abspath_join other_dir files_to_delete idx st answer
  = Next (idx + Nat.min n (List.length files_to_delete - idx))
         (mkState (fs st) (total_deleted st)
            (console st
             ++ map (fun it => EvSkipping
                                 (duplicate_path_of abspath_join other_dir it))
                    (firstn n (skipn idx files_to_delete)))).
Proof.
  intros Hu Hd Hn. unfold turn. rewrite Hu. cbv zeta.
  assert (Hne : digits <> "") by (intros ->; discriminate).
  destruct (String.eqb_spec (String "n" digits) "y"); [discriminate|].
  destruct (String.eqb_spec (String "n" digits) "n") as [H | _];
    [injection H as H; contradiction|].
  simpl startswith. simpl tail. simpl andb. rewrite Hd, Hn. simpl andb.
  cbv iota. now rewrite skip_many_spec.
Qed.

(** A turn whose answer is no kind of yes only prints. *)
Lemma turn_not_a_yes (idx : nat) (st : state) (answer : string) :
  not_a_yes answer = true ->
  fs (control_state (turn abspath_join other_dir files_to_delete idx st answer))
  = fs st
  /\ total_deleted
       (control_state (turn abspath_join other_dir files_to_delete idx st answer))
     = total_deleted st.
Proof.
  unfold not_a_yes, turn. cbv zeta. set (u := lower (strip answer)).
  intros Hno. apply negb_true_iff in Hno.
  destruct (String.eqb_spec u "y") as [Hy | _];
    [rewrite Hy in Hno; discriminate|].
  destruct (String.eqb u "n"); [now split|].
  rewrite Hno. simpl andb. cbv iota.
  destruct (startswith "n" u && isdigit (tail u)).
  { destruct (int (tail u)) as [n | e]; [|now split].
    rewrite skip_many_spec. now split. }
  destruct (String.eqb_spec u "yall") as [Hyall | _];
    [rewrite Hyall in Hno; discriminate|].
  destruct (String.eqb u "nall"); now split.
Qed.

Lemma interactive_loop_not_a_yes (list_next : Z) (inputs : list string) :
  Forall (fun answer => not_a_yes answer = true) inputs ->
  forall idx st,
    fs (final_state
          (interactive_loop abspath_join base_dir other_dir files_to_delete
             list_next inputs idx st)) = fs st
    /\ total_deleted
         (final_state
            (interactive_loop abspath_join base_dir other_dir files_to_delete
               list_next inputs idx st)) = total_deleted st.
Proof.
  induction 1 as [|answer inputs Hno Hrest IH]; intros idx st;
    rewrite interactive_loop_unfold;
    destruct (List.length files_to_delete <=? idx); try (now split);
    cbv zeta.
  set (st1 := emit _ st).
  pose proof (turn_not_a_yes idx st1 answer Hno) as [Hfs Htd].
  destruct (turn _ _ _ _ _ _) as [i s | s | e s]; simpl in Hfs, Htd.
  - destruct (IH i s) as [H1 H2]. rewrite H1, H2. now split.
  - simpl. now split.
  - simpl. now split.
Qed.

End SkipCommands.

(** X14 (witness): [N3] with blanks around it, at the second of five
    items. *)
Lemma n_number_skips_from_the_cursor_witness :
  turn posix_join "/other" (files_to_delete_of five_pairs) 1
       (mkState five_on_disk 0 []) " N3 "
  = Next 4 (mkState five_on_disk 0
              [EvSkipping "/other/b"; EvSkipping "/other/c";
               EvSkipping "/other/d"]).
Proof.
  exact (n_number_skips_from_the_cursor posix_join "/other"
           (files_to_delete_of five_pairs) 1 (mkState five_on_disk 0 [])
           " N3 " "3" 3 eq_refl eq_refl eq_refl).
Defined.

(** X15: an interactive run in which no answer starts with [y] (once
    stripped and lowered) removes nothing: whatever the answers are and
    however the run ends, the disk is as it was and the counter is zero,
    in both routines. *)
Theorem answers_without_yes_remove_nothing
    (abspath_join : string -> string -> string)
    (dups : dict (dup_group (list FileRecord))) (sdups : dict SingleDir.info)
    (base_dir other_dir directory : string)
    (sleep_time : Q) (list_next : Z) (inputs : list string)
    (disk : filesystem) :
  Forall (fun answer => not_a_yes answer = true) inputs ->
  (let st := final_state
               (delete_duplicates abspath_join dups base_dir other_dir
                  sleep_time true list_next inputs disk) in
   fs st = disk /\ total_deleted st = 0)
  /\ (let st := final_state
                  (delete_duplicates_single_dir abspath_join sdups directory
                     sleep_time true list_next inputs disk) in
      fs st = disk /\ total_deleted st = 0).
Proof.
  intros Hno.
  assert (Hdrive : forall bd od queue,
             let st := final_state
                         (drive abspath_join bd od queue sleep_time true
                            list_next inputs disk) in
             fs st = disk /\ total_deleted st = 0).
  { intros bd od queue. unfold drive.
    set (st0 := emit [EvConfirmEnabled] _).
    pose proof (interactive_loop_not_a_yes abspath_join bd od queue
                  list_next inputs Hno 0 st0) as [Hfs Htd].
    destruct (interactive_loop _ _ _ _ _ _ _ _) as [st | e st];
      simpl in *; now split. }
  split; apply Hdrive.
Qed.

(** X15 (witness): skips, an invalid answer and a cancellation. *)
Lemma answers_without_yes_remove_nothing_witness :
  fs (final_state
        (delete_duplicates posix_join five_pairs "/base" "/other" 1 true 5
           ["n"; "n2"; "maybe"; "nall"] five_on_disk))
  = five_on_disk.
Proof.
  destruct (answers_without_yes_remove_nothing posix_join five_pairs []
              "/base" "/other" "" 1 5 ["n"; "n2"; "maybe"; "nall"]
              five_on_disk) as [[H _] _].
  - repeat constructor.
  - exact H.
Defined.

(* ------------------------------------------------------------------ *)
(** ** Deletion Driver: what a batch run leaves, and what the counter counts *)

Lemma find_filter_other (disk : filesystem) (p q : string) :
  p <> q ->
  find (fun e => String.eqb (fst e) p)
       (filter (fun e => negb (String.eqb (fst e) q)) disk)
  = find (fun e => String.eqb (fst e) p) disk.
Proof.
  intros Hne. induction disk as [|[x r] disk IH]; simpl; [reflexivity|].
  destruct (String.eqb_spec x q) as [-> | Hx]; simpl.
  - destruct (String.eqb_spec q p); [congruence | exact IH].
  - now rewrite IH.
Qed.

Lemma removable_filter_other (disk : filesystem) (p q : string) :
  p <> q ->
  removable (filter (fun e => negb (String.eqb (fst e) q)) disk) p
  = removable disk p.
Proof.
  intros Hne. unfold removable, os_remove.
  rewrite (find_filter_other disk p q Hne).
  now destruct (find _ disk) as [[x [|]]|].
Qed.

(** A target that is removable or already gone stays so through the
    removal of any path. *)
Lemma remove_if_exists_settles (q p : string) (st : state) :
  removable (fs st) p = true \/ os_path_exists (fs st) p = false ->
  (removable (fs (remove_if_exists q st)) p = true
   \/ os_path_exists (fs (remove_if_exists q st)) p = false)
  /\ (q = p -> os_path_exists (fs (remove_if_exists q st)) p = false).
Proof.
  intros H. split.
  - destruct H as [H | H]; [|right; now apply remove_if_exists_stays_missing].
    destruct (String.eqb_spec p q) as [-> | Hne].
    + right. rewrite remove_if_exists_fs, String.eqb_refl.
      unfold removable in H. destruct (os_remove (fs st) q); [|discriminate].
      now rewrite andb_false_r.
    + left. unfold remove_if_exists.
      destruct (os_path_exists (fs st) q); [|exact H].
      unfold os_remove at 1.
      destruct (find _ (fs st)) as [[x [|]]|]; simpl; try exact H.
      now rewrite removable_filter_other.
  - intros ->. destruct H as [H | H];
      [|now apply remove_if_exists_stays_missing].
    rewrite remove_if_exists_fs, String.eqb_refl.
    unfold removable in H. destruct (os_remove (fs st) p); [|discriminate].
    now rewrite andb_false_r.
Qed.

Section BatchRun.

Variable abspath_join : string -> string -> string.
Variables base_dir other_dir : string.
Variable queue : list item.

Local Abbreviation target := (duplicate_path_of abspath_join other_dir).

(** Once the batch loop has met a target that was removable or already
    gone, the target is not on disk. *)
Lemma batch_loop_settles (sleep_time : Q) (items : list item) (p : string) :
  incl items queue ->
  In p (map target items) ->
  forall idx st,
    removable (fs st) p = true \/ os_path_exists (fs st) p = false ->
    os_path_exists (fs (batch_loop abspath_join base_dir other_dir queue
                          sleep_time idx items st)) p = false.
Proof.
  induction items as [|hd items IH]; intros Hincl Hin idx st H; [destruct Hin|].
  assert (Hincl' : incl items queue) by (intros x Hx; apply Hincl; now right).
  simpl. set (st1 := emit _ st).
  set (st2 := remove_if_exists _ st1).
  match goal with
  | |- context [if ?c then ?a else st2] => set (st3 := if c then a else st2)
  end.
  destruct (remove_if_exists_settles (target hd) p st1 H) as [H2 Hgone].
  fold st2 in H2, Hgone.
  assert (Hfs : fs st3 = fs st2) by (unfold st3; now destruct (andb _ _)).
  rewrite <- Hfs in H2, Hgone.
  destruct Hin as [Heq | Hin]; [|now apply IH].
  apply (batch_loop_invariant abspath_join base_dir other_dir queue
           (fun s => os_path_exists (fs s) p = false)).
  - intros evs s _ Hs. exact Hs.
  - intros it s _ Hs. now apply remove_if_exists_stays_missing.
  - exact Hincl'.
  - now apply Hgone.
Qed.

(** A batch run that goes ahead returns, reports, and leaves no target on
    disk that [os.remove] could remove. *)
Lemma drive_batch_removes_all (sleep_time : Q) (list_next : Z)
    (inputs : list string) (disk : filesystem) :
  proceeds sleep_time inputs = true ->
  exists st,
    drive abspath_join base_dir other_dir queue sleep_time false list_next
      inputs disk = Returned st
    /\ reported st
    /\ forall it, In it queue ->
         removable disk (target it) = true ->
         os_path_exists (fs st) (target it) = false.
Proof.
  unfold proceeds, drive. intros Hgo.
  assert (Hb : forall st0,
             fs st0 = disk ->
             forall it, In it queue ->
               removable disk (target it) = true ->
               os_path_exists
                 (fs (report (batch_loop abspath_join base_dir other_dir queue
                                sleep_time 1 queue st0))) (target it) = false).
  { intros st0 Hfs it Hit Hrem. unfold report. simpl.
    apply batch_loop_settles; [apply incl_refl | now apply in_map |].
    left. now rewrite Hfs. }
  destruct (Qeq_bool sleep_time 0); simpl in Hgo.
  - destruct inputs as [|confirm_input inputs]; [discriminate|].
    rewrite Hgo. simpl.
    eexists. split; [reflexivity|]. split; [apply reported_report|].
    now apply Hb.
  - eexists. split; [reflexivity|]. split; [apply reported_report|].
    now apply Hb.
Qed.

End BatchRun.

(** X16: a batch run that goes ahead (the delay is not zero, or the
    operator answered [yes]) returns, prints the total and the reminder, and
    leaves on disk no duplicate on which [os.remove] succeeds: every entry of
    every group's [duplicates] that was removable at the start is gone at
    the end, in both routines. *)
Theorem batch_run_removes_every_removable_duplicate
    (abspath_join : string -> string -> string)
    (dups : dict (dup_group (list FileRecord))) (sdups : dict SingleDir.info)
    (base_dir other_dir directory : string)
    (sleep_time : Q) (list_next : Z) (inputs : list string)
    (disk : filesystem) :
  proceeds sleep_time inputs = true ->
  (exists st,
     delete_duplicates abspath_join dups base_dir other_dir
       sleep_time false list_next inputs disk = Returned st
     /\ reported st
     /\ forall checksum info dup,
          In (checksum, info) dups -> In dup (duplicates info) ->
          removable disk (abspath_join other_dir (path dup)) = true ->
          os_path_exists (fs st) (abspath_join other_dir (path dup)) = false)
  /\ (exists st,
        delete_duplicates_single_dir abspath_join sdups directory
          sleep_time false list_next inputs disk = Returned st
        /\ reported st
        /\ forall checksum info dup,
             In (checksum, info) sdups ->
             In dup (SingleDir.duplicates info) ->
             removable disk (abspath_join directory (path dup)) = true ->
             os_path_exists (fs st) (abspath_join directory (path dup))
             = false).
Proof.
  intros Hgo. split.
  - destruct (drive_batch_removes_all abspath_join base_dir other_dir
                (files_to_delete_of dups) sleep_time list_next inputs disk Hgo)
      as [st [Hrun [Hrep Hall]]].
    exists st. split; [exact Hrun|]. split; [exact Hrep|].
    intros checksum info dup Hin Hdup Hrem.
    apply (Hall (mkItem (base info) dup)); [|exact Hrem].
    apply in_files_to_delete_of. now exists checksum, info, dup.
  - destruct (drive_batch_removes_all abspath_join directory directory
                (files_to_delete_single_dir sdups) sleep_time list_next
                inputs disk Hgo) as [st [Hrun [Hrep Hall]]].
    exists st. split; [exact Hrun|]. split; [exact Hrep|].
    intros checksum info dup Hin Hdup Hrem.
    apply (Hall (mkItem (SingleDir.original info) dup)); [|exact Hrem].
    apply in_files_to_delete_single_dir. now exists checksum, info, dup.
Qed.

(** X16 (witness): a confirmed batch run over three pairs. *)
Lemma batch_run_removes_every_removable_duplicate_witness :
  exists st,
    delete_duplicates posix_join three_pairs "/base" "/other" 0 false 5
      ["yes"] three_on_disk = Returned st
    /\ os_path_exists (fs st) "/other/b" = false.
Proof.
  destruct (batch_run_removes_every_removable_duplicate posix_join three_pairs
              [] "/base" "/other" "" 0 5 ["yes"] three_on_disk eq_refl)
    as [[st [Hrun [_ Hall]]] _].
  exists st. split; [exact Hrun|].
  apply (Hall "d1" (mkGroup (plain "keep1") [plain "a"; plain "b"; plain "c"])
              (plain "b")).
  - now left.
  - simpl. auto.
  - reflexivity.
Defined.

Lemma filter_keeps_all (disk : filesystem) (q : string) :
  ~ In q (map fst disk) ->
  filter (fun e => negb (String.eqb (fst e) q)) disk = disk.
Proof.
  induction disk as [|[x r] disk IH]; simpl; intros H; [reflexivity|].
  destruct (String.eqb_spec x q) as [-> | Hne]; simpl; [tauto|].
  rewrite IH; tauto.
Qed.

Lemma filter_removes_one (disk : filesystem) (q : string) :
  NoDup (map fst disk) ->
  os_path_exists disk q = true ->
  List.length (filter (fun e => negb (String.eqb (fst e) q)) disk) + 1
  = List.length disk.
Proof.
  unfold os_path_exists.
  induction disk as [|[x r] disk IH]; simpl; intros Hnd H; [discriminate|].
  inversion Hnd as [|? ? Hx Hnd']; subst.
  destruct (String.eqb_spec x q) as [-> | Hne]; simpl.
  - rewrite (filter_keeps_all disk q Hx). lia.
  - rewrite (IH Hnd' H). lia.
Qed.

(** X17: when the paths on disk are distinct, the counter counts exactly
    the files that disappeared: in every run of either routine, in either
    mode and however the run ends, the number of files left on disk plus the
    deleted counter is the number of files at the start, and every file left
    was there at the start. *)
Theorem counter_counts_the_files_gone
    (abspath_join : string -> string -> string)
    (dups : dict (dup_group (list FileRecord))) (sdups : dict SingleDir.info)
    (base_dir other_dir directory : string)
    (sleep_time : Q) (confirm : bool) (list_next : Z)
    (inputs : list string) (disk : filesystem) :
  NoDup (map fst disk) ->
  (let st := final_state
               (delete_duplicates abspath_join dups base_dir other_dir
                  sleep_time confirm list_next inputs disk) in
   List.length (fs st) + total_deleted st = List.length disk
   /\ incl (fs st) disk)
  /\ (let st := final_state
                  (delete_duplicates_single_dir abspath_join sdups directory
                     sleep_time confirm list_next inputs disk) in
      List.length (fs st) + total_deleted st = List.length disk
      /\ incl (fs st) disk).
Proof.
  intros Hnd.
  assert (Hdrive : forall bd od queue,
             let st := final_state
                         (drive abspath_join bd od queue sleep_time confirm
                            list_next inputs disk) in
             NoDup (map fst (fs st))
             /\ List.length (fs st) + total_deleted st = List.length disk
             /\ incl (fs st) disk).
  { intros bd od queue.
    apply (drive_invariant abspath_join bd od queue
             (fun st => NoDup (map fst (fs st))
                        /\ List.length (fs st) + total_deleted st
                           = List.length disk
                        /\ incl (fs st) disk)).
    - intros evs st _ H. exact H.
    - intros it st _ [H1 [H2 H3]]. unfold remove_if_exists.
      destruct (os_path_exists (fs st) _) eqn:Eex; [|now repeat split].
      unfold os_remove.
      destruct (find _ (fs st)) as [[x [|]]|]; try (now repeat split).
      simpl. split; [now apply filter_keeps_distinct_images|]. split.
      + pose proof (filter_removes_one (fs st) _ H1 Eex). lia.
      + intros e He. apply filter_In in He. apply H3. tauto.
    - simpl. repeat split; [exact Hnd | lia | apply incl_refl]. }
  split; cbv zeta.
  - destruct (Hdrive base_dir other_dir (files_to_delete_of dups))
      as [_ [H1 H2]]. now split.
  - destruct (Hdrive directory directory (files_to_delete_single_dir sdups))
      as [_ [H1 H2]]. now split.
Qed.

(** X17 (witness): the run of answers [y3], [n], [y] over five pairs. *)
Lemma counter_counts_the_files_gone_witness :
  List.length
    (fs (final_state
           (delete_duplicates posix_join five_pairs "/base" "/other" 1 true 0
              ["y3"; "n"; "y"] five_on_disk)))
  + total_deleted
      (final_state
         (delete_duplicates posix_join five_pairs "/base" "/other" 1 true 0
            ["y3"; "n"; "y"] five_on_disk))
  = 7.
Proof.
  destruct (counter_counts_the_files_gone posix_join five_pairs [] "/base"
              "/other" "" 1 true 0 ["y3"; "n"; "y"] five_on_disk)
    as [[H _] _].
  - repeat constructor; simpl; intuition discriminate.
  - exact H.
Defined.

(* ------------------------------------------------------------------ *)
(** ** Deletion Driver: the delete commands with a count *)

Section DeleteCommands.

Variable abspath_join : string -> string -> string.
Variable other_dir : string.
Variable files_to_delete : list item.

Local Abbreviation total := (List.length files_to_delete).
Local Abbreviation remove_at :=
  (fun s j =>
     remove_if_exists
       (duplicate_path_at abspath_join other_dir files_to_delete j) s).

(** Where the loop after a deletion leaves the cursor. *)
Lemma auto_delete_cursor (skip_count : nat) :
  forall idx st,
    fst (auto_delete abspath_join other_dir files_to_delete skip_count idx st)
    = idx + Nat.min skip_count (Nat.max 1 (total - idx)).
Proof.
  induction skip_count as [|n IH]; intros idx st.
  - simpl. lia.
  - change (auto_delete abspath_join other_dir files_to_delete (S n) idx st)
      with (if total <=? idx + 1 then (idx + 1, st)
            else auto_delete abspath_join other_dir files_to_delete n
                   (idx + 1) (remove_at st (idx + 1))).
    destruct (Nat.leb_spec total (idx + 1)) as [Hge | Hlt].
    + cbn [fst]. lia.
    + rewrite IH. lia.
Qed.

Lemma delete_current_batch (skip_count : Z) (idx : nat) (st : state) :
  (0 < skip_count)%Z ->
  idx + 1 < total ->
  delete_current abspath_join other_dir files_to_delete skip_count idx st
  = (Nat.min (idx + 1 + Z.to_nat skip_count) total,
     fold_left remove_at
       (seq (idx + 2) (Nat.min (Z.to_nat skip_count) (total - 2 - idx)))
       (remove_at st idx)).
Proof.
  intros Hpos Hnext.
  rewrite (surjective_pairing (delete_current _ _ _ _ _ _)).
  rewrite (delete_current_removes _ _ _ _ _ _ Hpos). f_equal.
  unfold delete_current. apply Z.ltb_lt in Hpos. rewrite Hpos.
  rewrite auto_delete_cursor. lia.
Qed.

(** X18: what [y<number>] and [yall] do when an item follows the cursor.
    [y<number>] with a number of at least 2 runs the
    exists-check-then-remove block on the item at the cursor and then on the
    items from two past the cursor on, at most [number - 1] of them, and
    leaves the cursor [number] past where it was (or past the end); [yall]
    does so up to the end of the queue.  The item right after the cursor is
    not among those the block is run on. *)
Theorem counted_yes_steps_over_the_next_item (idx : nat) (st : state) :
  idx + 1 < total ->
  (forall answer digits n,
     lower (strip answer) = String "y" digits ->
     isdigit digits = true ->
     int digits = Ok n ->
     2 <= n ->
     turn abspath_join other_dir files_to_delete idx st answer
     = Next (Nat.min (idx + n) total)
            (fold_left remove_at
               (seq (idx + 2) (Nat.min (n - 1) (total - 2 - idx)))
               (remove_at st idx)))
  /\ (forall answer,
        lower (strip answer) = "yall" ->
        turn abspath_join other_dir files_to_delete idx st answer
        = Next total
               (fold_left remove_at (seq (idx + 2) (total - 2 - idx))
                          (remove_at st idx))).
Proof.
  intros Hnext. split.
  - intros answer digits n Hu Hd Hn Hn2. unfold turn. rewrite Hu. cbv zeta.
    assert (Hne : digits <> "") by (intros ->; discriminate).
    destruct (String.eqb_spec (String "y" digits) "y") as [H | _];
      [injection H as H; contradiction|].
    destruct (String.eqb_spec (String "y" digits) "n"); [discriminate|].
    simpl startswith. simpl tail. simpl andb. rewrite Hd, Hn. cbv iota.
    rewrite delete_current_batch by lia.
    replace (Z.to_nat (Z.of_nat n - 1)) with (n - 1) by lia.
    now replace (idx + 1 + (n - 1)) with (idx + n) by lia.
  - intros answer Hu. unfold turn. rewrite Hu. cbv zeta. simpl.
    rewrite delete_current_batch by lia.
    replace (Z.to_nat (Z.of_nat total - Z.of_nat idx - 1))
      with (total - idx - 1) by lia.
    replace (Nat.min (idx + 1 + (total - idx - 1)) total) with total by lia.
    now replace (Nat.min (total - idx - 1) (total - 2 - idx))
      with (total - 2 - idx) by lia.
Qed.

(** [y0] and [y1] run the block on the item at the cursor only, as [y]
    does. *)
Lemma small_counted_yes (idx : nat) (st : state)
    (answer digits : string) (n : nat) :
  lower (strip answer) = String "y" digits ->
  isdigit digits = true ->
  int digits = Ok n ->
  n <= 1 ->
  turn abspath_join other_dir files_to_delete idx st answer
  = Next (idx + 1) (remove_at st idx).
Proof.
  intros Hu Hd Hn Hn1. unfold turn. rewrite Hu. cbv zeta.
  assert (Hne : digits <> "") by (intros ->; discriminate).
  destruct (String.eqb_spec (String "y" digits) "y") as [H | _];
    [injection H as H; contradiction|].
  destruct (String.eqb_spec (String "y" digits) "n"); [discriminate|].
  simpl startswith. simpl tail. simpl andb. rewrite Hd, Hn. cbv iota.
  unfold delete_current.
  destruct (Z.ltb_spec 0 (Z.of_nat n - 1)); [lia | reflexivity].
Qed.

End DeleteCommands.

(** X18 (witness): [y3] at the first of five items. *)
Lemma counted_yes_steps_over_the_next_item_witness :
  turn posix_join "/other" (files_to_delete_of five_pairs) 0
       (mkState five_on_disk 0 []) "y3"
  = Next 3 (mkState [("/base/keep1", true); ("/base/keep2", true);
                     ("/other/b", true); ("/other/e", true)]
                    3
                    [EvDeleted "/other/a"; EvDeleted "/other/c";
                     EvDeleted "/other/d"]).
Proof.
  destruct (counted_yes_steps_over_the_next_item posix_join "/other"
              (files_to_delete_of five_pairs) 0 (mkState five_on_disk 0 []))
    as [H _].
  - simpl. lia.
  - rewrite (H "y3" "3" 3 eq_refl eq_refl eq_refl); [reflexivity | lia].
Defined.

(** X19: the answers [y0] and [y1] do what [y] does: the block is run on
    the item at the cursor, no other item is touched, and the cursor moves
    by one. *)
Theorem y0_and_y1_delete_one_item
    (abspath_join : string -> string -> string) (other_dir : string)
    (files_to_delete : list item) (idx : nat) (st : state)
    (answer digits : string) (n : nat) :
  lower (strip answer) = String "y" digits ->
  isdigit digits = true ->
  int digits = Ok n ->
  n <= 1 ->
  turn abspath_join other_dir files_to_delete idx st answer
  = turn abspath_join other_dir files_to_delete idx st "y".
Proof.
  intros Hu Hd Hn Hn1.
  rewrite (small_counted_yes abspath_join other_dir files_to_delete idx st
             answer digits n Hu Hd Hn Hn1).
  reflexivity.
Qed.

(** X19 (witness): [Y0] at the first of three items. *)
Lemma y0_and_y1_delete_one_item_witness :
  turn posix_join "/other" (files_to_delete_of three_pairs) 0
       (mkState three_on_disk 0 []) "Y0"
  = Next 1 (mkState [("/base/keep1", true); ("/other/b", true);
                     ("/other/c", true)] 1 [EvDeleted "/other/a"]).
Proof.
  rewrite (y0_and_y1_delete_one_item posix_join "/other"
             (files_to_delete_of three_pairs) 0 (mkState three_on_disk 0 [])
             "Y0" "0" 0 eq_refl eq_refl eq_refl); [reflexivity | lia].
Defined.

(* ------------------------------------------------------------------ *)
(** ** File listing: what the patterns exclude *)

Section WalkFacts.

Variable fnmatch : string -> string -> bool.
Variable os_path_join : string -> string -> string.

Lemma excluded_iff (file : string) (patterns : list string) :
  excluded fnmatch file patterns = true <->
  exists pattern, In pattern patterns /\ fnmatch file pattern = true.
Proof.
  induction patterns as [|x patterns IH]; simpl.
  - split; [discriminate | intros [? [[] _]]].
  - destruct (fnmatch file x) eqn:E.
    + split; [intros _; exists x; auto | reflexivity].
    + rewrite IH. split.
      * intros [y [Hy Hm]]. exists y. auto.
      * intros [y [[<- | Hy] Hm]]; [congruence | exists y; auto].
Qed.

Lemma excluded_same_patterns (file : string) (patterns patterns' : list string) :
  (forall x, In x patterns <-> In x patterns') ->
  excluded fnmatch file patterns = excluded fnmatch file patterns'.
Proof.
  intros Hsame.
  destruct (excluded fnmatch file patterns) eqn:E,
           (excluded fnmatch file patterns') eqn:E'; try reflexivity.
  - apply excluded_iff in E. destruct E as [x [Hx Hm]].
    assert (excluded fnmatch file patterns' = true)
      by (apply excluded_iff; exists x; split; [now apply Hsame | exact Hm]).
    congruence.
  - apply excluded_iff in E'. destruct E' as [x [Hx Hm]].
    assert (excluded fnmatch file patterns = true)
      by (apply excluded_iff; exists x; split; [now apply Hsame | exact Hm]).
    congruence.
Qed.

(** A name the loop over the patterns lets through is a name no pattern
    matches. *)
Lemma excluded_forallb (file : string) (patterns : list string) :
  negb (excluded fnmatch file patterns)
  = forallb (fun pattern => negb (fnmatch file pattern)) patterns.
Proof.
  induction patterns as [|x patterns IH]; simpl; [reflexivity|].
  now destruct (fnmatch file x).
Qed.

(** X20: [get_all_files] lists a file exactly when no pattern matches its
    base name (the directory part is not looked at), once for every place
    the walk yields it, in walk order; the result depends on which patterns
    are given, not on their order or repetition; and without patterns every
    file of the walk is listed. *)
Theorem listing_excludes_by_base_name (walk : list (string * list string))
    (patterns patterns' : list string) :
  (forall x, In x patterns <-> In x patterns') ->
  get_all_files fnmatch os_path_join walk patterns
  = get_all_files fnmatch os_path_join walk patterns'
  /\ get_all_files fnmatch os_path_join walk []
     = flat_map (fun d => map (os_path_join (fst d)) (snd d)) walk
  /\ (forall p,
        In p (get_all_files fnmatch os_path_join walk patterns) <->
        exists root files file,
          In (root, files) walk /\ In file files
          /\ p = os_path_join root file
          /\ forall pattern, In pattern patterns ->
                             fnmatch file pattern = false)
  /\ get_all_files fnmatch os_path_join walk patterns
     = flat_map
         (fun d =>
            map (os_path_join (fst d))
                (filter (fun file =>
                           forallb (fun pattern => negb (fnmatch file pattern))
                                   patterns)
                        (snd d)))
         walk.
Proof.
  intros Hsame. unfold get_all_files. split; [|split; [|split]].
  - apply flat_map_ext. intros [root files]. apply flat_map_ext. intros file.
    now rewrite (excluded_same_patterns file patterns patterns' Hsame).
  - apply flat_map_ext. intros [root files]. simpl.
    induction files as [|file files IH]; simpl; [reflexivity | now rewrite IH].
  - intros p. rewrite in_flat_map. split.
    + intros [[root files] [Hd Hp]]. simpl in Hp. apply in_flat_map in Hp.
      destruct Hp as [file [Hfile Hp]].
      destruct (excluded fnmatch file patterns) eqn:E; [destruct Hp|].
      destruct Hp as [<- | []].
      exists root, files, file. repeat split; auto.
      intros pattern Hpat.
      destruct (fnmatch file pattern) eqn:Em; [|reflexivity].
      assert (excluded fnmatch file patterns = true)
        by (apply excluded_iff; now exists pattern).
      congruence.
    + intros [root [files [file [Hd [Hfile [-> Hno]]]]]].
      exists (root, files). split; [exact Hd|]. simpl.
      apply in_flat_map. exists file. split; [exact Hfile|].
      destruct (excluded fnmatch file patterns) eqn:E; [|now left].
      apply excluded_iff in E. destruct E as [pattern [Hpat Hm]].
      rewrite (Hno pattern Hpat) in Hm. discriminate.
  - apply flat_map_ext. intros [root files]. simpl.
    induction files as [|file files IH]; simpl; [reflexivity|].
    rewrite <- excluded_forallb, IH.
    now destruct (excluded fnmatch file patterns).
Qed.

End WalkFacts.

(** X20 (witness): with names matched by equality, [b] is excluded from
    both directories. *)
Lemma listing_excludes_by_base_name_witness :
  get_all_files String.eqb posix_join
    [("/t", ["a"; "b"]); ("/t/sub", ["b"; "c"])] ["b"; "x"; "b"]
  = ["/t/a"; "/t/sub/c"].
Proof.
  destruct (listing_excludes_by_base_name String.eqb posix_join
              [("/t", ["a"; "b"]); ("/t/sub", ["b"; "c"])]
              ["b"; "x"; "b"] ["x"; "b"]) as [H _].
  - intros x. simpl. tauto.
  - rewrite H. reflexivity.
Defined.

(* ------------------------------------------------------------------ *)
(** ** The commands: [search], [checksum] and [delete] *)

Lemma digest_tree_safe (skip : bool) (files : list walked) :
  Forall (fun w => persistable w = true) files ->
  Forall (fun e => record_safe e = true) (fst (digest_tree skip [] files)).
Proof.
  intros Hall. apply Forall_forall. intros [c info] Hin.
  apply digest_fold_entries in Hin.
  destruct Hin as [[] | [w [Hw [-> ->]]]].
  exact (proj1 (Forall_forall _ _) Hall w Hw).
Qed.

Lemma reloaded_keys (table : dict FileRecord) :
  map fst (reloaded_other table) = map fst table
  /\ map fst (reloaded_base table) = map fst table.
Proof.
  unfold reloaded_other, reloaded_base. rewrite !map_map. simpl.
  split; reflexivity.
Qed.

(** X21: what [delete] removes after [checksum].  When the [checksum]
    command has digested two trees and saved its tables, the digests it
    assigned being those of the contents (it reused no checksum file, or one
    that lists every walked file it knows with the hash of its content),
    then in every run of the [delete] command on the saved file, in either
    mode and whatever the operator answers, every path [os.remove] is called
    on is the resolved path of a file of the comparison tree whose content
    has the digest of the content of a file of the canonical tree. *)
Theorem delete_removes_only_files_with_a_canonical_twin
    (abspath_join : string -> string -> string)
    (base_dir target_dir : string) (base_files other_files : list walked)
    (f : checksum_file) (skip_existing : bool) (ex : existing_tables)
    (r : digest_run)
    (sleep_time : Q) (confirm : bool) (list_next : Z)
    (inputs : list string) (disk : filesystem) :
  Forall (fun w => persistable w = true) base_files ->
  Forall (fun w => persistable w = true) other_files ->
  reuse_tables f skip_existing = Ok ex ->
  up_to_date skip_existing (ex_base ex) base_files = true ->
  up_to_date skip_existing (ex_other ex) other_files = true ->
  calculate_checksums base_files other_files f skip_existing = Ok r ->
  let saved := save_checksums (base_checksums r) (other_checksums r) in
  let st := final_state
              (delete_command abspath_join base_dir target_dir (Some saved)
                 sleep_time confirm list_next inputs disk) in
  forall p,
    removal_attempted st p ->
    exists o b,
      In o other_files /\ In b base_files /\ w_hash o = w_hash b
      /\ p = abspath_join target_dir (w_rel o).
Proof.
  intros Hpb Hpo Hex Hub Huo Hr saved st p Hp.
  subst st saved.
  unfold calculate_checksums in Hr. rewrite Hex in Hr. unfold bind in Hr.
  injection Hr as <-.
  unfold delete_command in Hp. simpl base_checksums in Hp.
  simpl other_checksums in Hp.
  rewrite (up_to_date_same_table _ _ _ Hub) in Hp.
  rewrite (up_to_date_same_table _ _ _ Huo) in Hp.
  set (B := fst (digest_tree true [] base_files)) in *.
  set (O := fst (digest_tree true [] other_files)) in *.
  assert (HnB : NoDup (map fst B)) by (apply digest_fold_NoDup; constructor).
  assert (HnO : NoDup (map fst O)) by (apply digest_fold_NoDup; constructor).
  rewrite (load_checksums_of_saved B O
             (digest_tree_safe true base_files Hpb)
             (digest_tree_safe true other_files Hpo) HnB HnO) in Hp.
  simpl ld_base in Hp. simpl ld_other in Hp.
  destruct (drive_removes_targets_only abspath_join base_dir target_dir
              (files_to_delete_of
                 (fst (fst (summarize_duplicates (reloaded_base B)
                                                 (reloaded_other O)))))
              sleep_time confirm list_next inputs disk) as [Hrem _].
  destruct (Hrem p Hp) as [it [Hit ->]]. clear Hrem Hp.
  apply in_files_to_delete_of in Hit.
  destruct Hit as [c [info [dup [Hin [Hdup ->]]]]].
  assert (HnO' : NoDup (map fst (reloaded_other O)))
    by (now rewrite (proj1 (reloaded_keys O))).
  rewrite (summarize_duplicates_groups _ _ HnO') in Hin.
  apply in_flat_map in Hin. destruct Hin as [[c' v] [Hv Hg]]. simpl in Hg.
  destruct (dict_get (reloaded_base B) c') as [rb|] eqn:Eb; [|destruct Hg].
  destruct Hg as [Hg | []]. injection Hg as -> <-. simpl in Hdup.
  unfold reloaded_other in Hv. apply in_map_iff in Hv.
  destruct Hv as [[co io] [Heq Hio]]. simpl in Heq. injection Heq as -> <-.
  destruct Hdup as [<- | []].
  apply digest_fold_entries in Hio.
  destruct Hio as [[] | [o [Ho [-> ->]]]].
  apply dict_get_In in Eb. unfold reloaded_base in Eb.
  apply in_map_iff in Eb. destruct Eb as [[cb ib] [Heq Hib]].
  simpl in Heq. injection Heq as Hc _.
  apply digest_fold_entries in Hib.
  destruct Hib as [[] | [b [Hb [-> ->]]]].
  exists o, b. repeat split; auto.
Qed.

(** X21 (witness): [fileC] is the only comparison file removed, and it has
    the digest of [fileA]. *)
Lemma delete_removes_only_files_with_a_canonical_twin_witness :
  removal_attempted
    (final_state
       (delete_command posix_join "/base" "/other"
          (Some [record_line "BASE" "d1" "fileA";
                 record_line "OTHER" "d1" "fileC"])
          1 false 5 []
          [("/base/fileA", true); ("/other/fileB", true);
           ("/other/fileC", true)])) "/other/fileC"
  /\ exists o b,
       In o other_tree /\ In b base_tree /\ w_hash o = w_hash b
       /\ "/other/fileC" = posix_join "/other" (w_rel o).
Proof.
  assert (H : removal_attempted
                (final_state
                   (delete_command posix_join "/base" "/other"
                      (Some [record_line "BASE" "d1" "fileA";
                             record_line "OTHER" "d1" "fileC"])
                      1 false 5 []
                      [("/base/fileA", true); ("/other/fileB", true);
                       ("/other/fileC", true)])) "/other/fileC").
  { left. vm_compute. repeat (try (left; reflexivity); right). }
  split; [exact H|].
  exact (delete_removes_only_files_with_a_canonical_twin posix_join
           "/base" "/other" base_tree other_tree None false
           (mkExisting [] []) _ 1 false 5 []
           [("/base/fileA", true); ("/other/fileB", true);
            ("/other/fileC", true)]
           ltac:(repeat constructor) ltac:(repeat constructor)
           eq_refl eq_refl eq_refl eq_refl
           "/other/fileC" H).
Defined.

(** X22: the [delete] command on a missing checksum file goes on with empty
    tables: there is nothing in the queue, nothing is removed, and an
    interactive run returns at once after announcing zero files and
    reporting zero deletions. *)
Theorem delete_without_checksum_file_removes_nothing
    (abspath_join : string -> string -> string)
    (base_dir target_dir : string)
    (sleep_time : Q) (confirm : bool) (list_next : Z)
    (inputs : list string) (disk : filesystem) :
  let run := delete_command abspath_join base_dir target_dir None
               sleep_time confirm list_next inputs disk in
  ld_error (load_checksums None) = Some FileNotFoundError
  /\ fs (final_state run) = disk
  /\ total_deleted (final_state run) = 0
  /\ (forall p, ~ removal_attempted (final_state run) p)
  /\ (confirm = true ->
      run = Returned (mkState disk 0
                        [EvTotalToDelete 0; EvConfirmEnabled;
                         EvTotalDeleted 0; EvReminder])).
Proof.
  cbv zeta. unfold delete_command, delete_duplicates. simpl.
  split; [reflexivity|].
  destruct (drive_all_missing abspath_join base_dir target_dir [] sleep_time
              confirm list_next inputs disk (fun it (F : In it []) => match F with end))
    as [Hfs Htd].
  split; [exact Hfs|]. split; [exact Htd|]. split.
  - intros p Hp.
    destruct (drive_removes_targets_only abspath_join base_dir target_dir []
                sleep_time confirm list_next inputs disk) as [Hrem _].
    destruct (Hrem p Hp) as [it [[] _]].
  - intros ->. unfold drive. rewrite interactive_loop_unfold. reflexivity.
Qed.

(** X22 (witness): an interactive run on a missing checksum file. *)
Lemma delete_without_checksum_file_removes_nothing_witness :
  delete_command posix_join "/base" "/other" None 1 true 5 ["y"] three_on_disk
  = Returned (mkState three_on_disk 0
                [EvTotalToDelete 0; EvConfirmEnabled;
                 EvTotalDeleted 0; EvReminder]).
Proof.
  exact (proj2 (proj2 (proj2 (proj2
           (delete_without_checksum_file_removes_nothing posix_join "/base"
              "/other" 1 true 5 ["y"] three_on_disk)))) eq_refl).
Defined.

Lemma render_table_after_a_pass (base_table other_table : dict FileRecord) :
  render_table
    (flat_map (fun e => match dict_get base_table (fst e) with
                        | Some b => [(fst e, mkGroup b (snd e))]
                        | None => []
                        end) other_table)
  = if existsb (fun e => dict_mem base_table (fst e)) other_table
    then RaisedTypeError else NoDuplicatesIdentified.
Proof.
  unfold render_table, dict_values, dict_mem.
  induction other_table as [|[k v] other IH]; simpl; [reflexivity|].
  destruct (dict_get base_table k); simpl; [reflexivity | exact IH].
Qed.

(** X23: the [search] and [checksum] commands never get to render the
    table of duplicates.  After printing the counts (and, in [checksum],
    after writing the checksum file), [display_summary] raises [TypeError]
    as soon as the two trees share a digest, because each group's
    [duplicates] is an info dictionary and not a list; when they share
    none, it prints that no duplicates were identified. *)
Theorem search_never_renders_the_table (is_checksum update_checksum_file : bool)
    (base_files other_files : list walked) (f : checksum_file)
    (skip_existing : bool) (r : digest_run) :
  calculate_checksums base_files other_files f skip_existing = Ok r ->
  exists res,
    search_or_checksum_command is_checksum update_checksum_file
      base_files other_files f skip_existing = Ok res
    /\ sr_saved res
       = (if is_checksum && update_checksum_file
          then Some (save_checksums (base_checksums r) (other_checksums r))
          else None)
    /\ sr_table res
       = (if existsb (fun e => dict_mem (base_checksums r) (fst e))
                     (other_checksums r)
          then RaisedTypeError else NoDuplicatesIdentified).
Proof.
  intros Hr. unfold search_or_checksum_command. rewrite Hr. unfold bind.
  eexists. split; [reflexivity|]. split; [reflexivity|].
  cbv beta iota delta [sr_table].
  assert (Hnd : NoDup (map fst (other_checksums r))).
  { unfold calculate_checksums in Hr.
    destruct (reuse_tables f skip_existing) as [ex|]; [|discriminate].
    unfold bind in Hr. injection Hr as <-. simpl.
    apply digest_fold_NoDup. constructor. }
  rewrite (summarize_duplicates_groups _ _ Hnd).
  apply render_table_after_a_pass.
Qed.

(** X23 (witness): one canonical file and two comparison files of the same
    content: the checksum file is written, then the table raises. *)
Lemma search_never_renders_the_table_witness :
  exists res,
    search_or_checksum_command true true base_tree other_tree None false
    = Ok res
    /\ sr_saved res
       = Some [record_line "BASE" "d1" "fileA"; record_line "OTHER" "d1" "fileC"]
    /\ sr_table res = RaisedTypeError.
Proof.
  destruct (search_never_renders_the_table true true base_tree other_tree
              None false _ eq_refl) as [res [H1 [H2 H3]]].
  exists res. split; [exact H1|]. split; [exact H2 | exact H3].
Defined.

(* ------------------------------------------------------------------ *)
(** ** The [dedup] command *)

Lemma sharing_In_intro (skip : bool) (ex : dict string) (files : list walked)
    (w : walked) :
  In w files ->
  In (record_of w) (sharing skip ex files (fst (checksum_of skip ex w))).
Proof.
  intros Hw. unfold sharing. apply in_map. apply filter_In.
  split; [exact Hw | apply String.eqb_refl].
Qed.

(** The groups are empty exactly when no digest is assigned to two
    files. *)
Lemma single_groups_empty (skip : bool) (ex : dict string)
    (files : list walked) :
  fst (SingleDir.summarize_duplicates_single_dir
         (fst (SingleDir.digest_tree skip ex files))) = []
  <-> forall d, List.length (sharing skip ex files d) <= 1.
Proof.
  set (table := fst (SingleDir.digest_tree skip ex files)).
  assert (Hnd : NoDup (map fst table))
    by (apply single_fold_NoDup; constructor).
  rewrite (summarize_single_groups table Hnd). split.
  - intros Hempty d.
    assert (Hget : dict_get table d = extend None (sharing skip ex files d))
      by (unfold table, SingleDir.digest_tree; now rewrite single_fold_get).
    destruct (sharing skip ex files d) as [|r [|r' rs]] eqn:E; simpl; try lia.
    simpl in Hget. apply dict_get_In in Hget.
    assert (Hin : In (d, SingleDir.mkInfo r (r' :: rs))
                     (filter has_duplicates table))
      by (apply filter_In; split; [exact Hget | reflexivity]).
    rewrite Hempty in Hin. destruct Hin.
  - intros Hall.
    destruct (filter has_duplicates table) as [|[d i] rest] eqn:E;
      [reflexivity|].
    assert (Hin : In (d, i) (filter has_duplicates table))
      by (rewrite E; now left).
    apply filter_In in Hin. destruct Hin as [Hin Hdup].
    apply single_table_entry in Hin. specialize (Hall d). rewrite Hin in Hall.
    unfold has_duplicates in Hdup. simpl in Hdup, Hall.
    destruct (SingleDir.duplicates i); [discriminate | simpl in Hall; lia].
Qed.

(** The value of the [dedup] command once the reuse table is known. *)
Lemma dedup_command_value
    (abspath_join : string -> string -> string) (base_dir : string)
    (files : list walked) (f : checksum_file)
    (skip_existing update_checksum_file : bool) (ex : dict string)
    (sleep_time : Q) (confirm : bool) (list_next : Z)
    (inputs : list string) (disk : filesystem) :
  SingleDir.reuse_table f skip_existing = Ok ex ->
  forall table dups,
  table = fst (SingleDir.digest_tree skip_existing ex files) ->
  dups = fst (SingleDir.summarize_duplicates_single_dir table) ->
  dedup_command abspath_join base_dir files f skip_existing
    update_checksum_file sleep_time confirm list_next inputs disk
  = Ok (mkDedup
          (if update_checksum_file
           then Some (SingleDir.save_checksums_single_dir table)
           else None)
          (display_summary_single_dir dups (List.length files))
          (match dups with
           | [] => None
           | _ :: _ =>
               Some (delete_duplicates_single_dir abspath_join dups base_dir
                       sleep_time confirm list_next inputs disk)
           end)).
Proof.
  intros Hex table dups -> ->.
  unfold dedup_command, SingleDir.calculate_checksums_single_dir.
  rewrite Hex. reflexivity.
Qed.

(** X24: the [dedup] command starts the deletion routine exactly when the
    pass assigned some digest to more than one file.  When every digest has
    one file, no confirmation is asked, nothing is removed, and the summary
    shows zero duplicates and as many unique files as were walked. *)
Theorem dedup_runs_the_driver_only_on_duplicates
    (abspath_join : string -> string -> string) (base_dir : string)
    (files : list walked) (f : checksum_file)
    (skip_existing update_checksum_file : bool) (ex : dict string)
    (sleep_time : Q) (confirm : bool) (list_next : Z)
    (inputs : list string) (disk : filesystem) :
  SingleDir.reuse_table f skip_existing = Ok ex ->
  exists res,
    dedup_command abspath_join base_dir files f skip_existing
      update_checksum_file sleep_time confirm list_next inputs disk = Ok res
    /\ (dd_run res = None <->
        forall d, List.length (sharing skip_existing ex files d) <= 1)
    /\ (dd_run res = None ->
        shown_total_duplicates (dd_summary res) = 0
        /\ shown_total_unique_files (dd_summary res)
           = Z.of_nat (List.length files)).
Proof.
  intros Hex.
  pose proof (single_groups_empty skip_existing ex files) as Hiff.
  remember (fst (SingleDir.digest_tree skip_existing ex files)) as table
    eqn:Htable.
  remember (fst (SingleDir.summarize_duplicates_single_dir table)) as dups
    eqn:Hdups.
  eexists. split.
  - exact (dedup_command_value abspath_join base_dir files f skip_existing
             update_checksum_file ex sleep_time confirm list_next inputs disk
             Hex table dups Htable Hdups).
  - cbv beta iota delta [dd_run dd_summary].
    destruct dups as [|g gs].
    + split; [split; [intros _; now apply Hiff | reflexivity]|].
      intros _. unfold display_summary_single_dir. simpl.
      split; [reflexivity | lia].
    + split; [split; [discriminate|]|discriminate].
      intros Hall. apply Hiff in Hall. discriminate.
Qed.

(** X24 (witness): a tree of two files with different contents. *)
Lemma dedup_runs_the_driver_only_on_duplicates_witness :
  exists res,
    dedup_command posix_join "/dir"
      [mkWalked "p1" "/dir/p1" "d1"; mkWalked "p4" "/dir/p4" "d2"]
      None false true 0 false 5 [] [] = Ok res
    /\ dd_run res = None.
Proof.
  destruct (dedup_runs_the_driver_only_on_duplicates posix_join "/dir"
              [mkWalked "p1" "/dir/p1" "d1"; mkWalked "p4" "/dir/p4" "d2"]
              None false true [] 0 false 5 [] [] eq_refl)
    as [res [H1 [H2 _]]].
  exists res. split; [exact H1|]. apply H2. intros d.
  destruct (String.eqb_spec "d1" d) as [<-|N1]; [vm_compute; lia|].
  apply String.eqb_neq in N1.
  unfold sharing. cbn -[String.eqb]. rewrite N1.
  destruct (String.eqb "d2" d); cbn; lia.
Defined.

(* ------------------------------------------------------------------ *)
(** ** Checksum files of one mode read by the other *)

Lemma unpack3_not_unpack2 (fields : list string)
    (x : string * string * string) :
  unpack3 fields = Ok x -> unpack2 fields = Raise ValueError.
Proof.
  destruct fields as [|a [|b [|c [|d l]]]]; simpl; try discriminate.
  reflexivity.
Qed.

Lemma unpack2_not_unpack3 (fields : list string) (x : string * string) :
  unpack2 fields = Ok x -> unpack3 fields = Raise ValueError.
Proof.
  destruct fields as [|a [|b [|c l]]]; simpl; try discriminate.
  reflexivity.
Qed.

(** The first line of a file [save_checksums] wrote from tables that are
    not both empty has three fields. *)
Lemma saved_first_line (b o : dict FileRecord) :
  Forall (fun e => record_safe e = true) b ->
  Forall (fun e => record_safe e = true) o ->
  save_checksums b o <> [] ->
  exists line rest x,
    save_checksums b o = line :: rest
    /\ unpack3 (split tab (strip line)) = Ok x.
Proof.
  intros Hb Ho Hne. rewrite save_checksums_lines in *.
  destruct b as [|e b].
  - destruct o as [|e o]; [now elim Hne|].
    apply Forall_inv in Ho. apply record_safe_spec in Ho.
    destruct Ho as [H1 [H2 H3]].
    simpl. eexists _, _, _. split; [reflexivity|].
    apply parse_record_line; auto.
  - apply Forall_inv in Hb. apply record_safe_spec in Hb.
    destruct Hb as [H1 [H2 H3]].
    simpl. eexists _, _, _. split; [reflexivity|].
    apply parse_record_line; auto.
Qed.

(** The first line of a file [save_checksums_single_dir] wrote from a table
    that is not empty has two fields. *)
Lemma single_saved_first_line (table : dict SingleDir.info) :
  forallb pair_safe (saved_pairs table) = true ->
  table <> [] ->
  exists line rest x,
    SingleDir.save_checksums_single_dir table = line :: rest
    /\ unpack2 (split tab (strip line)) = Ok x.
Proof.
  intros Hsafe Hne. rewrite save_single_lines.
  destruct table as [|[c i] table]; [now elim Hne|].
  simpl in *. apply andb_prop in Hsafe. destruct Hsafe as [Hsafe _].
  unfold pair_safe in Hsafe. simpl in Hsafe.
  repeat (apply andb_prop in Hsafe; destruct Hsafe as [Hsafe ?]).
  eexists _, _, _. split; [reflexivity|].
  apply parse_single_line; assumption.
Qed.

(** X25: the [dedup] command with [--skip-existing] on a checksum file that
    the [checksum] command wrote stops with [ValueError] before it walks the
    directory: a three-field record does not unpack into digest and path.
    Nothing is saved, shown or removed. *)
Theorem dedup_rejects_a_two_tree_checksum_file
    (abspath_join : string -> string -> string) (base_dir : string)
    (files : list walked) (b o : dict FileRecord)
    (update_checksum_file : bool)
    (sleep_time : Q) (confirm : bool) (list_next : Z)
    (inputs : list string) (disk : filesystem) :
  Forall (fun e => record_safe e = true) b ->
  Forall (fun e => record_safe e = true) o ->
  save_checksums b o <> [] ->
  dedup_command abspath_join base_dir files (Some (save_checksums b o)) true
    update_checksum_file sleep_time confirm list_next inputs disk
  = Raise ValueError.
Proof.
  intros Hb Ho Hne.
  destruct (saved_first_line b o Hb Ho Hne) as [line [rest [x [Hs Hx]]]].
  unfold dedup_command, SingleDir.calculate_checksums_single_dir,
    SingleDir.reuse_table, SingleDir.load_existing_checksums_single_dir.
  rewrite Hs. simpl SingleDir.load_existing_lines.
  rewrite (unpack3_not_unpack2 _ x Hx). reflexivity.
Qed.

(** X25 (witness): the file the [checksum] command wrote for two trees. *)
Lemma dedup_rejects_a_two_tree_checksum_file_witness :
  dedup_command posix_join "/dir" single_tree
    (Some (save_checksums canonical_table [("d1", plain "fileB")])) true true
    0 false 5 [] []
  = Raise ValueError.
Proof.
  apply dedup_rejects_a_two_tree_checksum_file.
  - repeat constructor.
  - repeat constructor.
  - discriminate.
Defined.

(** X26: the two-tree commands on a checksum file that the [dedup] command
    wrote: [search] and [checksum] with [--skip-existing] stop with
    [ValueError]; [delete] reports the error and goes on with empty tables,
    so that it removes nothing. *)
Theorem two_tree_commands_reject_a_single_dir_checksum_file
    (abspath_join : string -> string -> string)
    (base_dir target_dir : string) (table : dict SingleDir.info)
    (is_checksum update_checksum_file : bool)
    (base_files other_files : list walked)
    (sleep_time : Q) (confirm : bool) (list_next : Z)
    (inputs : list string) (disk : filesystem) :
  forallb pair_safe (saved_pairs table) = true ->
  table <> [] ->
  let saved := Some (SingleDir.save_checksums_single_dir table) in
  search_or_checksum_command is_checksum update_checksum_file
    base_files other_files saved true = Raise ValueError
  /\ load_checksums saved = mkLoaded [] [] (Some ValueError)
  /\ fs (final_state
           (delete_command abspath_join base_dir target_dir saved
              sleep_time confirm list_next inputs disk)) = disk
  /\ total_deleted
       (final_state
          (delete_command abspath_join base_dir target_dir saved
             sleep_time confirm list_next inputs disk)) = 0.
Proof.
  intros Hsafe Hne saved.
  destruct (single_saved_first_line table Hsafe Hne)
    as [line [rest [x [Hs Hx]]]].
  assert (Hload : load_checksums saved = mkLoaded [] [] (Some ValueError)).
  { unfold saved, load_checksums. rewrite Hs. simpl load_checksums_lines.
    now rewrite (unpack2_not_unpack3 _ x Hx). }
  split; [|split; [exact Hload|]].
  - unfold search_or_checksum_command, calculate_checksums, reuse_tables,
      load_existing_checksums, saved.
    rewrite Hs. simpl load_existing_lines. unfold load_existing_line.
    rewrite (unpack2_not_unpack3 _ x Hx). reflexivity.
  - unfold delete_command. rewrite Hload.
    cbv beta iota zeta delta [ld_base ld_other].
    unfold delete_duplicates. simpl files_to_delete_of.
    apply (drive_all_missing abspath_join base_dir target_dir [] sleep_time
             confirm list_next inputs disk).
    intros it [].
Qed.

(** X26 (witness): the file the [dedup] command wrote for one tree. *)
Lemma two_tree_commands_reject_a_single_dir_checksum_file_witness :
  search_or_checksum_command true true base_tree other_tree
    (Some (SingleDir.save_checksums_single_dir
             (fst (SingleDir.digest_tree false [] single_tree)))) true
  = Raise ValueError.
Proof.
  apply (two_tree_commands_reject_a_single_dir_checksum_file posix_join
           "/base" "/other"
           (fst (SingleDir.digest_tree false [] single_tree))
           true true base_tree other_tree 0 false 5 [] []).
  - reflexivity.
  - discriminate.
Defined.

(* ------------------------------------------------------------------ *)
(** ** Deletion Driver: missing targets in the interactive mode *)

Section InteractiveMissing.

Variable abspath_join : string -> string -> string.
Variables base_dir other_dir : string.
Variable queue : list item.

Local Abbreviation target := (duplicate_path_of abspath_join other_dir).
Local Abbreviation total := (List.length queue).
Local Abbreviation remove_at :=
  (fun s j =>
     remove_if_exists (duplicate_path_at abspath_join other_dir queue j) s).















End InteractiveMissing.


